(** * A session gateway in front of a fleet of backends

    Shallow embedding of the gateway's routing core:
    - [config/constants.js]       the configuration read from the environment,
    - [utils/cache.js]            the TTL cache,
    - [services/serverManager.js] the server registry and the session index,
    - [services/healthMonitor.js] the health probe,
    - [services/loadBalancer.js]  selection and forwarding (the variant that
      rewrites [/pair/:number] and retries with a guarded re-selection; the
      selection is the same in both variants),
    - [controllers/apiController.js] the pair and reset handlers (the variant
      that inspects the upstream body).

    Conventions of the model.
    - The process state is a record [World]; every operation of the source
      that mutates [this.servers], [this.sessionMap], the cache or
      [this.roundRobinIndex] is a function from [World] to [World] (paired
      with its result when it has one).
    - The outside world is an explicit input [Net]: the clock and what each
      URL answers when it is called.  A JavaScript exception is a value
      [Throw e] of [Result].
    - An instant is an integer number of milliseconds; [toISOString] is not
      modelled, a time stamp is the instant itself.
    - [Promise.all] over a list of calls is run in list order. *)

From Equations Require Import Equations.
From stdpp Require Import base option list strings gmap pretty.
From Stdlib Require Import Ascii ZArith Lia.

Set Default Proof Using "Type".
Open Scope Z_scope.
Open Scope nat_scope.

(** ** Values exchanged with the backends *)

(** A JSON value, as [response.data] of a forwarded request. *)
#[local] Unset Elimination Schemes.
Inductive json : Type :=
| JNull
| JBool (b : bool)
| JNum (n : Z)
| JStr (s : string)
| JArr (l : list json)
| JObj (fields : list (string * json)).
#[local] Set Elimination Schemes.

(** JavaScript truthiness of a JSON value. *)
Definition truthy (v : json) : bool :=
  match v with
  | JNull => false
  | JBool b => b
  | JNum n => negb (Z.eqb n 0)
  | JStr s => negb (String.eqb s "")
  | JArr _ => true
  | JObj _ => true
  end.

Fixpoint assoc (k : string) (fs : list (string * json)) : option json :=
  match fs with
  | [] => None
  | (k', v) :: r => if String.eqb k k' then Some v else assoc k r
  end.

(** [v.k]: [None] is [undefined]. *)
Definition field (v : json) (k : string) : option json :=
  match v with
  | JObj fs => assoc k fs
  | _ => None
  end.

(** Truthiness of a possibly undefined value. *)
Definition truthy_opt (o : option json) : bool :=
  match o with
  | Some v => truthy v
  | None => false
  end.

(** Truthiness of a possibly undefined string. *)
Definition truthy_str (o : option string) : bool :=
  match o with
  | Some s => negb (String.eqb s "")
  | None => false
  end.

(** [a || b] on possibly undefined strings. *)
Definition js_or (a b : option string) : option string :=
  if truthy_str a then a else b.

(** [x === s] for a possibly undefined string [x] and a string [s]. *)
Definition strict_eq (x : option string) (s : string) : bool :=
  match x with
  | Some t => String.eqb t s
  | None => false
  end.

(** One element of the [sessions] array of [GET <backend>/sessions]. *)
Record SessionObj : Type := {
  session_id : option string;        (* session.id *)
  session_sessionId : option string  (* session.sessionId *)
}.

(** [response.data?.sessions]: [None] when the body or the member is
    missing. *)
Definition SessionsBody : Type := option (list SessionObj).

Record Response (B : Type) : Type := {
  resp_status : nat;
  resp_data : B;
  resp_duration : option nat
}.
Arguments resp_status {B} _.
Arguments resp_data {B} _.
Arguments resp_duration {B} _.

(** A thrown JavaScript error: [new Error(msg)] has neither code nor
    response; an axios error may have both. *)
Record JsError (B : Type) : Type := {
  err_message : string;
  err_code : option string;
  err_response : option (Response B)
}.
Arguments err_message {B} _.
Arguments err_code {B} _.
Arguments err_response {B} _.

Definition Error {B : Type} (msg : string) : JsError B :=
  {| err_message := msg; err_code := None; err_response := None |}.

Inductive Result (A E : Type) : Type :=
| Ok (a : A)
| Throw (e : E).
Arguments Ok {A E} _.
Arguments Throw {A E} _.

(** What the network does with one request: an HTTP response, or a
    transport failure with its code ([ECONNREFUSED], [ETIMEDOUT], ...). *)
Inductive Reply (B : Type) : Type :=
| Answered (r : Response B)
| Failed (code : option string) (msg : string).
Arguments Answered {B} _.
Arguments Failed {B} _ _.

(** axios: a response whose status [validateStatus] refuses is turned into
    a rejection that carries the response. *)
Definition axios {B : Type} (validateStatus : nat → bool) (reply : Reply B)
  : Result (Response B) (JsError B) :=
  match reply with
  | Answered r =>
      if validateStatus (resp_status r) then Ok r
      else Throw {| err_message :=
                      "Request failed with status code " +:+ pretty (resp_status r);
                    err_code :=
                      if (400 <=? resp_status r) && (resp_status r <? 500)
                      then Some "ERR_BAD_REQUEST"
                      else if (500 <=? resp_status r) && (resp_status r <? 600)
                      then Some "ERR_BAD_RESPONSE"
                      else None;
                    err_response := Some r |}
  | Failed c m =>
      Throw {| err_message := m; err_code := c; err_response := None |}
  end.

(** axios' default [validateStatus]. *)
Definition status_2xx (s : nat) : bool := (200 <=? s) && (s <? 300).

(** The outside world at one instant. *)
Record Net : Type := {
  now : Z;                                   (* Date.now() *)
  get_sessions : string → Reply SessionsBody; (* axios.get(url) *)
  post_logout : string → Reply json;          (* axios.post(url, {}) *)
  forward : string → string → Reply json      (* axios({method, url}) *)
}.

(** ** config/constants.js *)

(** [CONFIG.STATUS]: the three status strings. *)
Inductive Status : Type := HEALTHY | UNHEALTHY | FULL.

Global Instance Status_eq_dec : EqDecision Status.
Proof. solve_decision. Defined.

(** The configuration as the module holds it once loaded.  The three
    numbers come from [parseInt], so they are integers of either sign. *)
Record Config : Type := {
  BACKEND_SERVERS : list string;
  MAX_SESSIONS_PER_SERVER : Z;
  SESSION_CACHE_TTL : Z;
  MAX_RETRIES : Z
}.

(** The environment variables the module reads: [BACKEND_SERVERS] already
    split at the commas, the numbers as [parseInt] returns them, [None]
    for a variable that is not set or that parses to [NaN]. *)
Record Env : Type := {
  env_BACKEND_SERVERS : option (list string);
  env_MAX_SESSIONS_PER_SERVER : option Z;
  env_SESSION_CACHE_TTL : option Z;
  env_MAX_RETRIES : option Z
}.

(** [parseInt(process.env.X) || d]: [NaN] and 0 give way to the default;
    every other integer is kept, a negative one included. *)
Definition parsed_or (parsed : option Z) (d : Z) : Z :=
  match parsed with
  | Some n => if (n =? 0)%Z then d else n
  | None => d
  end.

Definition CONFIG (env : Env) : Config :=
  {| BACKEND_SERVERS :=
       default
         ["https://new-production-0876.up.railway.app";
          "https://new-production-b381.up.railway.app"]
         (env_BACKEND_SERVERS env);
     MAX_SESSIONS_PER_SERVER := parsed_or (env_MAX_SESSIONS_PER_SERVER env) 25;
     SESSION_CACHE_TTL := parsed_or (env_SESSION_CACHE_TTL env) 5000;
     MAX_RETRIES := parsed_or (env_MAX_RETRIES env) 3 |}.

(** No variable is set. *)
Definition unset : Env :=
  {| env_BACKEND_SERVERS := None; env_MAX_SESSIONS_PER_SERVER := None;
     env_SESSION_CACHE_TTL := None; env_MAX_RETRIES := None |}.

Definition default_CONFIG : Config := CONFIG unset.

(** ** utils/cache.js *)

Record CacheItem : Type := { value : nat; expiry : Z }.

Definition cache_set (key : string) (v : nat) (ttl : Z) (t : Z)
  (store : gmap string CacheItem) : gmap string CacheItem :=
  <[key := {| value := v; expiry := (t + ttl)%Z |}]> store.

(** [get] deletes an expired entry on the way. *)
Definition cache_get (key : string) (t : Z) (store : gmap string CacheItem)
  : option nat * gmap string CacheItem :=
  match store !! key with
  | None => (None, store)
  | Some item =>
      if (expiry item <? t)%Z then (None, delete key store)
      else (Some (value item), store)
  end.

Definition cache_delete (key : string) (store : gmap string CacheItem)
  : gmap string CacheItem :=
  delete key store.

Definition cache_clear (store : gmap string CacheItem) : gmap string CacheItem :=
  ∅.

(** [cleanup]: every entry with [now > item.expiry] is deleted. *)
Definition cache_cleanup (t : Z) (store : gmap string CacheItem)
  : gmap string CacheItem :=
  filter (λ kv, ¬ (expiry kv.2 < t)%Z) store.

(** ** services/serverManager.js: the registry *)

Record Metadata : Type := {
  createdAt : Z;
  healthChecks : nat;
  failures : nat;
  deletedSessions : nat
}.

(** A server object.  [error] and [sessionsList] are the two members that
    only [Object.assign] creates. *)
Record Server : Type := {
  id : string;
  url : string;
  status : Status;
  sessionCount : nat;
  lastChecked : option Z;
  responseTime : nat;
  isActive : bool;
  sessions : list (option string);
  metadata : Metadata;
  error : option string;
  sessionsList : option (list SessionObj)
}.

(** The [data] argument of [updateServerStatus]: the members it carries.
    The keys are those of a server object other than its identity ([id],
    [url]), which no caller passes. *)
Record Patch : Type := {
  p_status : option Status;
  p_sessionCount : option nat;
  p_lastChecked : option Z;
  p_responseTime : option nat;
  p_isActive : option bool;
  p_sessions : option (list (option string));
  p_metadata : option Metadata;
  p_error : option string;
  p_sessionsList : option (list SessionObj)
}.

Definition no_patch : Patch :=
  {| p_status := None; p_sessionCount := None; p_lastChecked := None;
     p_responseTime := None; p_isActive := None; p_sessions := None;
     p_metadata := None; p_error := None; p_sessionsList := None |}.

(** [Object.assign(server, data)] *)
Definition assign (server : Server) (data : Patch) : Server :=
  {| id := id server;
     url := url server;
     status := default (status server) (p_status data);
     sessionCount := default (sessionCount server) (p_sessionCount data);
     lastChecked :=
       match p_lastChecked data with
       | Some t => Some t
       | None => lastChecked server
       end;
     responseTime := default (responseTime server) (p_responseTime data);
     isActive := default (isActive server) (p_isActive data);
     sessions := default (sessions server) (p_sessions data);
     metadata := default (metadata server) (p_metadata data);
     error :=
       match p_error data with
       | Some e => Some e
       | None => error server
       end;
     sessionsList :=
       match p_sessionsList data with
       | Some l => Some l
       | None => sessionsList server
       end |}.

(** The process state: [serverManager.servers] (a Map iterated in insertion
    order, kept as the list of its values), [serverManager.sessionMap], the
    cache's [store] and [loadBalancer.roundRobinIndex]. *)
Record World : Type := {
  servers : list Server;
  sessionMap : gmap string string;
  store : gmap string CacheItem;
  roundRobinIndex : nat
}.

Definition with_servers (l : list Server) (w : World) : World :=
  {| servers := l; sessionMap := sessionMap w; store := store w;
     roundRobinIndex := roundRobinIndex w |}.

Definition with_sessionMap (m : gmap string string) (w : World) : World :=
  {| servers := servers w; sessionMap := m; store := store w;
     roundRobinIndex := roundRobinIndex w |}.

Definition with_store (c : gmap string CacheItem) (w : World) : World :=
  {| servers := servers w; sessionMap := sessionMap w; store := c;
     roundRobinIndex := roundRobinIndex w |}.

Definition with_roundRobinIndex (i : nat) (w : World) : World :=
  {| servers := servers w; sessionMap := sessionMap w; store := store w;
     roundRobinIndex := i |}.

(** [`server-${index + 1}`] *)
Definition serverId (index : nat) : string := "server-" +:+ pretty (index + 1).

Definition initializeServers (urls : list string) (t : Z) : list Server :=
  imap (λ index u,
          {| id := serverId index;
             url := u;
             status := HEALTHY;
             sessionCount := 0;
             lastChecked := None;
             responseTime := 0;
             isActive := true;
             sessions := [];
             metadata := {| createdAt := t; healthChecks := 0;
                            failures := 0; deletedSessions := 0 |};
             error := None;
             sessionsList := None |}) urls.

(** The state after the constructors of [ServerManager], the cache and
    [LoadBalancer] have run. *)
Definition initial (cfg : Config) (t : Z) : World :=
  {| servers := initializeServers (BACKEND_SERVERS cfg) t;
     sessionMap := ∅;
     store := ∅;
     roundRobinIndex := 0 |}.

Definition getAllServers (w : World) : list Server := servers w.

Definition is_active (s : Server) : bool :=
  bool_decide (status s = HEALTHY) && isActive s.

Definition getActiveServers (w : World) : list Server :=
  List.filter is_active (getAllServers w).

Definition has_id (serverId : string) (s : Server) : bool :=
  String.eqb (id s) serverId.

Definition getServer (w : World) (serverId : string) : option Server :=
  List.find (has_id serverId) (servers w).

(** Writing through the reference [servers.get(serverId)]: the object
    stored under that key becomes [s']. *)
Fixpoint store_server (serverId : string) (s' : Server) (l : list Server)
  : list Server :=
  match l with
  | [] => []
  | s :: r =>
      if has_id serverId s then s' :: r
      else s :: store_server serverId s' r
  end.

Definition cacheKey (serverId : string) : string := "sessions_" +:+ serverId.

Definition updateServerStatus (serverId : string) (st : Status) (data : Patch)
  (t : Z) (w : World) : World :=
  match getServer w serverId with
  | None => w
  | Some server =>
      let md := metadata server in
      let server1 :=
        {| id := id server;
           url := url server;
           status := st;
           sessionCount := sessionCount server;
           lastChecked := Some t;
           responseTime := responseTime server;
           isActive :=
             match st with
             | UNHEALTHY => false
             | FULL => false
             | HEALTHY => true
             end;
           sessions := sessions server;
           metadata :=
             {| createdAt := createdAt md;
                healthChecks := S (healthChecks md);
                failures :=
                  match st with
                  | UNHEALTHY => S (failures md)
                  | _ => failures md
                  end;
                deletedSessions := deletedSessions md |};
           error := error server;
           sessionsList := sessionsList server |} in
      {| servers := store_server serverId (assign server1 data) (servers w);
         sessionMap := sessionMap w;
         store := cache_delete (cacheKey serverId) (store w);
         roundRobinIndex := roundRobinIndex w |}
  end.

Definition resetServer (serverId : string) (w : World) : World :=
  match getServer w serverId with
  | Some server =>
      with_servers
        (store_server serverId
           {| id := id server;
              url := url server;
              status := HEALTHY;
              sessionCount := sessionCount server;
              lastChecked := lastChecked server;
              responseTime := responseTime server;
              isActive := true;
              sessions := sessions server;
              metadata := metadata server;
              error := error server;
              sessionsList := sessionsList server |}
           (servers w)) w
  | None => w
  end.

Definition with_sessions (l : list (option string)) (server : Server) : Server :=
  {| id := id server;
     url := url server;
     status := status server;
     sessionCount := sessionCount server;
     lastChecked := lastChecked server;
     responseTime := responseTime server;
     isActive := isActive server;
     sessions := l;
     metadata := metadata server;
     error := error server;
     sessionsList := sessionsList server |}.

(** [sessions.map(s => s.id || s.sessionId)] *)
Definition session_ids (l : list SessionObj) : list (option string) :=
  map (λ s, js_or (session_id s) (session_sessionId s)) l.

(** [sessions.forEach(...)] of [getServerSessionCount]: every session that
    has a truthy identifier is pointed at [serverId]. *)
Definition index_sessions (serverId : string) (l : list SessionObj)
  (m : gmap string string) : gmap string string :=
  fold_left
    (λ acc s,
       match js_or (session_id s) (session_sessionId s) with
       | Some sessionId =>
           if String.eqb sessionId "" then acc else <[sessionId := serverId]> acc
       | None => acc
       end) l m.

Definition refused_or_timed_out (c : option string) : bool :=
  bool_decide (c = Some "ECONNREFUSED") || bool_decide (c = Some "ETIMEDOUT").

Definition getServerSessionCount (cfg : Config) (net : Net) (serverId : string)
  (w : World) : Result nat (JsError SessionsBody) * World :=
  let '(cached, store1) := cache_get (cacheKey serverId) (now net) (store w) in
  let w1 := with_store store1 w in
  match cached with
  | Some n => (Ok n, w1)
  | None =>
      match getServer w1 serverId with
      | None => (Throw (Error ("Server " +:+ serverId +:+ " not found")), w1)
      | Some server =>
          match axios status_2xx (get_sessions net (url server +:+ "/sessions")) with
          | Ok response =>
              let sessions := default [] (resp_data response) in
              let sessionCount := length sessions in
              let w2 :=
                with_servers
                  (store_server serverId
                     (with_sessions (session_ids sessions) server) (servers w1)) w1 in
              let w3 :=
                with_sessionMap (index_sessions serverId sessions (sessionMap w2)) w2 in
              let w4 :=
                with_store
                  (cache_set (cacheKey serverId) sessionCount
                     (SESSION_CACHE_TTL cfg) (now net) (store w3)) w3 in
              let w5 :=
                updateServerStatus serverId (status server)
                  {| p_status := None;
                     p_sessionCount := Some sessionCount;
                     p_lastChecked := None;
                     p_responseTime := Some (default 0 (resp_duration response));
                     p_isActive := None; p_sessions := None; p_metadata := None;
                     p_error := None; p_sessionsList := None |}
                  (now net) w4 in
              (Ok sessionCount, w5)
          | Throw error =>
              let w2 :=
                if refused_or_timed_out (err_code error)
                then updateServerStatus serverId UNHEALTHY
                       {| p_status := None; p_sessionCount := None;
                          p_lastChecked := None; p_responseTime := None;
                          p_isActive := None; p_sessions := None;
                          p_metadata := None;
                          p_error := Some (err_message error);
                          p_sessionsList := None |}
                       (now net) w1
                else w1 in
              (Throw error, w2)
          end
      end
  end.

Definition remove_session (sessionId : string) (l : list (option string))
  : list (option string) :=
  List.filter (λ s, negb (strict_eq s sessionId)) l.

Record DeleteResult : Type := {
  success : bool;
  deleted_serverId : string;
  deleted_sessionId : string;
  deleted_response : json;
  newSessionCount : nat
}.

Definition responded_404 {B : Type} (error : JsError B) : bool :=
  match err_response error with
  | Some r => resp_status r =? 404
  | None => false
  end.

Definition deleteSessionFromServer (net : Net) (serverId sessionId : string)
  (w : World) : Result DeleteResult (JsError json) * World :=
  match getServer w serverId with
  | None => (Throw (Error ("Server " +:+ serverId +:+ " not found")), w)
  | Some server =>
      match axios status_2xx
              (post_logout net (url server +:+ "/logout/" +:+ sessionId)) with
      | Ok response =>
          let md := metadata server in
          let server' :=
            {| id := id server;
               url := url server;
               status := status server;
               sessionCount :=
                 if 0 <? sessionCount server then sessionCount server - 1
                 else sessionCount server;
               lastChecked := lastChecked server;
               responseTime := responseTime server;
               isActive := isActive server;
               sessions := remove_session sessionId (sessions server);
               metadata :=
                 {| createdAt := createdAt md;
                    healthChecks := healthChecks md;
                    failures := failures md;
                    deletedSessions := S (deletedSessions md) |};
               error := error server;
               sessionsList := sessionsList server |} in
          (Ok {| success := true;
                 deleted_serverId := id server';
                 deleted_sessionId := sessionId;
                 deleted_response := resp_data response;
                 newSessionCount := sessionCount server' |},
           {| servers := store_server serverId server' (servers w);
              sessionMap := delete sessionId (sessionMap w);
              store := cache_delete (cacheKey serverId) (store w);
              roundRobinIndex := roundRobinIndex w |})
      | Throw error =>
          let w' :=
            if responded_404 error
            then {| servers :=
                      store_server serverId
                        (with_sessions
                           (remove_session sessionId (sessions server)) server)
                        (servers w);
                    sessionMap := delete sessionId (sessionMap w);
                    store := store w;
                    roundRobinIndex := roundRobinIndex w |}
            else w in
          (Throw error, w')
      end
  end.

(** The object [findSessionServer] resolves to. *)
Record Found : Type := {
  found_server : Server;
  cached : bool;
  sessionDetails : option SessionObj
}.

(** [server.sessions.includes(sessionId)] *)
Definition includes (sessionId : string) (l : list (option string)) : bool :=
  existsb (λ s, strict_eq s sessionId) l.

Definition names (sessionId : string) (session : SessionObj) : bool :=
  strict_eq (session_id session) sessionId
  || strict_eq (session_sessionId session) sessionId.

(** The [for (const server of servers)] loop of [findSessionServer]: the
    result, and the server objects as the loop leaves them. *)
Fixpoint searchServers (net : Net) (sessionId : string) (l : list Server)
  : option Found * list Server :=
  match l with
  | [] => (None, [])
  | server :: rest =>
      if includes sessionId (sessions server)
      then (Some {| found_server := server; cached := true;
                    sessionDetails := None |}, server :: rest)
      else
        match axios status_2xx (get_sessions net (url server +:+ "/sessions")) with
        | Ok response =>
            let sessions := default [] (resp_data response) in
            let server' := with_sessions (session_ids sessions) server in
            if existsb (names sessionId) sessions
            then (Some {| found_server := server'; cached := false;
                          sessionDetails := List.find (names sessionId) sessions |},
                  server' :: rest)
            else
              let '(r, rest') := searchServers net sessionId rest in
              (r, server' :: rest')
        | Throw _ =>
            let '(r, rest') := searchServers net sessionId rest in
            (r, server :: rest')
        end
  end.

(** [sessionMap.get(sessionId)] followed by [getServer], when the hint is
    truthy. *)
Definition hinted (w : World) (sessionId : string) : option Server :=
  match sessionMap w !! sessionId with
  | Some cachedServerId =>
      if String.eqb cachedServerId "" then None else getServer w cachedServerId
  | None => None
  end.

Definition findSessionServer (net : Net) (sessionId : string) (w : World)
  : option Found * World :=
  match hinted w sessionId with
  | Some server =>
      (Some {| found_server := server; cached := true; sessionDetails := None |}, w)
  | None =>
      let '(r, l) := searchServers net sessionId (getAllServers w) in
      match r with
      | Some f =>
          (r, {| servers := l;
                 sessionMap := <[sessionId := id (found_server f)]> (sessionMap w);
                 store := store w;
                 roundRobinIndex := roundRobinIndex w |})
      | None => (None, with_servers l w)
      end
  end.

(** The object [getSessionMapInfo] returns; [sessionsPerServer] is keyed by
    server id, in registry order. *)
Record SessionMapInfo : Type := {
  totalMappedSessions : nat;
  sessionsPerServer : list (string * nat);
  serverCount : nat
}.

Definition getSessionMapInfo (w : World) : SessionMapInfo :=
  {| totalMappedSessions := size (sessionMap w);
     sessionsPerServer :=
       map (λ server,
              (id server,
               length (List.filter (λ kv, bool_decide (kv.2 = id server))
                         (map_to_list (sessionMap w)))))
         (servers w);
     serverCount := length (servers w) |}.

(** ** services/healthMonitor.js *)

Definition checkServerHealth (cfg : Config) (net : Net) (server : Server)
  (w : World) : World :=
  let unhealthy (msg : string) :=
    updateServerStatus (id server) UNHEALTHY
      {| p_status := None; p_sessionCount := None;
         p_lastChecked := Some (now net); p_responseTime := None;
         p_isActive := None; p_sessions := None; p_metadata := None;
         p_error := Some msg; p_sessionsList := None |}
      (now net) w in
  match axios status_2xx (get_sessions net (url server +:+ "/sessions")) with
  | Ok response =>
      if resp_status response =? 200 then
        let sessions := default [] (resp_data response) in
        let sessionCount := length sessions in
        let newStatus :=
          if (MAX_SESSIONS_PER_SERVER cfg <=? Z.of_nat sessionCount)%Z
          then FULL else HEALTHY in
        updateServerStatus (id server) newStatus
          {| p_status := None;
             p_sessionCount := Some sessionCount;
             p_lastChecked := Some (now net);
             p_responseTime := Some (default 0 (resp_duration response));
             p_isActive := None; p_sessions := None; p_metadata := None;
             p_error := None;
             p_sessionsList := Some sessions |}
          (now net) w
      else unhealthy ("HTTP " +:+ pretty (resp_status response))
  | Throw error => unhealthy (err_message error)
  end.

(** One sweep: every server of the registry is probed. *)
Definition performHealthChecks (cfg : Config) (net : Net) (w : World) : World :=
  fold_left (λ acc server, checkServerHealth cfg net server acc)
    (getAllServers w) w.

Definition checkServer (cfg : Config) (net : Net) (serverId : string)
  (w : World) : Result (option Server) (JsError json) * World :=
  match getServer w serverId with
  | None => (Throw (Error ("Server " +:+ serverId +:+ " not found")), w)
  | Some server =>
      let w' := checkServerHealth cfg net server w in
      (Ok (getServer w' serverId), w')
  end.

(** ** services/loadBalancer.js *)

(** A session count as the selection sees it: [Infinity] stands for a
    count that could not be obtained. *)
Inductive Count : Type :=
| Finite (n : nat)
| Infinity.

Definition count_ltb (c : Count) (m : Z) : bool :=
  match c with
  | Finite n => (Z.of_nat n <? m)%Z
  | Infinity => false
  end.

Definition count_min (a b : Count) : Count :=
  match a, b with
  | Finite x, Finite y => Finite (x `min` y)
  | Finite x, Infinity => Finite x
  | Infinity, _ => b
  end.

Definition count_eqb (a b : Count) : bool :=
  match a, b with
  | Finite x, Finite y => x =? y
  | Infinity, Infinity => true
  | _, _ => false
  end.

(** [Math.min(...l)]; it is [Infinity] on the empty list. *)
Definition Math_min (l : list Count) : Count := foldr count_min Infinity l.

(** The content, in [w], of the object the reference [s] points to. *)
Definition deref (w : World) (s : Server) : Server :=
  default s (getServer w (id s)).

(** [activeServers.map(async server => ...)] awaited by [Promise.all]. *)
Fixpoint countSessions (cfg : Config) (net : Net) (l : list Server) (w : World)
  : list (Server * Count) * World :=
  match l with
  | [] => ([], w)
  | server :: rest =>
      let '(r, w1) := getServerSessionCount cfg net (id server) w in
      let sessionCount :=
        match r with
        | Ok n => Finite n
        | Throw _ => Infinity
        end in
      let '(counted, w2) := countSessions cfg net rest w1 in
      ((server, sessionCount) :: counted, w2)
  end.

(** Reading [.server] of [undefined]. *)
Definition TypeError {B : Type} : JsError B :=
  Error "Cannot read properties of undefined (reading 'server')".

Definition selectOptimalServer (cfg : Config) (net : Net) (w : World)
  : Result Server (JsError json) * World :=
  let activeServers := getActiveServers w in
  if length activeServers =? 0 then
    let allServers := getAllServers w in
    let fullServers :=
      List.filter (λ s, bool_decide (status s = FULL)) allServers in
    if (length fullServers =? length allServers) && (0 <? length allServers)
    then (Throw (Error "ALL_FULL"), w)
    else
      let unhealthyServers :=
        List.filter (λ s, bool_decide (status s = UNHEALTHY)) allServers in
      if (length unhealthyServers =? length allServers)
         && (0 <? length allServers)
      then (Throw (Error "ALL_UNAVAILABLE"), w)
      else (Throw (Error "NO_ACTIVE_SERVERS"), w)
  else
    let '(serversWithSessions, w1) := countSessions cfg net activeServers w in
    let availableServers :=
      List.filter (λ p, count_ltb (snd p) (MAX_SESSIONS_PER_SERVER cfg))
        serversWithSessions in
    if length availableServers =? 0 then (Throw (Error "ALL_FULL"), w1)
    else
      let minSessions := Math_min (map snd availableServers) in
      let leastLoadedServers :=
        List.filter (λ p, count_eqb (snd p) minSessions) availableServers in
      if 1 <? length leastLoadedServers then
        let i := (roundRobinIndex w1 + 1) `mod` length leastLoadedServers in
        let w2 := with_roundRobinIndex i w1 in
        match leastLoadedServers !! i with
        | Some p => (Ok (deref w2 (fst p)), w2)
        | None => (Throw TypeError, w2)
        end
      else
        match leastLoadedServers !! 0 with
        | Some p => (Ok (deref w1 (fst p)), w1)
        | None => (Throw TypeError, w1)
        end.

(** The part of an Express request that decides where it is sent.  Headers
    and body travel to the backend and have no part in the gateway's
    control flow. *)
Record Request : Type := {
  method : string;
  originalUrl : string
}.

Fixpoint after_prefix (p s : string) : option string :=
  match p, s with
  | EmptyString, _ => Some s
  | String a p', String b s' =>
      if Ascii.eqb a b then after_prefix p' s' else None
  | String _ _, EmptyString => None
  end.

Fixpoint no_slash (s : string) : bool :=
  match s with
  | EmptyString => true
  | String c r => negb (Ascii.eqb c "/"%char) && no_slash r
  end.

(** [originalUrl.match(/^\/pair\/[^\/]+$/)] *)
Definition matches_pair (originalUrl : string) : bool :=
  match after_prefix "/pair/" originalUrl with
  | Some rest => negb (String.eqb rest "") && no_slash rest
  | None => false
  end.

Definition targetUrl (server : Server) (req : Request) : string :=
  let path :=
    if matches_pair (originalUrl req) then originalUrl req +:+ "/"
    else originalUrl req in
  url server +:+ path.

(** [validateStatus] of [forwardRequest]: every status from 200 to 599. *)
Definition status_any (s : nat) : bool := (200 <=? s) && (s <? 600).

Definition marks_unhealthy (c : option string) : bool :=
  bool_decide (c = Some "ECONNREFUSED") || bool_decide (c = Some "ETIMEDOUT")
  || bool_decide (c = Some "ECONNABORTED").

(** What one call of [forwardRequest] did: its result, the state it left,
    and the target URL of every attempt, that is of every [axios(config)]
    it or its recursive calls issued, in order.  (The [/sessions] probes
    of a re-selection are not attempts to forward.) *)
Record Forwarded : Type := {
  outcome : Result (Response json) (JsError json);
  final : World;
  attempts : list string
}.

(** [env (2 * k)] is the world during the attempt made with [retries = k];
    [env (2 * k + 1)] is the world during the re-selection that follows
    it, after the delay. *)
Equations? forwardRequest (cfg : Config) (env : nat → Net) (req : Request)
  (server : Server) (retries : nat) (w : World) : Forwarded
  by wf (Z.to_nat (MAX_RETRIES cfg) - retries) lt :=
forwardRequest cfg env req server retries w
  with axios status_any
         (forward (env (2 * retries)) (method req) (targetUrl server req)) := {
  | Ok response =>
      {| outcome := Ok response; final := w;
         attempts := [targetUrl server req] |}
  | Throw error
    with (if marks_unhealthy (err_code error)
          then updateServerStatus (id server) UNHEALTHY
                 {| p_status := None; p_sessionCount := None;
                    p_lastChecked := None; p_responseTime := None;
                    p_isActive := None; p_sessions := None;
                    p_metadata := None;
                    p_error := Some (err_message error);
                    p_sessionsList := None |}
                 (now (env (2 * retries))) w
          else w) := {
    | w1 with Z_lt_dec (Z.of_nat retries) (MAX_RETRIES cfg) := {
      | left _ with selectOptimalServer cfg (env (2 * retries + 1)) w1 := {
        | (Ok newServer, w2) =>
            let r := forwardRequest cfg env req newServer (retries + 1) w2 in
            {| outcome := outcome r; final := final r;
               attempts := targetUrl server req :: attempts r |}
        | (Throw selectionError, w2) =>
            {| outcome := Throw error; final := w2;
               attempts := [targetUrl server req] |} }
      | right _ =>
          {| outcome := Throw error; final := w1;
             attempts := [targetUrl server req] |} } } }.
Proof. lia. Qed.

(** ** controllers/apiController.js *)

(** What [res.status(..).json(..)] sends. *)
Record Reply_sent : Type := {
  sent_status : nat;
  sent_body : json
}.

(** utils/helpers.js [createResponse(ok, null, error)] *)
Definition createResponse (ok : bool) (error : option json) (t : Z) : json :=
  JObj ([("ok", JBool ok); ("timestamp", JNum t)]
        ++ match error with
           | Some e => if truthy e then [("error", e)] else []
           | None => []
           end).

(** ** utils/helpers.js and middleware/validator.js *)

Definition is_digit (c : ascii) : bool :=
  (48 <=? nat_of_ascii c) && (nat_of_ascii c <=? 57).

Definition is_session_char (c : ascii) : bool :=
  ((97 <=? nat_of_ascii c) && (nat_of_ascii c <=? 122))
  || ((65 <=? nat_of_ascii c) && (nat_of_ascii c <=? 90))
  || is_digit c
  || Ascii.eqb c "_"%char || Ascii.eqb c "-"%char.

Fixpoint all_chars (f : ascii → bool) (s : string) : bool :=
  match s with
  | EmptyString => true
  | String c r => f c && all_chars f r
  end.

(** [/^[0-9]{6,15}$/.test(number)] *)
Definition validatePhoneNumber (number : string) : bool :=
  (6 <=? String.length number) && (String.length number <=? 15)
  && all_chars is_digit number.

(** [/^[a-zA-Z0-9_-]{10,100}$/.test(sessionId)] *)
Definition validateSessionId (sessionId : string) : bool :=
  (10 <=? String.length sessionId) && (String.length sessionId <=? 100)
  && all_chars is_session_char sessionId.

(** The middlewares: [None] is [next()]. *)
Definition validatePairRequest (number : string) (t : Z) : option Reply_sent :=
  if String.eqb number "" then
    Some {| sent_status := 400;
            sent_body :=
              createResponse false (Some (JStr "Phone number is required")) t |}
  else if negb (validatePhoneNumber number) then
    Some {| sent_status := 400;
            sent_body :=
              createResponse false
                (Some (JStr "Invalid phone number format. Must be 6-15 digits."))
                t |}
  else None.

Definition validateSessionIdParam (sessionId : string) (t : Z)
  : option Reply_sent :=
  if String.eqb sessionId "" then
    Some {| sent_status := 400;
            sent_body :=
              createResponse false (Some (JStr "Session ID is required")) t |}
  else if negb (validateSessionId sessionId) then
    Some {| sent_status := 400;
            sent_body :=
              createResponse false (Some (JStr "Invalid session ID format")) t |}
  else None.

(** The status strings of [CONFIG.STATUS], as they appear in a body. *)
Definition status_string (st : Status) : string :=
  match st with
  | HEALTHY => "healthy"
  | UNHEALTHY => "unhealthy"
  | FULL => "full"
  end.

Definition json_nat (n : nat) : json := JNum (Z.of_nat n).

Module ApiController.

(** [backendResponse.data.sessionId || backendResponse.data.cleanNumber],
    kept when it is a string: the index is only ever read under string
    keys. *)
Definition pairedSession (data : json) : option string :=
  let picked :=
    if truthy_opt (field data "sessionId") then field data "sessionId"
    else field data "cleanNumber" in
  match picked with
  | Some (JStr s) => if String.eqb s "" then None else Some s
  | _ => None
  end.

(** [first] is the world during the selection, [env] the one during the
    forwarding, [last] the one during the count refresh that follows a
    successful pairing. *)
Definition handlePair (cfg : Config) (first : Net) (env : nat → Net)
  (last : Net) (req : Request) (w : World) : Reply_sent * World :=
  match selectOptimalServer cfg first w with
  | (Throw selectionError, w1) =>
      let errorMessage :=
        if String.eqb (err_message selectionError) "ALL_FULL" then
          "All API servers are full ("
          +:+ pretty (MAX_SESSIONS_PER_SERVER cfg) +:+ "/"
          +:+ pretty (MAX_SESSIONS_PER_SERVER cfg) +:+ ")"
        else if String.eqb (err_message selectionError) "ALL_UNAVAILABLE" then
          "All backend servers are unavailable"
        else if String.eqb (err_message selectionError) "NO_ACTIVE_SERVERS" then
          "No active backend servers available"
        else "Service unavailable" in
      ({| sent_status := 503;
          sent_body := createResponse false (Some (JStr errorMessage)) (now first) |},
       w1)
  | (Ok selectedServer, w1) =>
      let run := forwardRequest cfg env req selectedServer 0 w1 in
      let w2 := final run in
      match outcome run with
      | Throw forwardError =>
          ({| sent_status := 503;
              sent_body :=
                createResponse false
                  (Some (JStr ("Backend server unavailable: "
                               +:+ err_message forwardError))) (now last) |},
           w2)
      | Ok backendResponse =>
          let data := resp_data backendResponse in
          if negb (truthy data) then
            ({| sent_status := 502;
                sent_body :=
                  createResponse false
                    (Some (JStr "Backend server returned empty response"))
                    (now last) |}, w2)
          else if truthy_opt (field data "error") then
            ({| sent_status :=
                  if 400 <=? resp_status backendResponse
                  then resp_status backendResponse else 400;
                sent_body := createResponse false (field data "error") (now last) |},
             w2)
          else
            let w3 :=
              if truthy_opt (field data "ok") then
                match getServerSessionCount cfg last (id selectedServer) w2 with
                | (Ok currentCount, w') =>
                    match pairedSession data with
                    | Some sessionId =>
                        with_sessionMap
                          (<[sessionId := id selectedServer]> (sessionMap w')) w'
                    | None => w'
                    end
                | (Throw updateError, w') => w'
                end
              else w2 in
            ({| sent_status := resp_status backendResponse;
                sent_body := data |}, w3)
      end
  end.

Definition resetServer (serverId : string) (w : World) : Reply_sent * World :=
  ({| sent_status := 200;
      sent_body :=
        JObj [("ok", JBool true);
              ("message",
               JStr ("Server " +:+ serverId
                     +:+ " has been reset to healthy status"))] |},
   resetServer serverId w).

(** [error.response.data?.error || error.message] *)
Definition upstream_message (error : JsError json) (r : Response json) : json :=
  match field (resp_data r) "error" with
  | Some e => if truthy e then e else JStr (err_message error)
  | None => JStr (err_message error)
  end.

(** [first] is the world during the lookup, [last] the one during the
    logout. *)
Definition deleteSession (first last : Net) (sessionId : string) (w : World)
  : Reply_sent * World :=
  match findSessionServer first sessionId w with
  | (None, w1) =>
      ({| sent_status := 404;
          sent_body :=
            createResponse false
              (Some (JStr ("Session " +:+ sessionId
                           +:+ " not found on any backend server"))) (now first) |},
       w1)
  | (Some sessionInfo, w1) =>
      let server := found_server sessionInfo in
      match deleteSessionFromServer last (id server) sessionId w1 with
      | (Ok deleteResult, w2) =>
          ({| sent_status := 200;
              sent_body :=
                JObj [("ok", JBool true);
                      ("message",
                       JStr ("Session " +:+ sessionId +:+ " deleted successfully"));
                      ("server", JObj [("id", JStr (id server));
                                       ("url", JStr (url server))]);
                      ("sessionId", JStr sessionId);
                      ("deletedAt", JNum (now last));
                      ("newSessionCount", json_nat (newSessionCount deleteResult));
                      ("details", deleted_response deleteResult)] |},
           w2)
      | (Throw error, w2) =>
          match err_response error with
          | Some r =>
              ({| sent_status := resp_status r;
                  sent_body :=
                    createResponse false (Some (upstream_message error r))
                      (now last) |}, w2)
          | None =>
              if refused_or_timed_out (err_code error) then
                ({| sent_status := 503;
                    sent_body :=
                      createResponse false
                        (Some (JStr "Backend server unavailable")) (now last) |},
                 w2)
              else
                ({| sent_status := 500;
                    sent_body :=
                      createResponse false
                        (Some (JStr "Failed to delete session")) (now last) |},
                 w2)
          end
      end
  end.

Definition findSession (net : Net) (sessionId : string) (w : World)
  : Reply_sent * World :=
  match findSessionServer net sessionId w with
  | (None, w1) =>
      ({| sent_status := 404;
          sent_body :=
            createResponse false
              (Some (JStr ("Session " +:+ sessionId
                           +:+ " not found on any backend server"))) (now net) |},
       w1)
  | (Some sessionInfo, w1) =>
      let server := found_server sessionInfo in
      ({| sent_status := 200;
          sent_body :=
            JObj [("ok", JBool true);
                  ("sessionId", JStr sessionId);
                  ("found", JBool true);
                  ("server", JObj [("id", JStr (id server));
                                   ("url", JStr (url server));
                                   ("status", JStr (status_string (status server)))]);
                  ("cached", JBool (cached sessionInfo));
                  ("lastChecked", JNum (now net))] |},
       w1)
  end.

Definition forceHealthCheck (cfg : Config) (net : Net) (serverId : string)
  (w : World) : Reply_sent * World :=
  match checkServer cfg net serverId w with
  | (Ok (Some server), w1) =>
      ({| sent_status := 200;
          sent_body :=
            JObj [("ok", JBool true);
                  ("message", JStr ("Health check performed on " +:+ serverId));
                  ("server",
                   JObj [("id", JStr (id server));
                         ("status", JStr (status_string (status server)));
                         ("sessionCount", json_nat (sessionCount server));
                         ("lastChecked",
                          match lastChecked server with
                          | Some t => JNum t
                          | None => JNull
                          end)])] |},
       w1)
  | (Ok None, w1) =>
      ({| sent_status := 404;
          sent_body :=
            createResponse false
              (Some (JStr "Cannot read properties of null (reading 'id')"))
              (now net) |}, w1)
  | (Throw error, w1) =>
      ({| sent_status := 404;
          sent_body :=
            createResponse false (Some (JStr (err_message error))) (now net) |},
       w1)
  end.

End ApiController.

(** ** The invariant of the registry *)

(** [isActive] is true exactly when the status is HEALTHY. *)
Definition consistent (s : Server) : Prop :=
  isActive s = bool_decide (status s = HEALTHY).

Definition registry_inv (w : World) : Prop := Forall consistent (servers w).

(** A patch as the callers build it: it carries neither [status] nor
    [isActive].  (The patches of the source carry [sessionCount],
    [lastChecked], [responseTime], [error] and [sessionsList].) *)
Definition plain (data : Patch) : Prop :=
  p_status data = None ∧ p_isActive data = None.

(** One operation of the gateway, with whatever the network answers. *)
Inductive step (cfg : Config) : World → World → Prop :=
| step_updateServerStatus serverId st data t w :
    plain data → step cfg w (updateServerStatus serverId st data t w)
| step_resetServer serverId w :
    step cfg w (resetServer serverId w)
| step_getServerSessionCount net serverId w :
    step cfg w (snd (getServerSessionCount cfg net serverId w))
| step_deleteSessionFromServer net serverId sessionId w :
    step cfg w (snd (deleteSessionFromServer net serverId sessionId w))
| step_findSessionServer net sessionId w :
    step cfg w (snd (findSessionServer net sessionId w))
| step_checkServerHealth net server w :
    step cfg w (checkServerHealth cfg net server w)
| step_performHealthChecks net w :
    step cfg w (performHealthChecks cfg net w)
| step_selectOptimalServer net w :
    step cfg w (snd (selectOptimalServer cfg net w))
| step_forwardRequest env req server retries w :
    step cfg w (final (forwardRequest cfg env req server retries w))
| step_handlePair first env last req w :
    step cfg w (snd (ApiController.handlePair cfg first env last req w))
| step_reset_endpoint serverId w :
    step cfg w (snd (ApiController.resetServer serverId w)).

Inductive reachable (cfg : Config) : World → Prop :=
| reachable_initial t : reachable cfg (initial cfg t)
| reachable_step w w' : reachable cfg w → step cfg w w' → reachable cfg w'.

(** ** The session lookup, stage by stage *)

Definition in_memory (sessionId : string) (server : Server) : bool :=
  includes sessionId (sessions server).

(** The backend's [/sessions] answers and names the session. *)
Definition reported (net : Net) (sessionId : string) (server : Server) : bool :=
  match axios status_2xx (get_sessions net (url server +:+ "/sessions")) with
  | Ok response => existsb (names sessionId) (default [] (resp_data response))
  | Throw _ => false
  end.

(** The server object after its [/sessions] has been probed. *)
Definition refreshed (net : Net) (server : Server) : Server :=
  match axios status_2xx (get_sessions net (url server +:+ "/sessions")) with
  | Ok response =>
      with_sessions (session_ids (default [] (resp_data response))) server
  | Throw _ => server
  end.

Definition misses (net : Net) (sessionId : string) (server : Server) : Prop :=
  in_memory sessionId server = false ∧ reported net sessionId server = false.

(** The probing stage on its own: each backend's [/sessions] in turn.
    (Part of [findSessionServer_staged] below.) *)
Fixpoint probeServers (net : Net) (sessionId : string) (l : list Server)
  : option Found * list Server :=
  match l with
  | [] => (None, [])
  | server :: rest =>
      if reported net sessionId server
      then (Some {| found_server := refreshed net server; cached := false;
                    sessionDetails := None |},
            refreshed net server :: rest)
      else
        let '(r, rest') := probeServers net sessionId rest in
        (r, refreshed net server :: rest')
  end.

(** The lookup as the specification words it, three stages in sequence:
    the index, then every in-memory set, and only then the probes.  This
    definition follows those words, not the source; it is what
    [findSessionServer] is compared with. *)
Definition findSessionServer_staged (net : Net) (sessionId : string) (w : World)
  : option Found * World :=
  match hinted w sessionId with
  | Some server =>
      (Some {| found_server := server; cached := true; sessionDetails := None |}, w)
  | None =>
      match List.find (in_memory sessionId) (getAllServers w) with
      | Some server =>
          (Some {| found_server := server; cached := true;
                   sessionDetails := None |},
           with_sessionMap (<[sessionId := id server]> (sessionMap w)) w)
      | None =>
          let '(r, l) := probeServers net sessionId (getAllServers w) in
          match r with
          | Some f =>
              (r, {| servers := l;
                     sessionMap :=
                       <[sessionId := id (found_server f)]> (sessionMap w);
                     store := store w;
                     roundRobinIndex := roundRobinIndex w |})
          | None => (None, with_servers l w)
          end
      end
  end.

(** ** What the selection sees *)

Definition is_Ok {A E : Type} (r : Result A E) : Prop :=
  match r with
  | Ok _ => True
  | Throw _ => False
  end.

(** The count [selectOptimalServer] obtains for a server in state [w]. *)
Definition counted (cfg : Config) (net : Net) (w : World) (server : Server)
  : Count :=
  match fst (getServerSessionCount cfg net (id server) w) with
  | Ok n => Finite n
  | Throw _ => Infinity
  end.

(** ** Round robin *)

(** Consecutive selections, one for each element of [nets]. *)
Fixpoint selections (cfg : Config) (nets : list Net) (w : World)
  : list (Result Server (JsError json)) * World :=
  match nets with
  | [] => ([], w)
  | net :: rest =>
      let '(r, w1) := selectOptimalServer cfg net w in
      let '(rs, w2) := selections cfg rest w1 in
      (r :: rs, w2)
  end.

Definition healthy (w : World) : list Server :=
  List.filter (λ s, bool_decide (status s = HEALTHY)) (servers w).

(** Each of the backends at [urls] lists exactly [c] sessions. *)
Definition replies_count (c : nat) (urls : list string) (net : Net) : Prop :=
  ∀ u, In u urls →
       ∃ r, get_sessions net (u +:+ "/sessions") = Answered r
            ∧ status_2xx (resp_status r) = true
            ∧ length (default [] (resp_data r)) = c.

(** A count cached for one of [ids], if any, is [c]. *)
Definition caches_count (c : nat) (ids : list string) (w : World) : Prop :=
  ∀ sid item, In sid ids → store w !! cacheKey sid = Some item → value item = c.

(** Among [K] tied servers, the position of the [j]-th pick after the
    cursor was at [r]. *)
Definition turn (K r j : nat) : nat :=
  if 1 <? K then (r + j) `mod` K else 0.

(** ** Selection outcomes *)

(** Every server of the registry has the given status. *)
Definition all_status (st : Status) (w : World) : Prop :=
  servers w ≠ [] ∧ ∀ s, In s (servers w) → status s = st.

Definition count_le (a b : Count) : Prop :=
  match a, b with
  | Finite x, Finite y => x ≤ y
  | _, Infinity => True
  | Infinity, Finite _ => False
  end.

(** ** The session index and the cache over time *)

(** Every entry of the session index names a server of the registry. *)
Definition index_known (w : World) : Prop :=
  ∀ sessionId b, sessionMap w !! sessionId = Some b → In b (map id (servers w)).

(** From [w] to [w'] the server ids stay, the index gains only entries
    that name servers, and the cache gains nothing. *)
Definition settles (w w' : World) : Prop :=
  map id (servers w') = map id (servers w)
  ∧ (∀ k b, sessionMap w' !! k = Some b →
            sessionMap w !! k = Some b ∨ In b (map id (servers w)))
  ∧ (∀ k, store w' !! k = store w !! k ∨ store w' !! k = None).

(** ** Identity and counters over time *)

(** [s'] is [s] later on: same id, URL and creation time, and no counter
    has gone down. *)
Definition grows (s s' : Server) : Prop :=
  id s' = id s
  ∧ url s' = url s
  ∧ createdAt (metadata s') = createdAt (metadata s)
  ∧ healthChecks (metadata s) ≤ healthChecks (metadata s')
  ∧ failures (metadata s) ≤ failures (metadata s')
  ∧ deletedSessions (metadata s) ≤ deletedSessions (metadata s').

Definition advances (w w' : World) : Prop :=
  Forall2 grows (servers w) (servers w').

(** One operation of the gateway; [updateServerStatus] with a patch that
    does not replace [metadata], as every patch built in the source. *)
Inductive operation (cfg : Config) : World → World → Prop :=
| op_updateServerStatus serverId st data t w :
    p_metadata data = None →
    operation cfg w (updateServerStatus serverId st data t w)
| op_resetServer serverId w :
    operation cfg w (resetServer serverId w)
| op_getServerSessionCount net serverId w :
    operation cfg w (snd (getServerSessionCount cfg net serverId w))
| op_deleteSessionFromServer net serverId sessionId w :
    operation cfg w (snd (deleteSessionFromServer net serverId sessionId w))
| op_findSessionServer net sessionId w :
    operation cfg w (snd (findSessionServer net sessionId w))
| op_checkServerHealth net server w :
    operation cfg w (checkServerHealth cfg net server w)
| op_performHealthChecks net w :
    operation cfg w (performHealthChecks cfg net w)
| op_selectOptimalServer net w :
    operation cfg w (snd (selectOptimalServer cfg net w))
| op_forwardRequest env req server retries w :
    operation cfg w (final (forwardRequest cfg env req server retries w))
| op_handlePair first env last req w :
    operation cfg w (snd (ApiController.handlePair cfg first env last req w))
| op_deleteSession first last sessionId w :
    operation cfg w (snd (ApiController.deleteSession first last sessionId w))
| op_findSession net sessionId w :
    operation cfg w (snd (ApiController.findSession net sessionId w))
| op_forceHealthCheck net serverId w :
    operation cfg w (snd (ApiController.forceHealthCheck cfg net serverId w)).

(** Any number of operations, one after the other. *)
Inductive performed (cfg : Config) : World → World → Prop :=
| performed_none w : performed cfg w w
| performed_more w w1 w2 :
    performed cfg w w1 → operation cfg w1 w2 → performed cfg w w2.

(** ** The verdict of a health probe *)

(** The status [checkServerHealth] settles on for a server, from what its
    [/sessions] answers. *)
Definition verdict (cfg : Config) (net : Net) (s : Server) : Status :=
  match axios status_2xx (get_sessions net (url s +:+ "/sessions")) with
  | Ok response =>
      if resp_status response =? 200 then
        if (MAX_SESSIONS_PER_SERVER cfg
            <=? Z.of_nat (length (default [] (resp_data response))))%Z
        then FULL else HEALTHY
      else UNHEALTHY
  | Throw _ => UNHEALTHY
  end.

(** [s'] is [s] after one health check by [net]. *)
Definition checked (cfg : Config) (net : Net) (s s' : Server) : Prop :=
  status s' = verdict cfg net s
  ∧ isActive s' = bool_decide (verdict cfg net s = HEALTHY)
  ∧ lastChecked s' = Some (now net)
  ∧ healthChecks (metadata s') = S (healthChecks (metadata s))
  ∧ failures (metadata s')
    = (if bool_decide (verdict cfg net s = UNHEALTHY)
       then S (failures (metadata s)) else failures (metadata s))
  ∧ (verdict cfg net s = UNHEALTHY → sessionCount s' = sessionCount s)
  ∧ sessions s' = sessions s
  ∧ id s' = id s
  ∧ url s' = url s.

(** ** Statuses on the request path *)

(** [s'] is [s] with its status kept or turned UNHEALTHY. *)
Definition fades (s s' : Server) : Prop :=
  id s' = id s ∧ (status s' = status s ∨ status s' = UNHEALTHY).

(** ** Specimen states and networks used by the closed lemmas *)

Definition w0 : World := initial default_CONFIG 0.

Definition url1 : string := "https://new-production-0876.up.railway.app".
Definition url2 : string := "https://new-production-b381.up.railway.app".

(** One backend down: [server-1] has failed one check. *)
Definition down1 : World := updateServerStatus "server-1" UNHEALTHY no_patch 1 w0.

(** A network on which the listed [/sessions] URLs answer 200 with the
    given sessions, every logout answers [logout], and nothing else
    answers. *)
Fixpoint listed (table : list (string * list SessionObj)) (u : string)
  : Reply SessionsBody :=
  match table with
  | [] => Failed (Some "ECONNREFUSED") "connect ECONNREFUSED"
  | (u', l) :: r =>
      if String.eqb u u'
      then Answered {| resp_status := 200; resp_data := Some l;
                       resp_duration := None |}
      else listed r u
  end.

Definition online (t : Z) (table : list (string * list SessionObj))
  (logout : Reply json) : Net :=
  {| now := t;
     get_sessions := listed table;
     post_logout := λ _, logout;
     forward := λ _ _, Failed (Some "ECONNREFUSED") "connect ECONNREFUSED" |}.

Definition logged_out : Reply json :=
  Answered {| resp_status := 200; resp_data := JObj [("ok", JBool true)];
              resp_duration := None |}.

Definition unknown_session : Reply json :=
  Answered {| resp_status := 404;
              resp_data := JObj [("error", JStr "Session not found")];
              resp_duration := None |}.

Definition session (name : string) : SessionObj :=
  {| session_id := Some name; session_sessionId := None |}.

Definition specimen (serverId u : string) (n : nat) (l : list (option string))
  : Server :=
  {| id := serverId; url := u; status := HEALTHY; sessionCount := n;
     lastChecked := Some 0%Z; responseTime := 0; isActive := true;
     sessions := l;
     metadata := {| createdAt := 0; healthChecks := 1; failures := 0;
                    deletedSessions := 0 |};
     error := None; sessionsList := None |}.

(** [server-1] holds two sessions, one of them indexed, and its count is
    cached. *)
Definition busy : World :=
  {| servers := [specimen "server-1" url1 2 [Some "sess-abc-01"; Some "sess-xyz-02"];
                 specimen "server-2" url2 0 []];
     sessionMap := {["sess-abc-01" := "server-1"]};
     store := {[cacheKey "server-1" := {| value := 2; expiry := 5000 |}]};
     roundRobinIndex := 0 |}.

(** [server-2] remembers a session that [server-1] now reports as well;
    the index knows nothing of it. *)
Definition moved : World :=
  {| servers := [specimen "server-1" url1 0 [];
                 specimen "server-2" url2 1 [Some "sess-abc-01"]];
     sessionMap := ∅;
     store := ∅;
     roundRobinIndex := 0 |}.

(** [server-1] lists one session when probed. *)
Definition one_session : Net :=
  online 10 [(url1 +:+ "/sessions", [session "sess-abc-01"])] logged_out.

(** A network on which the listed [/sessions] URLs answer and every
    forwarded request gets [reply]. *)
Definition pairing (t : Z) (table : list (string * list SessionObj))
  (reply : Reply json) : Net :=
  {| now := t;
     get_sessions := listed table;
     post_logout := λ _, logged_out;
     forward := λ _ _, reply |}.

Definition both_idle : list (string * list SessionObj) :=
  [(url1 +:+ "/sessions", []); (url2 +:+ "/sessions", [])].

Definition pair_request : Request :=
  {| method := "GET"; originalUrl := "/pair/33612345678" |}.

(** The backend refuses the number: 200 with an [error] member. *)
Definition refusal : Response json :=
  {| resp_status := 200;
     resp_data := JObj [("error", JStr "Invalid number")];
     resp_duration := None |}.

(** The backend declines without an [error] member: 409 with [ok: false]. *)
Definition declined : Response json :=
  {| resp_status := 409;
     resp_data := JObj [("ok", JBool false); ("reason", JStr "already paired")];
     resp_duration := None |}.

(** The backend answers 200 with no body. *)
Definition nothing : Response json :=
  {| resp_status := 200; resp_data := JNull; resp_duration := None |}.

(** Every forwarded request is reset by the peer, an error that does not
    mark the backend. *)
Definition flaky (k : nat) : Net :=
  pairing (Z.of_nat k) both_idle (Failed (Some "ECONNRESET") "socket hang up").

(** Nobody listens at [server-1]; [server-2] lists its sessions. *)
Definition half_down (t : Z) (l : list SessionObj) : Net :=
  {| now := t;
     get_sessions := listed [(url2 +:+ "/sessions", l)];
     post_logout := λ _, Failed (Some "ECONNREFUSED") "connect ECONNREFUSED";
     forward := λ _ _, Failed (Some "ECONNREFUSED") "connect ECONNREFUSED" |}.

(** [n] sessions with distinct names. *)
Definition crowd (n : nat) : list SessionObj :=
  map (λ i, session ("sess-" +:+ pretty i)) (seq 0 n).

(** A server as [initializeServers] creates it at time 0. *)
Definition fresh (serverId u : string) : Server :=
  {| id := serverId; url := u; status := HEALTHY; sessionCount := 0;
     lastChecked := None; responseTime := 0; isActive := true;
     sessions := [];
     metadata := {| createdAt := 0; healthChecks := 0; failures := 0;
                    deletedSessions := 0 |};
     error := None; sessionsList := None |}.

(** Both backends have failed a check. *)
Definition all_down : World :=
  updateServerStatus "server-2" UNHEALTHY no_patch 2 down1.

(** The backend has paired the number and names the new session. *)
Definition paired : Response json :=
  {| resp_status := 200;
     resp_data := JObj [("ok", JBool true); ("sessionId", JStr "sess-new-0001")];
     resp_duration := None |}.


(** * Properties *)

(** ** The registry as a keyed store *)

Lemma has_id_true serverId s : has_id serverId s = true ↔ id s = serverId.
Proof. unfold has_id. apply String.eqb_eq. Qed.

Lemma has_id_false serverId s : has_id serverId s = false ↔ id s ≠ serverId.
Proof. unfold has_id. apply String.eqb_neq. Qed.

Lemma find_id_Some serverId l s :
  List.find (has_id serverId) l = Some s → id s = serverId ∧ In s l.
Proof.
  intros H. apply find_some in H as [Hin Hid].
  split; [by apply has_id_true | done].
Qed.

Lemma getServer_Some w serverId s :
  getServer w serverId = Some s → id s = serverId ∧ In s (servers w).
Proof. apply find_id_Some. Qed.

Lemma store_server_unknown serverId s' l :
  List.find (has_id serverId) l = None → store_server serverId s' l = l.
Proof.
  induction l as [|s r IH]; simpl; [done|].
  destruct (has_id serverId s); [done|]. intros H. by rewrite IH.
Qed.

Lemma find_store_server_eq serverId s' l :
  id s' = serverId →
  is_Some (List.find (has_id serverId) l) →
  List.find (has_id serverId) (store_server serverId s' l) = Some s'.
Proof.
  intros Hid. induction l as [|s r IH]; simpl.
  - by intros [? ?].
  - destruct (has_id serverId s) eqn:E; simpl.
    + intros _. by rewrite (proj2 (has_id_true serverId s') Hid).
    + rewrite E. apply IH.
Qed.

Lemma find_store_server_ne serverId other s' l :
  id s' = serverId → other ≠ serverId →
  List.find (has_id other) (store_server serverId s' l)
  = List.find (has_id other) l.
Proof.
  intros Hid Hne. induction l as [|s r IH]; simpl; [done|].
  destruct (has_id serverId s) eqn:E; simpl.
  - apply has_id_true in E.
    rewrite (proj2 (has_id_false other s')) by congruence.
    by rewrite (proj2 (has_id_false other s)) by congruence.
  - destruct (has_id other s); [done | apply IH].
Qed.

Lemma map_id_store_server serverId s' l :
  id s' = serverId → map id (store_server serverId s' l) = map id l.
Proof.
  intros Hid. induction l as [|s r IH]; simpl; [done|].
  destruct (has_id serverId s) eqn:E; simpl.
  - apply has_id_true in E. congruence.
  - by rewrite IH.
Qed.

Lemma Forall_store_server (P : Server → Prop) serverId s' l :
  P s' → Forall P l → Forall P (store_server serverId s' l).
Proof.
  intros Hs. induction 1 as [|s r Hh Ht IH]; simpl; [constructor|].
  destruct (has_id serverId s); constructor; auto.
Qed.

Lemma id_assign s data : id (assign s data) = id s.
Proof. done. Qed.

(** ** Unknown server ids *)

(** C10. For an id that is not in the registry, [updateServerStatus] and
    [resetServer] return and leave the registry, the session index, the
    cache and the cursor as they were; the reset endpoint then answers
    200 with [ok: true]. *)
Theorem unknown_id_changes_nothing :
  ∀ (w : World) (serverId : string) (st : Status) (data : Patch) (t : Z),
    getServer w serverId = None →
    updateServerStatus serverId st data t w = w
    ∧ resetServer serverId w = w
    ∧ snd (ApiController.resetServer serverId w) = w
    ∧ sent_status (fst (ApiController.resetServer serverId w)) = 200
    ∧ field (sent_body (fst (ApiController.resetServer serverId w))) "ok"
      = Some (JBool true).
Proof.
  intros w serverId st data t Hnone.
  assert (Hreset : resetServer serverId w = w)
    by (unfold resetServer; by rewrite Hnone).
  repeat split.
  - unfold updateServerStatus. by rewrite Hnone.
  - exact Hreset.
  - exact Hreset.
Qed.

Lemma unknown_id_changes_nothing_witness :
  getServer w0 "server-7" = None
  ∧ updateServerStatus "server-7" UNHEALTHY no_patch 5 w0 = w0
  ∧ sent_status (fst (ApiController.resetServer "server-7" w0)) = 200.
Proof.
  assert (H : getServer w0 "server-7" = None) by (vm_compute; reflexivity).
  split; [exact H|].
  pose proof (unknown_id_changes_nothing w0 "server-7" UNHEALTHY no_patch 5 H)
    as (Hu & _ & _ & Hs & _).
  split; [exact Hu | exact Hs].
Defined.

(** ** [updateServerStatus] on a known server *)

Lemma getServer_updateServerStatus w serverId st data t server :
  getServer w serverId = Some server →
  getServer (updateServerStatus serverId st data t w) serverId
  = Some (assign
            {| id := id server; url := url server; status := st;
               sessionCount := sessionCount server; lastChecked := Some t;
               responseTime := responseTime server;
               isActive := bool_decide (st = HEALTHY);
               sessions := sessions server;
               metadata :=
                 {| createdAt := createdAt (metadata server);
                    healthChecks := S (healthChecks (metadata server));
                    failures :=
                      if bool_decide (st = UNHEALTHY)
                      then S (failures (metadata server))
                      else failures (metadata server);
                    deletedSessions := deletedSessions (metadata server) |};
               error := error server;
               sessionsList := sessionsList server |} data).
Proof.
  intros Hs. unfold updateServerStatus. rewrite Hs.
  unfold getServer at 1. simpl servers.
  destruct (getServer_Some _ _ _ Hs) as [Hid _].
  rewrite find_store_server_eq;
    [| by rewrite id_assign | unfold getServer in Hs; rewrite Hs; eauto].
  by destruct st.
Qed.

(** C8 (amended). On a known server, [updateServerStatus] stamps
    [lastChecked] with the current instant, counts one more health check,
    counts one more failure whenever the new status is UNHEALTHY, whatever
    the status was before, and no failure otherwise; then it applies the
    patch, whose members override what was just written; and it drops the
    server's entry of the session-count cache. *)
Theorem updateServerStatus_bookkeeping :
  ∀ (w : World) (serverId : string) (st : Status) (data : Patch) (t : Z)
    (server : Server),
    getServer w serverId = Some server →
    ∃ stamped : Server,
      getServer (updateServerStatus serverId st data t w) serverId
      = Some (assign stamped data)
      ∧ status stamped = st
      ∧ lastChecked stamped = Some t
      ∧ healthChecks (metadata stamped) = S (healthChecks (metadata server))
      ∧ failures (metadata stamped)
        = (if bool_decide (st = UNHEALTHY)
           then S (failures (metadata server))
           else failures (metadata server))
      ∧ deletedSessions (metadata stamped) = deletedSessions (metadata server)
      ∧ sessionCount stamped = sessionCount server
      ∧ sessions stamped = sessions server
      ∧ store (updateServerStatus serverId st data t w) !! cacheKey serverId
        = None.
Proof.
  intros w serverId st data t server Hs.
  eexists. split; [by apply getServer_updateServerStatus|].
  simpl. repeat split.
  unfold updateServerStatus. rewrite Hs. simpl.
  apply lookup_delete_eq.
Qed.

Lemma updateServerStatus_bookkeeping_witness :
  ∃ stamped : Server,
    getServer (updateServerStatus "server-1" UNHEALTHY no_patch 2 down1) "server-1"
    = Some (assign stamped no_patch)
    ∧ failures (metadata stamped) = 2.
Proof.
  destruct (getServer down1 "server-1") as [server|] eqn:H;
    [| by vm_compute in H].
  destruct (updateServerStatus_bookkeeping down1 "server-1" UNHEALTHY no_patch 2
              server H) as (stamped & Hget & _ & _ & _ & Hf & _).
  exists stamped. split; [exact Hget|].
  rewrite Hf. vm_compute in H. injection H as <-. reflexivity.
Defined.

(** C8 (as stated, refuted). A server that is already UNHEALTHY and is
    updated to UNHEALTHY again has its failure counter incremented. *)
Lemma failures_grow_while_unhealthy :
  (status <$> getServer down1 "server-1") = Some UNHEALTHY
  ∧ (failures ∘ metadata <$> getServer down1 "server-1") = Some 1
  ∧ (status <$> getServer
                  (updateServerStatus "server-1" UNHEALTHY no_patch 2 down1)
                  "server-1") = Some UNHEALTHY
  ∧ (failures ∘ metadata
       <$> getServer
             (updateServerStatus "server-1" UNHEALTHY no_patch 2 down1)
             "server-1") = Some 2.
Proof. vm_compute. repeat split. Qed.

(** ** Preservation of the registry invariant *)

Lemma registry_inv_same_servers w w' :
  servers w' = servers w → registry_inv w → registry_inv w'.
Proof. unfold registry_inv. by intros ->. Qed.

Lemma consistent_assign_plain s data :
  plain data → consistent s → consistent (assign s data).
Proof. intros [Hs Ha]. unfold consistent. simpl. by rewrite Hs, Ha. Qed.

Lemma consistent_with_sessions l s : consistent s → consistent (with_sessions l s).
Proof. done. Qed.

Lemma registry_inv_known w serverId s :
  registry_inv w → getServer w serverId = Some s → consistent s.
Proof.
  intros Hinv Hs. apply getServer_Some in Hs as [_ Hin].
  unfold registry_inv in Hinv. rewrite List.Forall_forall in Hinv. auto.
Qed.

Lemma registry_inv_updateServerStatus serverId st data t w :
  plain data → registry_inv w →
  registry_inv (updateServerStatus serverId st data t w).
Proof.
  intros Hplain Hinv. unfold updateServerStatus.
  destruct (getServer w serverId) as [server|]; [|done].
  apply Forall_store_server; [|exact Hinv].
  apply consistent_assign_plain; [done|]. by destruct st.
Qed.

Lemma registry_inv_resetServer serverId w :
  registry_inv w → registry_inv (resetServer serverId w).
Proof.
  intros Hinv. unfold resetServer.
  destruct (getServer w serverId) as [server|]; [|done].
  by apply Forall_store_server.
Qed.

Lemma plain_count_patch n d :
  plain {| p_status := None; p_sessionCount := Some n; p_lastChecked := None;
           p_responseTime := Some d; p_isActive := None; p_sessions := None;
           p_metadata := None; p_error := None; p_sessionsList := None |}.
Proof. done. Qed.

Lemma plain_error_patch lc msg :
  plain {| p_status := None; p_sessionCount := None; p_lastChecked := lc;
           p_responseTime := None; p_isActive := None; p_sessions := None;
           p_metadata := None; p_error := Some msg; p_sessionsList := None |}.
Proof. done. Qed.

Lemma registry_inv_getServerSessionCount cfg net serverId w :
  registry_inv w → registry_inv (snd (getServerSessionCount cfg net serverId w)).
Proof.
  intros Hinv. unfold getServerSessionCount.
  destruct (cache_get _ _ _) as [cached store1].
  destruct cached as [n|]; [done|].
  destruct (getServer _ serverId) as [server|] eqn:Hs; [|done].
  destruct (axios _ _) as [response|error]; simpl.
  - apply registry_inv_updateServerStatus; [apply plain_count_patch|].
    apply Forall_store_server; [|exact Hinv].
    apply consistent_with_sessions.
    by apply (registry_inv_known (with_store store1 w) serverId).
  - destruct (refused_or_timed_out _); [|done].
    by apply registry_inv_updateServerStatus; [apply plain_error_patch|].
Qed.

Lemma registry_inv_deleteSessionFromServer net serverId sessionId w :
  registry_inv w →
  registry_inv (snd (deleteSessionFromServer net serverId sessionId w)).
Proof.
  intros Hinv. unfold deleteSessionFromServer.
  destruct (getServer w serverId) as [server|] eqn:Hs; [|done].
  pose proof (registry_inv_known _ _ _ Hinv Hs) as Hc.
  destruct (axios _ _) as [response|error]; simpl.
  - by apply Forall_store_server.
  - destruct (responded_404 error); [|done].
    by apply Forall_store_server.
Qed.

Lemma consistent_searchServers net sessionId l :
  Forall consistent l → Forall consistent (snd (searchServers net sessionId l)).
Proof.
  induction 1 as [|s r Hs Hr IH]; simpl; [constructor|].
  destruct (includes sessionId (sessions s)); simpl; [by constructor|].
  destruct (axios _ _) as [response|error].
  - destruct (existsb _ _); simpl; [by constructor|].
    destruct (searchServers net sessionId r) as [res rest']. simpl in *.
    by constructor.
  - destruct (searchServers net sessionId r) as [res rest']. simpl in *.
    by constructor.
Qed.

Lemma registry_inv_findSessionServer net sessionId w :
  registry_inv w → registry_inv (snd (findSessionServer net sessionId w)).
Proof.
  intros Hinv. unfold findSessionServer.
  destruct (hinted w sessionId); [done|].
  pose proof (consistent_searchServers net sessionId _ Hinv) as H.
  unfold getAllServers.
  destruct (searchServers net sessionId (servers w)) as [[f|] l]; exact H.
Qed.

Lemma registry_inv_checkServerHealth cfg net server w :
  registry_inv w → registry_inv (checkServerHealth cfg net server w).
Proof.
  intros Hinv. unfold checkServerHealth.
  destruct (axios _ _) as [response|error].
  - destruct (resp_status response =? 200);
      by apply registry_inv_updateServerStatus.
  - by apply registry_inv_updateServerStatus.
Qed.

Lemma registry_inv_performHealthChecks cfg net w :
  registry_inv w → registry_inv (performHealthChecks cfg net w).
Proof.
  unfold performHealthChecks. generalize (getAllServers w). intros l.
  revert w. induction l as [|s r IH]; simpl; [done|].
  intros w Hinv. apply IH. by apply registry_inv_checkServerHealth.
Qed.

Lemma registry_inv_countSessions cfg net l w :
  registry_inv w → registry_inv (snd (countSessions cfg net l w)).
Proof.
  revert w. induction l as [|s r IH]; simpl; [done|].
  intros w Hinv.
  pose proof (registry_inv_getServerSessionCount cfg net (id s) w Hinv) as H1.
  destruct (getServerSessionCount cfg net (id s) w) as [res w1].
  specialize (IH w1 H1).
  by destruct (countSessions cfg net r w1) as [counted w2].
Qed.

Lemma registry_inv_selectOptimalServer cfg net w :
  registry_inv w → registry_inv (snd (selectOptimalServer cfg net w)).
Proof.
  intros Hinv. unfold selectOptimalServer.
  destruct (length (getActiveServers w) =? 0).
  - repeat (match goal with |- context [if ?b then _ else _] => destruct b end);
      done.
  - pose proof (registry_inv_countSessions cfg net (getActiveServers w) w Hinv) as H.
    destruct (countSessions cfg net (getActiveServers w) w) as [counted w1].
    simpl in H.
    repeat (match goal with
            | |- context [if ?b then _ else _] => destruct b
            | |- context [match ?l !! ?i with _ => _ end] => destruct (l !! i)
            end); done.
Qed.

Lemma registry_inv_forwardRequest cfg env req server retries w :
  registry_inv w →
  registry_inv (final (forwardRequest cfg env req server retries w)).
Proof.
  funelim (forwardRequest cfg env req server retries w); simpl; intros Hinv.
  - done.
  - destruct (marks_unhealthy _); [|done].
    by apply registry_inv_updateServerStatus.
  - apply H.
    change w2 with (snd (Ok (E := JsError json) newServer, w2)). rewrite <- Heq.
    apply registry_inv_selectOptimalServer.
    destruct (marks_unhealthy _); [|done].
    by apply registry_inv_updateServerStatus.
  - change w2 with (snd (Throw (A := Server) selectionError, w2)). rewrite <- Heq.
    apply registry_inv_selectOptimalServer.
    destruct (marks_unhealthy _); [|done].
    by apply registry_inv_updateServerStatus.
Qed.

Lemma registry_inv_handlePair cfg first env last req w :
  registry_inv w →
  registry_inv (snd (ApiController.handlePair cfg first env last req w)).
Proof.
  intros Hinv. unfold ApiController.handlePair.
  pose proof (registry_inv_selectOptimalServer cfg first w Hinv) as Hsel.
  destruct (selectOptimalServer cfg first w) as [[selectedServer|e] w1];
    simpl in Hsel; [|done].
  pose proof (registry_inv_forwardRequest cfg env req selectedServer 0 w1 Hsel)
    as Hfwd.
  destruct (outcome _) as [backendResponse|forwardError]; [|done].
  destruct (negb _); [done|].
  destruct (truthy_opt (field _ "error")); [done|].
  destruct (truthy_opt (field _ "ok")); [|done].
  pose proof (registry_inv_getServerSessionCount cfg last (id selectedServer)
                _ Hfwd) as Hcount.
  destruct (getServerSessionCount cfg last (id selectedServer) _)
    as [[currentCount|updateError] w']; simpl in *; [|done].
  by destruct (ApiController.pairedSession _).
Qed.

Lemma consistent_initializeServers urls t k :
  Forall consistent
    (imap (λ index u,
             {| id := serverId (k + index); url := u; status := HEALTHY;
                sessionCount := 0; lastChecked := None; responseTime := 0;
                isActive := true; sessions := [];
                metadata := {| createdAt := t; healthChecks := 0;
                               failures := 0; deletedSessions := 0 |};
                error := None; sessionsList := None |}) urls).
Proof.
  revert k. induction urls as [|u r IH]; intros k; simpl; constructor; [done|].
  rewrite List.Forall_forall. intros s Hs.
  specialize (IH (S k)). rewrite List.Forall_forall in IH. apply IH.
  erewrite imap_ext; [exact Hs|].
  intros i x _. simpl. by rewrite Nat.add_succ_r.
Qed.

Lemma registry_inv_initial cfg t : registry_inv (initial cfg t).
Proof. apply (consistent_initializeServers _ t 0). Qed.

Lemma registry_inv_step cfg w w' :
  step cfg w w' → registry_inv w → registry_inv w'.
Proof.
  destruct 1; intros Hinv.
  - by apply registry_inv_updateServerStatus.
  - by apply registry_inv_resetServer.
  - by apply registry_inv_getServerSessionCount.
  - by apply registry_inv_deleteSessionFromServer.
  - by apply registry_inv_findSessionServer.
  - by apply registry_inv_checkServerHealth.
  - by apply registry_inv_performHealthChecks.
  - by apply registry_inv_selectOptimalServer.
  - by apply registry_inv_forwardRequest.
  - by apply registry_inv_handlePair.
  - by apply registry_inv_resetServer.
Qed.

(** C7. After initialization every server has [isActive] true exactly
    when its status is HEALTHY, and every operation of the gateway keeps
    it so: [updateServerStatus] with each status of [CONFIG.STATUS] and
    each patch a caller builds, [resetServer], the session-count refresh,
    the delete, the lookup, the health check and its sweep, the selection,
    the forwarding and the pair handler.  Hence in every reachable state,
    for every server of the registry, [isActive] is true if and only if
    the status is HEALTHY. *)
Theorem isActive_iff_HEALTHY :
  ∀ cfg : Config,
    (∀ t, registry_inv (initial cfg t))
    ∧ (∀ w w', registry_inv w → step cfg w w' → registry_inv w')
    ∧ (∀ w, reachable cfg w →
            ∀ s, In s (servers w) → (isActive s = true ↔ status s = HEALTHY)).
Proof.
  intros cfg.
  split; [apply registry_inv_initial|].
  split; [intros w w' Hinv Hstep; by apply (registry_inv_step cfg w w')|].
  intros w Hreach.
  assert (Hinv : registry_inv w).
  { induction Hreach as [t|w w' _ IH Hstep].
    - apply registry_inv_initial.
    - by apply (registry_inv_step cfg w w'). }
  intros s Hin. unfold registry_inv in Hinv.
  rewrite List.Forall_forall in Hinv. specialize (Hinv s Hin).
  unfold consistent in Hinv. rewrite Hinv.
  apply bool_decide_eq_true.
Qed.

Lemma isActive_iff_HEALTHY_witness :
  registry_inv (resetServer "server-1" down1)
  ∧ (∀ s, In s (servers down1) → (isActive s = true ↔ status s = HEALTHY)).
Proof.
  destruct (isActive_iff_HEALTHY default_CONFIG) as (Hinit & Hstep & Hreach).
  assert (Hdown : step default_CONFIG w0 down1).
  { apply step_updateServerStatus. split; reflexivity. }
  split.
  - apply (Hstep down1); [|apply step_resetServer].
    apply (Hstep w0); [apply (Hinit 0%Z) | exact Hdown].
  - apply Hreach.
    apply (reachable_step default_CONFIG w0 down1); [|exact Hdown].
    apply (reachable_initial default_CONFIG 0).
Defined.

(** ** Deleting a session *)

Lemma getServer_store_server w serverId s' server l :
  getServer w serverId = Some server → id s' = serverId → l = servers w →
  List.find (has_id serverId) (store_server serverId s' l) = Some s'.
Proof.
  intros Hs Hid ->. apply find_store_server_eq; [done|].
  unfold getServer in Hs. rewrite Hs. eauto.
Qed.

Lemma axios_2xx_Answered {B : Type} (r : Response B) :
  status_2xx (resp_status r) = true → axios status_2xx (Answered r) = Ok r.
Proof. intros H. simpl. by rewrite H. Qed.

Lemma axios_404 {B : Type} (r : Response B) :
  resp_status r = 404 →
  ∃ e, axios status_2xx (Answered r) = Throw e ∧ err_response e = Some r.
Proof. intros H. simpl. rewrite H. simpl. eauto. Qed.

Lemma includes_remove_session s l : includes s (remove_session s l) = false.
Proof.
  unfold includes, remove_session.
  apply not_true_iff_false. rewrite existsb_exists.
  intros (x & Hin & Hx). apply filter_In in Hin as [_ Hneg].
  by rewrite Hx in Hneg.
Qed.

Lemma deleteSessionFromServer_2xx net w b s server r :
  getServer w b = Some server →
  post_logout net (url server +:+ "/logout/" +:+ s) = Answered r →
  status_2xx (resp_status r) = true →
  deleteSessionFromServer net b s w
  = (Ok {| success := true; deleted_serverId := b; deleted_sessionId := s;
           deleted_response := resp_data r;
           newSessionCount := sessionCount server - 1 |},
     {| servers :=
          store_server b
            {| id := id server; url := url server; status := status server;
               sessionCount := sessionCount server - 1;
               lastChecked := lastChecked server;
               responseTime := responseTime server;
               isActive := isActive server;
               sessions := remove_session s (sessions server);
               metadata :=
                 {| createdAt := createdAt (metadata server);
                    healthChecks := healthChecks (metadata server);
                    failures := failures (metadata server);
                    deletedSessions := S (deletedSessions (metadata server)) |};
               error := error server;
               sessionsList := sessionsList server |} (servers w);
        sessionMap := delete s (sessionMap w);
        store := cache_delete (cacheKey b) (store w);
        roundRobinIndex := roundRobinIndex w |}).
Proof.
  intros Hs Hreply H2xx.
  destruct (getServer_Some _ _ _ Hs) as [Hid _].
  assert (Hcount : (if 0 <? sessionCount server then sessionCount server - 1
                    else sessionCount server) = sessionCount server - 1).
  { destruct (0 <? sessionCount server) eqn:E; [done|].
    apply Nat.ltb_ge in E. lia. }
  unfold deleteSessionFromServer.
  rewrite Hs, Hreply, (axios_2xx_Answered r H2xx). simpl.
  by rewrite Hcount, Hid.
Qed.

Lemma deleteSessionFromServer_404 net w b s server r :
  getServer w b = Some server →
  post_logout net (url server +:+ "/logout/" +:+ s) = Answered r →
  resp_status r = 404 →
  ∃ e,
    err_response e = Some r
    ∧ deleteSessionFromServer net b s w
      = (Throw e,
         {| servers :=
              store_server b
                (with_sessions (remove_session s (sessions server)) server)
                (servers w);
            sessionMap := delete s (sessionMap w);
            store := store w;
            roundRobinIndex := roundRobinIndex w |}).
Proof.
  intros Hs Hreply H404.
  destruct (axios_404 r H404) as (e & Haxios & He).
  exists e. split; [done|].
  unfold deleteSessionFromServer. rewrite Hs, Hreply, Haxios.
  unfold responded_404. by rewrite He, H404.
Qed.

(** C4 (amended). On a known backend, a logout that succeeds counts one
    more deleted session, removes the session from the backend's set and
    from the index, decrements [sessionCount] unless it is 0, and drops the
    backend's cache entry.  A logout answered 404 removes the session from
    the backend's set and from the index and surfaces the 404; it leaves
    the counters, [sessionCount] and the cache as they were.  Deleting
    twice, with a success and then a 404, leaves no index entry. *)
Theorem deleteSessionFromServer_effects :
  ∀ (net net2 : Net) (w : World) (b s : string) (server : Server)
    (r : Response json),
    getServer w b = Some server →
    post_logout net (url server +:+ "/logout/" +:+ s) = Answered r →
    (status_2xx (resp_status r) = true →
     ∃ server',
       fst (deleteSessionFromServer net b s w)
       = Ok {| success := true; deleted_serverId := b; deleted_sessionId := s;
               deleted_response := resp_data r;
               newSessionCount := sessionCount server - 1 |}
       ∧ getServer (snd (deleteSessionFromServer net b s w)) b = Some server'
       ∧ deletedSessions (metadata server') = S (deletedSessions (metadata server))
       ∧ sessions server' = remove_session s (sessions server)
       ∧ includes s (sessions server') = false
       ∧ sessionCount server' = sessionCount server - 1
       ∧ sessionMap (snd (deleteSessionFromServer net b s w))
         = delete s (sessionMap w)
       ∧ store (snd (deleteSessionFromServer net b s w)) !! cacheKey b = None
       ∧ (∀ r2,
            post_logout net2 (url server +:+ "/logout/" +:+ s) = Answered r2 →
            resp_status r2 = 404 →
            ∃ e,
              fst (deleteSessionFromServer net2 b s
                     (snd (deleteSessionFromServer net b s w))) = Throw e
              ∧ err_response e = Some r2
              ∧ sessionMap
                  (snd (deleteSessionFromServer net2 b s
                          (snd (deleteSessionFromServer net b s w)))) !! s
                = None))
    ∧ (resp_status r = 404 →
       ∃ e server',
         fst (deleteSessionFromServer net b s w) = Throw e
         ∧ err_response e = Some r
         ∧ getServer (snd (deleteSessionFromServer net b s w)) b = Some server'
         ∧ sessions server' = remove_session s (sessions server)
         ∧ includes s (sessions server') = false
         ∧ sessionMap (snd (deleteSessionFromServer net b s w))
           = delete s (sessionMap w)
         ∧ sessionCount server' = sessionCount server
         ∧ metadata server' = metadata server
         ∧ store (snd (deleteSessionFromServer net b s w)) = store w).
Proof.
  intros net net2 w b s server r Hs Hreply.
  destruct (getServer_Some _ _ _ Hs) as [Hid _].
  split.
  - intros H2xx.
    rewrite (deleteSessionFromServer_2xx net w b s server r Hs Hreply H2xx).
    set (w1 := {| servers := _ |}). simpl fst. simpl snd.
    assert (Hs1 : getServer w1 b
                  = Some {| id := id server; url := url server;
                            status := status server;
                            sessionCount := sessionCount server - 1;
                            lastChecked := lastChecked server;
                            responseTime := responseTime server;
                            isActive := isActive server;
                            sessions := remove_session s (sessions server);
                            metadata :=
                              {| createdAt := createdAt (metadata server);
                                 healthChecks := healthChecks (metadata server);
                                 failures := failures (metadata server);
                                 deletedSessions :=
                                   S (deletedSessions (metadata server)) |};
                            error := error server;
                            sessionsList := sessionsList server |}).
    { unfold getServer, w1. simpl servers.
      eapply getServer_store_server; [exact Hs | exact Hid | reflexivity]. }
    eexists. split; [done|]. split; [exact Hs1|].
    simpl. repeat split;
      [apply includes_remove_session | apply lookup_delete_eq |].
    intros r2 Hreply2 H404.
    destruct (deleteSessionFromServer_404 net2 w1 b s _ r2 Hs1 Hreply2 H404)
      as (e & He & ->).
    exists e. simpl. repeat split; [done|]. apply lookup_delete_eq.
  - intros H404.
    destruct (deleteSessionFromServer_404 net w b s server r Hs Hreply H404)
      as (e & He & ->).
    exists e. eexists. split; [done|]. split; [done|]. split.
    { unfold getServer. simpl servers.
      eapply getServer_store_server; [exact Hs | exact Hid | reflexivity]. }
    simpl. repeat split. apply includes_remove_session.
Qed.

Lemma deleteSessionFromServer_effects_witness :
  ∃ e,
    fst (deleteSessionFromServer (online 20 [] unknown_session)
           "server-1" "sess-abc-01"
           (snd (deleteSessionFromServer (online 10 [] logged_out)
                   "server-1" "sess-abc-01" busy))) = Throw e
    ∧ (resp_status <$> err_response e) = Some 404.
Proof.
  destruct (getServer busy "server-1") as [server|] eqn:H;
    [| by vm_compute in H].
  destruct (deleteSessionFromServer_effects
              (online 10 [] logged_out) (online 20 [] unknown_session)
              busy "server-1" "sess-abc-01" server
              {| resp_status := 200; resp_data := JObj [("ok", JBool true)];
                 resp_duration := None |} H eq_refl) as [Hok _].
  destruct (Hok eq_refl) as (server' & _ & _ & _ & _ & _ & _ & _ & _ & Htwice).
  destruct (Htwice {| resp_status := 404;
                      resp_data := JObj [("error", JStr "Session not found")];
                      resp_duration := None |} eq_refl eq_refl)
    as (e & Hres & He & _).
  exists e. split; [exact Hres|]. by rewrite He.
Defined.

(** C4 (as stated, refuted). When the backend answers 404, the session
    count is not decremented, no deleted session is counted and the cache
    entry stays. *)
Lemma not_found_keeps_count_and_cache :
  let w' := snd (deleteSessionFromServer (online 10 [] unknown_session)
                   "server-1" "sess-abc-01" busy) in
  (sessionCount <$> getServer busy "server-1") = Some 2
  ∧ (sessionCount <$> getServer w' "server-1") = Some 2
  ∧ (deletedSessions ∘ metadata <$> getServer w' "server-1") = Some 0
  ∧ store w' !! cacheKey "server-1" = Some {| value := 2; expiry := 5000 |}
  ∧ sessionMap w' !! "sess-abc-01" = None.
Proof. vm_compute. repeat split. Qed.

(** ** The health probe *)

Lemma sessionMap_updateServerStatus serverId st data t w :
  sessionMap (updateServerStatus serverId st data t w) = sessionMap w.
Proof. unfold updateServerStatus. by destruct (getServer w serverId). Qed.

(** What a probe answered 200 does to a known server: status, count and
    time stamp follow the answer; the session set and the index are not
    written. *)
Lemma checkServerHealth_200 cfg net server w r :
  getServer w (id server) = Some server →
  get_sessions net (url server +:+ "/sessions") = Answered r →
  resp_status r = 200 →
  ∃ server',
    getServer (checkServerHealth cfg net server w) (id server) = Some server'
    ∧ status server'
      = (if (MAX_SESSIONS_PER_SERVER cfg
             <=? Z.of_nat (length (default [] (resp_data r))))%Z
         then FULL else HEALTHY)
    ∧ sessionCount server' = length (default [] (resp_data r))
    ∧ lastChecked server' = Some (now net)
    ∧ sessionsList server' = Some (default [] (resp_data r))
    ∧ sessions server' = sessions server
    ∧ sessionMap (checkServerHealth cfg net server w) = sessionMap w.
Proof.
  intros Hs Hreply H200. unfold checkServerHealth.
  rewrite Hreply, axios_2xx_Answered by (by rewrite H200).
  rewrite H200, Nat.eqb_refl.
  rewrite sessionMap_updateServerStatus.
  erewrite getServer_updateServerStatus by exact Hs.
  eexists. split; [reflexivity|]. simpl. repeat split.
Qed.

(** C2 (evaluated). [server-1] is probed and answers 200 with one session:
    status, count and time stamp follow the answer, the list lands in
    [sessionsList], and neither the server's [sessions] nor the session
    index learns of the session. *)
Lemma health_probe_misses_sessions_and_index :
  let w' := checkServerHealth default_CONFIG one_session
              (specimen "server-1" url1 0 []) w0 in
  get_sessions one_session (url1 +:+ "/sessions")
  = Answered {| resp_status := 200; resp_data := Some [session "sess-abc-01"];
                resp_duration := None |}
  ∧ (status <$> getServer w' "server-1") = Some HEALTHY
  ∧ (sessionCount <$> getServer w' "server-1") = Some 1
  ∧ (lastChecked <$> getServer w' "server-1") = Some (Some 10%Z)
  ∧ (sessionsList <$> getServer w' "server-1")
    = Some (Some [session "sess-abc-01"])
  ∧ (sessions <$> getServer w' "server-1") = Some []
  ∧ sessionMap w' !! "sess-abc-01" = None.
Proof. vm_compute. repeat split. Qed.

(** ** Looking a session up *)

Lemma searchServers_order net sessionId l :
  match searchServers net sessionId l with
  | (None, l') => Forall (misses net sessionId) l ∧ l' = map (refreshed net) l
  | (Some f, l') =>
      ∃ pre server post,
        l = pre ++ server :: post
        ∧ Forall (misses net sessionId) pre
        ∧ cached f = in_memory sessionId server
        ∧ (if in_memory sessionId server
           then found_server f = server
                ∧ l' = map (refreshed net) pre ++ server :: post
           else reported net sessionId server = true
                ∧ found_server f = refreshed net server
                ∧ l' = map (refreshed net) pre ++ refreshed net server :: post)
  end.
Proof.
  induction l as [|s r IH]; simpl; [by split|].
  destruct (includes sessionId (sessions s)) eqn:Hmem.
  { exists [], s, r. unfold in_memory. rewrite Hmem. by repeat split. }
  assert (Hhere :
    ∀ b, reported net sessionId s = b →
         b = true →
         ∃ pre server post,
           s :: r = pre ++ server :: post
           ∧ Forall (misses net sessionId) pre
           ∧ false = in_memory sessionId server
           ∧ (if in_memory sessionId server
              then refreshed net s = server
                   ∧ refreshed net s :: r
                     = map (refreshed net) pre ++ server :: post
              else reported net sessionId server = true
                   ∧ refreshed net s = refreshed net server
                   ∧ refreshed net s :: r
                     = map (refreshed net) pre ++ refreshed net server :: post)).
  { intros b Hb ->. exists [], s, r. unfold in_memory. rewrite Hmem.
    by repeat split. }
  assert (Hlater :
    reported net sessionId s = false →
    match searchServers net sessionId r with
    | (None, rest') =>
        Forall (misses net sessionId) (s :: r)
        ∧ refreshed net s :: rest' = map (refreshed net) (s :: r)
    | (Some f, rest') =>
        ∃ pre server post,
          s :: r = pre ++ server :: post
          ∧ Forall (misses net sessionId) pre
          ∧ cached f = in_memory sessionId server
          ∧ (if in_memory sessionId server
             then found_server f = server
                  ∧ refreshed net s :: rest'
                    = map (refreshed net) pre ++ server :: post
             else reported net sessionId server = true
                  ∧ found_server f = refreshed net server
                  ∧ refreshed net s :: rest'
                    = map (refreshed net) pre ++ refreshed net server :: post)
    end).
  { intros Hrep.
    destruct (searchServers net sessionId r) as [[f|] rest'].
    - destruct IH as (pre & server & post & -> & Hpre & Hc & Hrest).
      exists (s :: pre), server, post. split; [done|].
      split; [by constructor|]. split; [done|].
      destruct (in_memory sessionId server).
      + destruct Hrest as [? ->]. by split.
      + destruct Hrest as (? & ? & ->). by repeat split.
    - destruct IH as [Hall ->]. split; [by constructor | done]. }
  unfold reported, refreshed in Hhere, Hlater.
  destruct (axios status_2xx (get_sessions net (url s +:+ "/sessions")))
    as [response|error].
  - destruct (existsb (names sessionId) (default [] (resp_data response))) eqn:E.
    + by apply (Hhere true).
    + specialize (Hlater eq_refl).
      by destruct (searchServers net sessionId r) as [[f|] rest'].
  - specialize (Hlater eq_refl).
    by destruct (searchServers net sessionId r) as [[f|] rest'].
Qed.

(** C5 (amended). [findSessionServer] first consults the index and
    returns a known hinted backend with [cached = true].  Otherwise it
    walks the backends in registry order and, for each of them, first
    looks in its in-memory set ([cached = true] on a match) and, failing
    that, probes its [/sessions] at once ([cached = false] on a match),
    refreshing that backend's set, before it moves to the next backend.
    The first backend that matches either way wins and is written to the
    index; if every backend misses both ways the result is absent. *)
Theorem findSessionServer_order :
  ∀ (net : Net) (sessionId : string) (w : World),
    match hinted w sessionId with
    | Some server =>
        findSessionServer net sessionId w
        = (Some {| found_server := server; cached := true;
                   sessionDetails := None |}, w)
    | None =>
        match fst (findSessionServer net sessionId w) with
        | None =>
            Forall (misses net sessionId) (servers w)
            ∧ servers (snd (findSessionServer net sessionId w))
              = map (refreshed net) (servers w)
            ∧ sessionMap (snd (findSessionServer net sessionId w))
              = sessionMap w
        | Some f =>
            ∃ pre server post,
              servers w = pre ++ server :: post
              ∧ Forall (misses net sessionId) pre
              ∧ id (found_server f) = id server
              ∧ cached f = in_memory sessionId server
              ∧ (in_memory sessionId server = false →
                 reported net sessionId server = true
                 ∧ found_server f = refreshed net server)
              ∧ servers (snd (findSessionServer net sessionId w))
                = map (refreshed net) pre ++ found_server f :: post
              ∧ sessionMap (snd (findSessionServer net sessionId w)) !! sessionId
                = Some (id server)
        end
    end.
Proof.
  intros net sessionId w. unfold findSessionServer.
  destruct (hinted w sessionId) as [server|]; [done|].
  pose proof (searchServers_order net sessionId (getAllServers w)) as H.
  unfold getAllServers in *.
  destruct (searchServers net sessionId (servers w)) as [[f|] l]; simpl.
  - destruct H as (pre & server & post & Hl & Hpre & Hc & Hrest).
    exists pre, server, post. split; [done|]. split; [done|].
    destruct (in_memory sessionId server) eqn:Hmem.
    + destruct Hrest as [Hf ->]. rewrite Hf.
      split; [done|]. split; [done|]. split; [done|]. split; [done|].
      apply lookup_insert_eq.
    + destruct Hrest as (Hrep & Hf & ->). rewrite Hf.
      assert (Hid : id (refreshed net server) = id server).
      { unfold refreshed. by destruct (axios _ _). }
      rewrite Hid.
      split; [done|]. split; [done|]. split; [done|]. split; [done|].
      apply lookup_insert_eq.
  - destruct H as [Hall ->]. by repeat split.
Qed.

(** C5 (as stated, refuted). [server-2] holds the session in memory and
    the index does not know it; [server-1], first in the registry, is
    probed before [server-2]'s memory is looked at, reports the session
    and wins with [cached = false], where three stages in sequence answer
    [server-2] with [cached = true]. *)
Lemma probe_precedes_later_memory :
  hinted moved "sess-abc-01" = None
  ∧ (in_memory "sess-abc-01" <$> getServer moved "server-2") = Some true
  ∧ ((λ f, (id (found_server f), cached f))
       <$> fst (findSessionServer one_session "sess-abc-01" moved))
    = Some ("server-1", false)
  ∧ ((λ f, (id (found_server f), cached f))
       <$> fst (findSessionServer_staged one_session "sess-abc-01" moved))
    = Some ("server-2", true).
Proof. vm_compute. repeat split. Qed.

(** ** The retry bound *)

(** Whatever the environment, the loaded [MAX_RETRIES] is not 0; it may
    be negative. *)
Lemma MAX_RETRIES_loaded env :
  MAX_RETRIES (CONFIG env) ≠ 0%Z
  ∧ (∀ n, (n < 0)%Z → env_MAX_RETRIES env = Some n → MAX_RETRIES (CONFIG env) = n).
Proof.
  unfold CONFIG, parsed_or. simpl. split.
  - destruct (env_MAX_RETRIES env) as [n|]; [|done].
    by destruct (Z.eqb_spec n 0).
  - intros n Hn ->. destruct (Z.eqb_spec n 0); [lia | done].
Qed.

Lemma attempts_bound cfg env req server retries w :
  1 ≤ length (attempts (forwardRequest cfg env req server retries w))
  ∧ length (attempts (forwardRequest cfg env req server retries w))
    ≤ Z.to_nat (MAX_RETRIES cfg) - retries + 1.
Proof.
  funelim (forwardRequest cfg env req server retries w); simpl.
  - split; lia.
  - split; lia.
  - destruct H as [Hlo Hhi]. split; lia.
  - split; lia.
Qed.



(** The bound is reached: with the default [MAX_RETRIES = 3], four
    requests leave when every attempt is reset and every re-selection
    succeeds. *)
Example four_attempts :
  length (attempts (forwardRequest default_CONFIG flaky pair_request
                      (specimen "server-1" url1 0 []) 0 w0)) = 4.
Proof. vm_compute. reflexivity. Qed.

(** ** The pair handler *)

(** C3 (amended). When the selection succeeds and the forwarding yields
    an upstream response whose body is truthy and has no truthy [error]
    member, whatever its status and its [ok] member, the gateway sends the
    upstream body unchanged with the upstream status. *)
Theorem handlePair_passes_through :
  ∀ (cfg : Config) (first : Net) (env : nat → Net) (last : Net)
    (req : Request) (w w1 : World) (selectedServer : Server)
    (backendResponse : Response json),
    selectOptimalServer cfg first w = (Ok selectedServer, w1) →
    outcome (forwardRequest cfg env req selectedServer 0 w1)
    = Ok backendResponse →
    truthy (resp_data backendResponse) = true →
    truthy_opt (field (resp_data backendResponse) "error") = false →
    fst (ApiController.handlePair cfg first env last req w)
    = {| sent_status := resp_status backendResponse;
         sent_body := resp_data backendResponse |}.
Proof.
  intros cfg first env last req w w1 selectedServer backendResponse
    Hsel Hfwd Hdata Herr.
  unfold ApiController.handlePair.
  rewrite Hsel, Hfwd, Hdata, Herr. reflexivity.
Qed.

Lemma handlePair_passes_through_witness :
  fst (ApiController.handlePair default_CONFIG
         (pairing 1 both_idle (Answered declined))
         (λ _, pairing 2 both_idle (Answered declined))
         (pairing 3 both_idle (Answered declined)) pair_request w0)
  = {| sent_status := 409;
       sent_body := JObj [("ok", JBool false);
                          ("reason", JStr "already paired")] |}.
Proof.
  destruct (selectOptimalServer default_CONFIG
              (pairing 1 both_idle (Answered declined)) w0)
    as [[selectedServer|e] w1] eqn:Hsel; [| by vm_compute in Hsel].
  apply (handlePair_passes_through default_CONFIG _ _ _ pair_request w0 w1
           selectedServer declined Hsel).
  - vm_compute in Hsel. injection Hsel as <- <-. vm_compute. reflexivity.
  - reflexivity.
  - reflexivity.
Defined.

(** C3 (as stated, refuted). The backend answers 200 with an [error]
    member: the gateway answers 400 with a body of its own making.  The
    backend answers 200 with an empty body: the gateway answers 502. *)
Lemma upstream_error_is_rewritten :
  let net := pairing 1 both_idle (Answered refusal) in
  let sent := fst (ApiController.handlePair default_CONFIG net (λ _, net) net
                     pair_request w0) in
  let net' := pairing 1 both_idle (Answered nothing) in
  let sent' := fst (ApiController.handlePair default_CONFIG net' (λ _, net') net'
                      pair_request w0) in
  (outcome (forwardRequest default_CONFIG (λ _, net) pair_request
              (specimen "server-2" url2 0 []) 0 w0)) = Ok refusal
  ∧ sent_status sent = 400
  ∧ sent_status sent ≠ resp_status refusal
  ∧ sent_body sent
    = JObj [("ok", JBool false); ("timestamp", JNum 1);
            ("error", JStr "Invalid number")]
  ∧ sent_body sent ≠ resp_data refusal
  ∧ (outcome (forwardRequest default_CONFIG (λ _, net') pair_request
                (specimen "server-2" url2 0 []) 0 w0)) = Ok nothing
  ∧ sent_status sent' = 502
  ∧ sent_body sent' ≠ resp_data nothing.
Proof.
  vm_compute. repeat split; discriminate.
Qed.

(** ** Footprint of [updateServerStatus] and [getServerSessionCount] *)

Lemma cacheKey_inj a b : cacheKey a = cacheKey b → a = b.
Proof. unfold cacheKey. apply (inj (String.append "sessions_")). Qed.

Lemma getServer_with_store c w serverId :
  getServer (with_store c w) serverId = getServer w serverId.
Proof. done. Qed.

Lemma getServer_updateServerStatus_ne w serverId other st data t :
  other ≠ serverId →
  getServer (updateServerStatus serverId st data t w) other = getServer w other.
Proof.
  intros Hne. unfold updateServerStatus.
  destruct (getServer w serverId) as [server|] eqn:Hs; [|done].
  unfold getServer. simpl servers.
  apply find_store_server_ne; [|done].
  rewrite id_assign. simpl. by apply getServer_Some in Hs as [? _].
Qed.

Lemma map_id_updateServerStatus w serverId st data t :
  map id (servers (updateServerStatus serverId st data t w)) = map id (servers w).
Proof.
  unfold updateServerStatus.
  destruct (getServer w serverId) as [server|] eqn:Hs; [|done].
  simpl servers. apply map_id_store_server.
  rewrite id_assign. simpl. by apply getServer_Some in Hs as [? _].
Qed.

Lemma roundRobinIndex_updateServerStatus w serverId st data t :
  roundRobinIndex (updateServerStatus serverId st data t w) = roundRobinIndex w.
Proof. unfold updateServerStatus. by destruct (getServer w serverId). Qed.

Lemma store_updateServerStatus w serverId st data t k :
  store (updateServerStatus serverId st data t w) !! k = store w !! k
  ∨ (k = cacheKey serverId
     ∧ store (updateServerStatus serverId st data t w) !! k = None).
Proof.
  unfold updateServerStatus.
  destruct (getServer w serverId) as [server|]; [|by left].
  simpl. unfold cache_delete.
  destruct (decide (k = cacheKey serverId)) as [->|Hne].
  - right. split; [done | apply lookup_delete_eq].
  - left. by apply lookup_delete_ne.
Qed.

Lemma store_updateServerStatus_known w serverId st data t server :
  getServer w serverId = Some server →
  store (updateServerStatus serverId st data t w)
  = delete (cacheKey serverId) (store w).
Proof. intros Hs. unfold updateServerStatus. by rewrite Hs. Qed.

(** Reading back the object that was just written. *)
Lemma getServer_written x w serverId server s' :
  servers x = store_server serverId s' (servers w) →
  getServer w serverId = Some server →
  id s' = serverId →
  getServer x serverId = Some s'.
Proof.
  intros Hx Hs Hid. unfold getServer. rewrite Hx.
  eapply getServer_store_server; [exact Hs | exact Hid | reflexivity].
Qed.

Lemma getServerSessionCount_footprint cfg net serverId w :
  let r := getServerSessionCount cfg net serverId w in
  roundRobinIndex (snd r) = roundRobinIndex w
  ∧ (∀ k, store (snd r) !! k = store w !! k
          ∨ (k = cacheKey serverId ∧ store (snd r) !! k = None))
  ∧ (∀ other, other ≠ serverId → getServer (snd r) other = getServer w other)
  ∧ map id (servers (snd r)) = map id (servers w)
  ∧ (∀ server,
       getServer w serverId = Some server →
       ∃ server',
         getServer (snd r) serverId = Some server'
         ∧ url server' = url server
         ∧ (is_Ok (fst r) →
            status server' = status server
            ∧ (is_active server = true → is_active server' = true))).
Proof.
  unfold getServerSessionCount, cache_get.
  assert (Hself : ∀ server, getServer w serverId = Some server →
            ∃ server', getServer w serverId = Some server'
              ∧ url server' = url server
              ∧ (True → status server' = status server
                 ∧ (is_active server = true → is_active server' = true)))
    by (intros server Hs; exists server; by rewrite Hs).
  assert (Hdel : ∀ k, delete (cacheKey serverId) (store w) !! k = store w !! k
                      ∨ (k = cacheKey serverId
                         ∧ delete (cacheKey serverId) (store w) !! k = None)).
  { intros k. destruct (decide (k = cacheKey serverId)) as [->|Hne].
    - right. split; [done | apply lookup_delete_eq].
    - left. by apply lookup_delete_ne. }
  set (cachedItem := store w !! cacheKey serverId).
  assert (Hcases :
    (∃ item, cachedItem = Some item ∧ (expiry item <? now net)%Z = false)
    ∨ (∃ store1, (store1 = store w ∨ store1 = delete (cacheKey serverId) (store w))
                 ∧ (match cachedItem with
                    | Some item =>
                        if (expiry item <? now net)%Z
                        then (None, delete (cacheKey serverId) (store w))
                        else (Some (value item), store w)
                    | None => (None, store w)
                    end) = (None, store1))).
  { destruct cachedItem as [item|]; [|right; eauto].
    destruct (expiry item <? now net)%Z eqn:E; [right; eauto | left; eauto]. }
  destruct Hcases as [(item & -> & ->) | (store1 & Hstore1 & ->)].
  { simpl. repeat split; auto. }
  cbv zeta. rewrite getServer_with_store.
  assert (Hst1 : ∀ k, store1 !! k = store w !! k
                      ∨ (k = cacheKey serverId ∧ store1 !! k = None))
    by (destruct Hstore1 as [-> | ->]; [by left | exact Hdel]).
  destruct (getServer w serverId) as [server|] eqn:Hs.
  2: { simpl. repeat split; auto. intros server ?. done. }
  destruct (getServer_Some _ _ _ Hs) as [Hid _].
  destruct (axios status_2xx _) as [response|error].
  - set (l := session_ids _). set (m := index_sessions _ _ _).
    set (c := cache_set _ _ _ _ _). set (data := {| p_status := None |}).
    cbn [fst snd].
    match goal with |- context [updateServerStatus _ _ _ _ ?x] => set (w4 := x) end.
    assert (Hbefore : getServer w4 serverId = Some (with_sessions l server))
      by (by apply (getServer_written w4 w serverId server)).
    split; [by rewrite roundRobinIndex_updateServerStatus|].
    split.
    { intros k.
      rewrite (store_updateServerStatus_known w4 serverId _ data _ _ Hbefore).
      destruct (decide (k = cacheKey serverId)) as [->|Hne].
      - right. split; [done | apply lookup_delete_eq].
      - rewrite lookup_delete_ne by done. simpl. unfold c, cache_set.
        rewrite lookup_insert_ne by done.
        destruct (Hst1 k) as [?|[? _]]; [by left | done]. }
    split.
    { intros other Hne. rewrite getServer_updateServerStatus_ne by done.
      unfold getServer. simpl servers.
      by apply find_store_server_ne. }
    split.
    { rewrite map_id_updateServerStatus. simpl servers.
      by apply map_id_store_server. }
    intros server0 [= <-].
    erewrite getServer_updateServerStatus by exact Hbefore.
    eexists. split; [reflexivity|]. simpl.
    split; [done|]. intros _. split; [done|].
    unfold is_active. simpl. intros H. apply andb_true_iff in H as [H _].
    by rewrite H.
  - destruct (refused_or_timed_out _); cbn [fst snd].
    + split; [by rewrite roundRobinIndex_updateServerStatus|].
      split.
      { intros k.
        erewrite store_updateServerStatus_known
          by (rewrite getServer_with_store; exact Hs).
        destruct (decide (k = cacheKey serverId)) as [->|Hne].
        - right. split; [done | apply lookup_delete_eq].
        - rewrite lookup_delete_ne by done. simpl.
          destruct (Hst1 k) as [?|[? _]]; [by left | done]. }
      split.
      { intros other Hne. by rewrite getServer_updateServerStatus_ne. }
      split; [by rewrite map_id_updateServerStatus|].
      intros server0 [= <-].
      erewrite getServer_updateServerStatus
        by (rewrite getServer_with_store; exact Hs).
      eexists. split; [reflexivity|]. simpl. split; [done|]. intros [].
    + simpl. repeat split; auto.
      intros server0 [= <-]. exists server. rewrite getServer_with_store.
      repeat split; done || intros [].
Qed.

(** The result of [getServerSessionCount] depends on the state only
    through the server's cache entry and its URL. *)
Lemma getServerSessionCount_view cfg net serverId w w' :
  store w !! cacheKey serverId = store w' !! cacheKey serverId →
  (url <$> getServer w serverId) = (url <$> getServer w' serverId) →
  fst (getServerSessionCount cfg net serverId w)
  = fst (getServerSessionCount cfg net serverId w').
Proof.
  intros Hstore Hurl. unfold getServerSessionCount, cache_get.
  rewrite <- Hstore.
  destruct (store w !! cacheKey serverId) as [item|];
    [destruct (expiry item <? now net)%Z; [|done]|].
  all: cbv zeta; rewrite !getServer_with_store.
  all: destruct (getServer w serverId) as [server|],
         (getServer w' serverId) as [server'|]; try done.
  all: simpl in Hurl; injection Hurl as ->.
  all: by destruct (axios status_2xx _).
Qed.

Lemma counted_frame cfg net serverId w s :
  id s ≠ serverId →
  counted cfg net (snd (getServerSessionCount cfg net serverId w)) s
  = counted cfg net w s.
Proof.
  intros Hne. unfold counted.
  destruct (getServerSessionCount_footprint cfg net serverId w)
    as (_ & Hstore & Hother & _).
  erewrite getServerSessionCount_view; [reflexivity| |].
  - destruct (Hstore (cacheKey (id s))) as [->|[Heq _]]; [done|].
    by apply cacheKey_inj in Heq.
  - by rewrite Hother.
Qed.

Lemma countSessions_counts cfg net l w :
  NoDup (map id l) →
  fst (countSessions cfg net l w) = map (λ s, (s, counted cfg net w s)) l.
Proof.
  revert w. induction l as [|s r IH]; intros w Hnd; simpl; [done|].
  apply NoDup_cons in Hnd as [Hnotin Hnd].
  pose proof (λ s', counted_frame cfg net (id s) w s') as Hframe.
  unfold counted at 1.
  destruct (getServerSessionCount cfg net (id s) w) as [res w1].
  specialize (IH w1 Hnd).
  destruct (countSessions cfg net r w1) as [cs w2]. simpl in *.
  f_equal. rewrite IH. apply map_ext_in. intros s' Hin. f_equal.
  apply Hframe. intros Heq. apply Hnotin. rewrite <- Heq.
  apply list_elem_of_In, in_map, Hin.
Qed.

Lemma countSessions_footprint cfg net l w :
  NoDup (map id l) →
  let r := countSessions cfg net l w in
  roundRobinIndex (snd r) = roundRobinIndex w
  ∧ (∀ k, store (snd r) !! k = store w !! k ∨ store (snd r) !! k = None)
  ∧ (∀ other, other ∉ map id l → getServer (snd r) other = getServer w other)
  ∧ map id (servers (snd r)) = map id (servers w)
  ∧ (∀ s server,
       s ∈ l → getServer w (id s) = Some server →
       ∃ server',
         getServer (snd r) (id s) = Some server'
         ∧ url server' = url server
         ∧ (counted cfg net w s ≠ Infinity →
            status server' = status server
            ∧ (is_active server = true → is_active server' = true))).
Proof.
  revert w. induction l as [|s r IH]; intros w Hnd; simpl.
  { repeat split; auto. intros s server Hin. by apply elem_of_nil in Hin. }
  apply NoDup_cons in Hnd as [Hnotin Hnd].
  destruct (getServerSessionCount_footprint cfg net (id s) w)
    as (Hrr1 & Hst1 & Hother1 & Hids1 & Hself1).
  pose proof (λ s', counted_frame cfg net (id s) w s') as Hframe.
  assert (Hhead : counted cfg net w s ≠ Infinity →
                  is_Ok (fst (getServerSessionCount cfg net (id s) w))).
  { unfold counted. by destruct (fst _). }
  destruct (getServerSessionCount cfg net (id s) w) as [res w1].
  destruct (IH w1 Hnd) as (Hrr2 & Hst2 & Hother2 & Hids2 & Hself2).
  destruct (countSessions cfg net r w1) as [cs w2]. simpl in *.
  split; [congruence|]. split.
  { intros k. destruct (Hst2 k) as [->|?]; [|by right].
    destruct (Hst1 k) as [?|[_ ?]]; auto. }
  split.
  { intros other Hnotin'. apply not_elem_of_cons in Hnotin' as [Hne Hnotin'].
    rewrite Hother2 by done. by apply Hother1. }
  split; [congruence|].
  intros s' server Hin Hs.
  apply elem_of_cons in Hin as [->|Hin].
  - destruct (Hself1 server Hs) as (server1 & Hs1 & Hurl1 & Hok1).
    exists server1. rewrite Hother2 by done.
    split; [done|]. split; [done|]. intros Hfin. by apply Hok1, Hhead.
  - assert (Hne : id s' ≠ id s).
    { intros Heq. apply Hnotin. rewrite <- Heq.
      apply list_elem_of_fmap. eauto. }
    rewrite <- (Hother1 (id s') Hne) in Hs.
    destruct (Hself2 s' server Hin Hs) as (server2 & Hs2 & Hurl2 & Hok2).
    exists server2. split; [done|]. split; [done|].
    intros Hfin. apply Hok2. by rewrite Hframe.
Qed.

(** ** Selection *)

Lemma find_NoDup l s :
  NoDup (map id l) → In s l → List.find (has_id (id s)) l = Some s.
Proof.
  induction l as [|x r IH]; simpl; [done|].
  intros Hnd Hin. apply NoDup_cons in Hnd as [Hnotin Hnd].
  destruct Hin as [->|Hin].
  - by rewrite (proj2 (has_id_true (id s) s)).
  - rewrite (proj2 (has_id_false (id s) x)); [by apply IH|].
    intros Heq. apply Hnotin. rewrite Heq.
    apply list_elem_of_In, in_map, Hin.
Qed.

Lemma NoDup_map_id_filter (f : Server → bool) l :
  NoDup (map id l) → NoDup (map id (List.filter f l)).
Proof.
  induction l as [|x r IH]; simpl; [done|].
  intros Hnd. apply NoDup_cons in Hnd as [Hnotin Hnd].
  destruct (f x); simpl; [|by apply IH].
  apply NoDup_cons. split; [|by apply IH].
  intros Hin. apply Hnotin.
  apply list_elem_of_In, in_map_iff in Hin as (y & Hy & Hin).
  apply filter_In in Hin as [Hin _].
  rewrite <- Hy. apply list_elem_of_In, in_map, Hin.
Qed.

Lemma getServer_active w s :
  NoDup (map id (servers w)) → In s (getActiveServers w) →
  getServer w (id s) = Some s ∧ status s = HEALTHY ∧ is_active s = true.
Proof.
  intros Hnd Hin. apply filter_In in Hin as [Hin Hact].
  split; [by apply find_NoDup|]. split; [|done].
  unfold is_active in Hact. apply andb_true_iff in Hact as [Hst _].
  by apply bool_decide_eq_true in Hst.
Qed.

Lemma count_eqb_refl c : count_eqb c c = true.
Proof. destruct c; simpl; [apply Nat.eqb_refl | done]. Qed.

Lemma count_eqb_eq a b : count_eqb a b = true → a = b.
Proof.
  destruct a, b; simpl; try done. intros H. by apply Nat.eqb_eq in H as ->.
Qed.

Lemma Math_min_attained (cs : list Count) : cs ≠ [] → In (Math_min cs) cs.
Proof.
  induction cs as [|a r IH]; [done|]. intros _. unfold Math_min. simpl.
  destruct r as [|b r'].
  - left. by destruct a.
  - specialize (IH ltac:(done)). unfold Math_min in IH.
    set (m := foldr count_min Infinity (b :: r')) in *.
    destruct a as [x|], m as [y|]; simpl; auto.
    destruct (Nat.min_spec x y) as [[_ ->]|[_ ->]]; auto.
Qed.

Lemma filter_nonempty {A : Type} (f : A → bool) (l : list A) x :
  In x l → f x = true → (length (List.filter f l) =? 0) = false.
Proof.
  intros Hin Hf. apply Nat.eqb_neq. intros Hlen.
  apply length_zero_iff_nil in Hlen.
  assert (In x (List.filter f l)) by (by apply filter_In).
  rewrite Hlen in *. done.
Qed.

(** What a successful selection returns: the current content of an active
    server whose count, taken in the state before the call, is below the
    limit. *)
Lemma selectOptimalServer_Ok cfg net w s w' :
  NoDup (map id (servers w)) →
  selectOptimalServer cfg net w = (Ok s, w') →
  ∃ a n,
    In a (getActiveServers w)
    ∧ counted cfg net w a = Finite n
    ∧ (Z.of_nat n < MAX_SESSIONS_PER_SERVER cfg)%Z
    ∧ s = deref w' a
    ∧ servers w' = servers (snd (countSessions cfg net (getActiveServers w) w)).
Proof.
  intros Hnd. unfold selectOptimalServer.
  destruct (length (getActiveServers w) =? 0).
  { repeat (match goal with |- context [if ?b then _ else _] => destruct b end);
      discriminate. }
  pose proof (countSessions_counts cfg net (getActiveServers w) w
                (NoDup_map_id_filter _ _ Hnd)) as Hcounts.
  destruct (countSessions cfg net (getActiveServers w) w) as [sws w1].
  simpl in Hcounts. subst sws.
  set (counts := map _ (getActiveServers w)).
  set (available := List.filter _ counts).
  destruct (length available =? 0); [discriminate|].
  set (least := List.filter _ available).
  assert (Hleast : ∀ p, In p least →
            ∃ a n, In a (getActiveServers w) ∧ counted cfg net w a = Finite n
                   ∧ (Z.of_nat n < MAX_SESSIONS_PER_SERVER cfg)%Z ∧ fst p = a).
  { intros p Hp. apply filter_In in Hp as [Hp _].
    apply filter_In in Hp as [Hp Hlt].
    apply in_map_iff in Hp as (a & <- & Ha). simpl in *.
    destruct (counted cfg net w a) as [n|] eqn:Hc; [|done].
    exists a, n. repeat split; try done. by apply Z.ltb_lt. }
  destruct (1 <? length least).
  - destruct (least !! _) as [p|] eqn:Hp; [|discriminate].
    intros [= <- <-].
    apply list_elem_of_lookup_2, list_elem_of_In, Hleast in Hp
      as (a & n & Ha & Hc & Hn & ->).
    exists a, n. by repeat split.
  - destruct (least !! 0) as [p|] eqn:Hp; [|discriminate].
    intros [= <- <-].
    apply list_elem_of_lookup_2, list_elem_of_In, Hleast in Hp
      as (a & n & Ha & Hc & Hn & ->).
    exists a, n. by repeat split.
Qed.

(** The selection succeeds as soon as one active server has a count below
    the limit. *)
Lemma selectOptimalServer_succeeds cfg net w a n :
  NoDup (map id (servers w)) →
  In a (getActiveServers w) →
  counted cfg net w a = Finite n →
  (Z.of_nat n < MAX_SESSIONS_PER_SERVER cfg)%Z →
  ∃ s w', selectOptimalServer cfg net w = (Ok s, w').
Proof.
  intros Hnd Ha Hc Hn. unfold selectOptimalServer.
  assert (Hlen : (length (getActiveServers w) =? 0) = false).
  { apply Nat.eqb_neq. intros H. apply length_zero_iff_nil in H.
    by rewrite H in Ha. }
  rewrite Hlen.
  pose proof (countSessions_counts cfg net (getActiveServers w) w
                (NoDup_map_id_filter _ _ Hnd)) as Hcounts.
  destruct (countSessions cfg net (getActiveServers w) w) as [sws w1].
  simpl in Hcounts. subst sws.
  set (counts := map _ (getActiveServers w)).
  set (available := List.filter _ counts).
  assert (Havail : In (a, Finite n) available).
  { apply filter_In. split.
    - apply in_map_iff. exists a. by rewrite Hc.
    - simpl. by apply Z.ltb_lt. }
  assert (Hsome : (length available =? 0) = false).
  { apply filter_In in Havail as [Hin Hlt].
    by apply (filter_nonempty _ counts (a, Finite n)). }
  rewrite Hsome.
  set (least := List.filter _ available).
  assert (Hne : least ≠ []).
  { assert (Hmin : In (Math_min (map snd available)) (map snd available)).
    { apply Math_min_attained. intros H. apply map_eq_nil in H.
      by rewrite H in Havail. }
    apply in_map_iff in Hmin as (p & Hp & Hin).
    assert (In p least).
    { apply filter_In. split; [done|]. rewrite Hp. apply count_eqb_refl. }
    intros H'. by rewrite H' in *. }
  destruct (1 <? length least) eqn:Hmany.
  - destruct (lookup_lt_is_Some_2 least
                ((roundRobinIndex w1 + 1) `mod` length least)) as [p Hp].
    { apply Nat.mod_upper_bound. destruct least; [done | simpl; lia]. }
    rewrite Hp. eauto.
  - destruct least as [|p rest]; [done|]. simpl. eauto.
Qed.

(** C1. In a registry (server ids pairwise distinct), whatever the
    network answers: a server that [selectOptimalServer] returns is
    HEALTHY, both in the state before the call and when it is returned,
    never FULL or UNHEALTHY, and the count [getServerSessionCount] gives
    for it is below [MAX_SESSIONS_PER_SERVER]; and when [isActive] agrees
    with the status and some backend is HEALTHY with such a count, the
    selection does return a server, HEALTHY and with such a count. *)
Theorem selectOptimalServer_prefers_healthy :
  ∀ (cfg : Config) (net : Net) (w : World),
    NoDup (map id (servers w)) →
    (∀ s w',
       selectOptimalServer cfg net w = (Ok s, w') →
       status s = HEALTHY
       ∧ getServer w' (id s) = Some s
       ∧ ∃ s0 n,
           getServer w (id s) = Some s0
           ∧ status s0 = HEALTHY
           ∧ fst (getServerSessionCount cfg net (id s) w) = Ok n
           ∧ (Z.of_nat n < MAX_SESSIONS_PER_SERVER cfg)%Z)
    ∧ (registry_inv w →
       (∃ s0 n,
          In s0 (servers w)
          ∧ status s0 = HEALTHY
          ∧ fst (getServerSessionCount cfg net (id s0) w) = Ok n
          ∧ (Z.of_nat n < MAX_SESSIONS_PER_SERVER cfg)%Z) →
       ∃ s w' m,
         selectOptimalServer cfg net w = (Ok s, w')
         ∧ status s = HEALTHY
         ∧ fst (getServerSessionCount cfg net (id s) w) = Ok m
         ∧ (Z.of_nat m < MAX_SESSIONS_PER_SERVER cfg)%Z).
Proof.
  intros cfg net w Hnd.
  assert (Hreturned : ∀ s w',
    selectOptimalServer cfg net w = (Ok s, w') →
    status s = HEALTHY
    ∧ getServer w' (id s) = Some s
    ∧ ∃ s0 n,
        getServer w (id s) = Some s0
        ∧ status s0 = HEALTHY
        ∧ fst (getServerSessionCount cfg net (id s) w) = Ok n
        ∧ (Z.of_nat n < MAX_SESSIONS_PER_SERVER cfg)%Z); [|split; [exact Hreturned|]].
  - intros s w' Hsel.
    destruct (selectOptimalServer_Ok cfg net w s w' Hnd Hsel)
      as (a & n & Ha & Hc & Hn & -> & Hservers).
    destruct (getServer_active w a Hnd Ha) as (Hget & Hst & Hact).
    destruct (countSessions_footprint cfg net (getActiveServers w) w
                (NoDup_map_id_filter _ _ Hnd))
      as (_ & _ & _ & _ & Hself).
    destruct (Hself a a (proj2 (list_elem_of_In _ _) Ha) Hget)
      as (a' & Hget' & _ & Hok).
    destruct Hok as [Hst' _]; [by rewrite Hc|].
    assert (Hw' : getServer w' (id a) = Some a').
    { unfold getServer in *. by rewrite Hservers. }
    assert (Hid : id a' = id a) by (by apply getServer_Some in Hw' as [? _]).
    unfold deref. rewrite Hw'. simpl. rewrite Hid.
    split; [congruence|]. split; [done|].
    exists a, n. repeat split; try done.
    unfold counted in Hc. by destruct (fst _) as [m|]; simplify_eq.
  - intros Hinv (s0 & n & Hin & Hst & Hc & Hn).
    destruct (selectOptimalServer_succeeds cfg net w s0 n Hnd)
      as (s & w' & Hsel); [| |done|].
    + apply filter_In. split; [done|].
      unfold registry_inv in Hinv. rewrite List.Forall_forall in Hinv.
      specialize (Hinv s0 Hin). unfold consistent in Hinv.
      unfold is_active. rewrite Hinv, Hst. done.
    + unfold counted. by rewrite Hc.
    + destruct (Hreturned s w' Hsel) as (Hs & _ & _ & m & _ & _ & Hm & Hlt).
      by exists s, w', m.
Qed.

(** ** Round robin among tied servers *)

Lemma counted_steady cfg net w c s :
  getServer w (id s) = Some s →
  (∀ item, store w !! cacheKey (id s) = Some item → value item = c) →
  (∃ r, get_sessions net (url s +:+ "/sessions") = Answered r
        ∧ status_2xx (resp_status r) = true
        ∧ length (default [] (resp_data r)) = c) →
  counted cfg net w s = Finite c.
Proof.
  intros Hs Hcache (r & Hreply & H2xx & Hlen).
  unfold counted, getServerSessionCount, cache_get.
  destruct (store w !! cacheKey (id s)) as [item|] eqn:Hitem;
    [destruct (expiry item <? now net)%Z|].
  2: { simpl. by rewrite (Hcache item). }
  all: cbv zeta; rewrite getServer_with_store, Hs, Hreply,
         (axios_2xx_Answered r H2xx); simpl; by rewrite Hlen.
Qed.

Lemma filter_all {A : Type} (f : A → bool) (l : list A) :
  (∀ x, In x l → f x = true) → List.filter f l = l.
Proof.
  induction l as [|x r IH]; simpl; [done|]. intros H.
  rewrite (H x) by auto. rewrite IH; auto.
Qed.

Lemma Math_min_constant (cs : list Count) c :
  cs ≠ [] → (∀ x, In x cs → x = Finite c) → Math_min cs = Finite c.
Proof. intros Hne Hall. apply Hall. by apply Math_min_attained. Qed.

Lemma id_deref w a : id (deref w a) = id a.
Proof.
  unfold deref. destruct (getServer w (id a)) as [s|] eqn:Hs; [|done].
  simpl. by apply getServer_Some in Hs as [? _].
Qed.

Lemma same_id_same_server l a x :
  NoDup (map id l) → In a l → In x l → id a = id x → a = x.
Proof.
  intros Hnd Ha Hx Heq.
  pose proof (find_NoDup l a Hnd Ha) as H1.
  pose proof (find_NoDup l x Hnd Hx) as H2.
  rewrite Heq in H1. congruence.
Qed.

(** Two registries with the same ids, whose servers agree on URL and
    activity, have the same active servers. *)
Lemma active_servers_related l l' :
  NoDup (map id l) → map id l' = map id l →
  (∀ x, In x l →
        ∃ x', List.find (has_id (id x)) l' = Some x'
              ∧ url x' = url x ∧ is_active x' = is_active x) →
  map id (List.filter is_active l') = map id (List.filter is_active l)
  ∧ map url (List.filter is_active l') = map url (List.filter is_active l).
Proof.
  revert l'. induction l as [|x r IH]; intros l' Hnd Hids Hrel.
  { destruct l'; [done | discriminate]. }
  destruct l' as [|x' r']; [discriminate|].
  simpl in Hids. injection Hids as Hid Hids.
  apply NoDup_cons in Hnd as [Hnotin Hnd].
  destruct (Hrel x (or_introl eq_refl)) as (x'' & Hfind & Hurl & Hact).
  simpl in Hfind. rewrite (proj2 (has_id_true (id x) x') Hid) in Hfind.
  injection Hfind as <-.
  destruct (IH r' Hnd Hids) as [IHid IHurl].
  { intros y Hy. destruct (Hrel y (or_intror Hy)) as (y' & Hfind & Hy').
    exists y'. split; [|done]. simpl in Hfind.
    rewrite (proj2 (has_id_false (id y) x')) in Hfind; [done|].
    rewrite Hid. intros Heq. apply Hnotin. rewrite Heq.
    apply list_elem_of_In, in_map, Hy. }
  simpl. rewrite Hact. destruct (is_active x); simpl; [|done].
  by rewrite Hid, Hurl, IHid, IHurl.
Qed.

Lemma selectOptimalServer_steady cfg net w c :
  NoDup (map id (servers w)) →
  (Z.of_nat c < MAX_SESSIONS_PER_SERVER cfg)%Z →
  getActiveServers w ≠ [] →
  caches_count c (map id (getActiveServers w)) w →
  replies_count c (map url (getActiveServers w)) net →
  ∃ s w',
    selectOptimalServer cfg net w = (Ok s, w')
    ∧ nth (turn (length (getActiveServers w)) (roundRobinIndex w) 1)
        (map id (getActiveServers w)) "" = id s
    ∧ roundRobinIndex w'
      = (if 1 <? length (getActiveServers w)
         then (roundRobinIndex w + 1) `mod` length (getActiveServers w)
         else roundRobinIndex w)
    ∧ NoDup (map id (servers w'))
    ∧ map id (getActiveServers w') = map id (getActiveServers w)
    ∧ map url (getActiveServers w') = map url (getActiveServers w)
    ∧ caches_count c (map id (getActiveServers w)) w'.
Proof.
  intros Hnd Hc Hne Hcache Hnet.
  set (act := getActiveServers w) in *.
  assert (Hndact : NoDup (map id act)) by (by apply NoDup_map_id_filter).
  assert (Hcounted : ∀ s, In s act → counted cfg net w s = Finite c).
  { intros s Hs. destruct (getServer_active w s Hnd Hs) as (Hget & _ & _).
    apply counted_steady; [done| |].
    - intros item. apply Hcache. by apply in_map.
    - apply Hnet. by apply in_map. }
  pose proof (countSessions_footprint cfg net act w Hndact) as Hfoot.
  pose proof (countSessions_counts cfg net act w Hndact) as Hcounts.
  unfold selectOptimalServer. fold act.
  assert (Hlen : (length act =? 0) = false).
  { apply Nat.eqb_neq. intros H. by apply length_zero_iff_nil in H. }
  rewrite Hlen.
  destruct (countSessions cfg net act w) as [sws w1].
  simpl in Hfoot, Hcounts. subst sws.
  destruct Hfoot as (Hrr & Hstore & Hother & Hids & Hself).
  assert (Hpost :
    NoDup (map id (servers w1))
    ∧ map id (getActiveServers w1) = map id act
    ∧ map url (getActiveServers w1) = map url act
    ∧ caches_count c (map id act) w1).
  { split; [by rewrite Hids|].
    apply and_assoc. split.
    - apply active_servers_related; [done | done |].
      intros x Hx. pose proof (find_NoDup _ x Hnd Hx) as Hget.
      destruct (is_active x) eqn:Hact.
      + assert (Hin : In x act) by (by apply filter_In).
        destruct (Hself x x (proj2 (list_elem_of_In _ _) Hin) Hget)
          as (x' & Hget' & Hurl & Hok).
        exists x'. split; [done|]. split; [done|].
        apply Hok; [|done]. by rewrite Hcounted.
      + exists x. split; [|done].
        change (getServer w1 (id x) = Some x). rewrite Hother; [done|].
        intros Hin. apply list_elem_of_In, in_map_iff in Hin as (a & Heq & Ha).
        assert (a = x).
        { apply (same_id_same_server (servers w)); try done.
          by apply filter_In in Ha as [? _]. }
        subst a. apply filter_In in Ha as [_ Ha]. congruence.
    - intros sid item Hin Hitem.
      destruct (Hstore (cacheKey sid)) as [Heq|Heq]; rewrite Heq in Hitem;
        [by apply (Hcache sid) | done]. }
  assert (Hconst : map (λ s, (s, counted cfg net w s)) act
                   = map (λ s, (s, Finite c)) act).
  { apply map_ext_in. intros s Hs. by rewrite Hcounted. }
  rewrite Hconst. clear Hconst.
  set (counts := map (λ s, (s, Finite c)) act).
  assert (Hall : ∀ p, In p counts → snd p = Finite c).
  { intros p Hp. by apply in_map_iff in Hp as (a & <- & _). }
  assert (Havail : List.filter
                     (λ p, count_ltb (snd p) (MAX_SESSIONS_PER_SERVER cfg))
                     counts = counts).
  { apply filter_all. intros p Hp. rewrite (Hall p Hp). simpl.
    by apply Z.ltb_lt. }
  rewrite Havail.
  assert (Hclen : length counts = length act) by apply length_map.
  rewrite Hclen, Hlen.
  assert (Hmin : Math_min (map snd counts) = Finite c).
  { apply Math_min_constant.
    - intros H. apply map_eq_nil, map_eq_nil in H. done.
    - intros x Hx. apply in_map_iff in Hx as (p & <- & Hp). by apply Hall. }
  rewrite Hmin.
  assert (Hleast : List.filter (λ p, count_eqb (snd p) (Finite c)) counts
                   = counts).
  { apply filter_all. intros p Hp. rewrite (Hall p Hp). apply count_eqb_refl. }
  rewrite Hleast, Hclen.
  assert (Hpick : ∀ i, i < length act →
            ∃ a, counts !! i = Some (a, Finite c)
                 ∧ nth i (map id act) "" = id a).
  { intros i Hi.
    destruct (lookup_lt_is_Some_2 act i Hi) as [a Ha].
    exists a. split.
    - unfold counts. change (map ?f ?l) with (f <$> l).
      by rewrite list_lookup_fmap, Ha.
    - rewrite nth_lookup. change (map ?f ?l) with (f <$> l).
      by rewrite list_lookup_fmap, Ha. }
  assert (Hpos : 0 < length act).
  { destruct act; [done | simpl; lia]. }
  destruct Hpost as (Hnd1 & Hid1 & Hurl1 & Hcache1).
  unfold turn. destruct (1 <? length act) eqn:Hmany.
  - destruct (Hpick ((roundRobinIndex w1 + 1) `mod` length act))
      as (a & Ha & Hnth); [by apply Nat.mod_upper_bound; lia|].
    rewrite Ha. eexists _, _. split; [reflexivity|].
    rewrite id_deref. simpl. rewrite <- Hrr.
    by repeat split.
  - destruct (Hpick 0 Hpos) as (a & Ha & Hnth).
    rewrite Ha. eexists _, _. split; [reflexivity|].
    rewrite id_deref. simpl.
    by repeat split.
Qed.

Lemma getActiveServers_healthy w :
  registry_inv w → getActiveServers w = healthy w.
Proof.
  intros Hinv. unfold getActiveServers, healthy, getAllServers.
  apply filter_ext_in. intros s Hs.
  unfold registry_inv in Hinv. rewrite List.Forall_forall in Hinv.
  specialize (Hinv s Hs). unfold consistent in Hinv.
  unfold is_active. rewrite Hinv. apply andb_diag.
Qed.

Lemma turn_next K r j :
  turn K (if 1 <? K then (r + 1) `mod` K else r) j = turn K r (S j).
Proof.
  unfold turn. destruct (1 <? K); [|done].
  rewrite Nat.Div0.add_mod_idemp_l. f_equal. lia.
Qed.

(** Any number of consecutive selections among tied servers: the [j]-th
    one picks the server at position [turn K r j]. *)
Lemma selections_steady cfg c ids urls nets :
  ∀ w,
    NoDup (map id (servers w)) →
    (Z.of_nat c < MAX_SESSIONS_PER_SERVER cfg)%Z →
    ids ≠ [] →
    map id (getActiveServers w) = ids →
    map url (getActiveServers w) = urls →
    caches_count c ids w →
    Forall (replies_count c urls) nets →
    ∃ picked,
      fst (selections cfg nets w) = map Ok picked
      ∧ map id picked
        = map (λ j, nth (turn (length ids) (roundRobinIndex w) j) ids "")
            (seq 1 (length nets)).
Proof.
  induction nets as [|net rest IH]; intros w Hnd Hc Hne Hids Hurls Hcache Hnets.
  { by exists []. }
  apply Forall_cons in Hnets as [Hnet Hnets].
  assert (Hact : getActiveServers w ≠ []).
  { intros H. rewrite H in Hids. by subst ids. }
  assert (Hlen : length (getActiveServers w) = length ids)
    by (by rewrite <- Hids, length_map).
  destruct (selectOptimalServer_steady cfg net w c Hnd Hc Hact)
    as (s & w' & Hsel & Hpick & Hrr & Hnd' & Hids' & Hurls' & Hcache');
    [by rewrite Hids | by rewrite Hurls |].
  rewrite Hids, Hlen in *.
  destruct (IH w' Hnd' Hc Hne) as (picked & Hrest & Hturns);
    [congruence | congruence | done | done |].
  exists (s :: picked). simpl. rewrite Hsel.
  destruct (selections cfg rest w') as [rs w2]. simpl in *.
  split; [by rewrite Hrest|].
  rewrite Hturns, <- Hpick. f_equal.
  rewrite <- (seq_shift (length rest) 1), map_map. apply map_ext. intros j.
  by rewrite Hrr, turn_next.
Qed.

Lemma map_nth_seq {A : Type} (l : list A) d :
  map (λ i, nth i l d) (seq 0 (length l)) = l.
Proof.
  induction l as [|x r IH]; simpl; [done|].
  f_equal. rewrite <- seq_shift, map_map. exact IH.
Qed.

Lemma mod_shift_injective K r j j' :
  j ≤ K → j' ≤ K → 1 ≤ j → 1 ≤ j' →
  (r + j) `mod` K = (r + j') `mod` K → j = j'.
Proof.
  intros Hj Hj' H1 H1' Heq.
  destruct (decide (K = 0)) as [->|HK]; [lia|].
  pose proof (Nat.div_mod_eq (r + j) K) as E1.
  pose proof (Nat.div_mod_eq (r + j') K) as E2.
  pose proof (Nat.mod_upper_bound (r + j) K HK) as B1.
  rewrite Heq in E1.
  set (q := (r + j) `div` K) in *. set (q' := (r + j') `div` K) in *.
  set (m := (r + j') `mod` K) in *.
  assert (q = q') by nia. subst q'. lia.
Qed.

Lemma turns_cover K r :
  map (λ j, (r + j) `mod` K) (seq 1 K) ≡ₚ seq 0 K.
Proof.
  destruct (decide (K = 0)) as [->|HK]; [done|].
  apply submseteq_length_Permutation;
    [|by rewrite length_map, !length_seq].
  apply NoDup_submseteq.
  - apply (NoDup_fmap_2_strong (λ j, (r + j) `mod` K)); [|apply NoDup_seq].
    intros j j' Hj Hj' Heq.
    apply elem_of_seq in Hj, Hj'.
    apply (mod_shift_injective K r); lia.
  - intros x Hx. apply list_elem_of_fmap in Hx as (j & -> & _).
    apply elem_of_seq. split; [lia|]. simpl.
    by apply Nat.mod_upper_bound.
Qed.

Lemma turns_permutation (l : list string) r :
  l ≠ [] →
  map (λ j, nth (turn (length l) r j) l "") (seq 1 (length l)) ≡ₚ l.
Proof.
  intros Hne. unfold turn.
  destruct (1 <? length l) eqn:Hmany.
  - rewrite <- (map_map (λ j, (r + j) `mod` length l) (λ i, nth i l "")).
    transitivity (map (λ i, nth i l "") (seq 0 (length l)));
      [apply Permutation_map, turns_cover | by rewrite map_nth_seq].
  - destruct l as [|x [|y rest]]; [done | done |].
    apply Nat.ltb_ge in Hmany. simpl in Hmany. lia.
Qed.

(** C6. Let the registry have [K >= 1] HEALTHY backends, each listing the
    same number [c] of sessions, below the limit, at every call (and any
    cached count being [c]), with nothing else changing the state between
    the calls: [K] consecutive calls of [selectOptimalServer] all
    succeed and return each of the [K] backends exactly once, wherever
    the round-robin cursor starts. *)
Theorem round_robin_visits_each_once :
  ∀ (cfg : Config) (w : World) (c : nat) (nets : list Net),
    NoDup (map id (servers w)) →
    registry_inv w →
    healthy w ≠ [] →
    (Z.of_nat c < MAX_SESSIONS_PER_SERVER cfg)%Z →
    caches_count c (map id (healthy w)) w →
    Forall (replies_count c (map url (healthy w))) nets →
    length nets = length (healthy w) →
    ∃ picked,
      fst (selections cfg nets w) = map Ok picked
      ∧ map id picked ≡ₚ map id (healthy w).
Proof.
  intros cfg w c nets Hnd Hinv Hne Hc Hcache Hnets Hlen.
  rewrite <- (getActiveServers_healthy w Hinv) in *.
  assert (Hids : map id (getActiveServers w) ≠ []).
  { intros H. by apply map_eq_nil in H. }
  destruct (selections_steady cfg c _ _ nets w Hnd Hc Hids eq_refl eq_refl
              Hcache Hnets) as (picked & Hres & Hturns).
  exists picked. split; [done|].
  rewrite Hturns, Hlen, <- (length_map id).
  by apply turns_permutation.
Qed.

Lemma NoDup_w0 : NoDup (map id (servers w0)).
Proof. apply (bool_decide_unpack _). vm_compute. exact I. Qed.

Lemma round_robin_visits_each_once_witness :
  ∃ picked,
    fst (selections default_CONFIG
           [pairing 1 both_idle logged_out; pairing 2 both_idle logged_out] w0)
    = map Ok picked
    ∧ map id picked ≡ₚ ["server-1"; "server-2"].
Proof.
  apply (round_robin_visits_each_once default_CONFIG w0 0
           [pairing 1 both_idle logged_out; pairing 2 both_idle logged_out]).
  - exact NoDup_w0.
  - apply registry_inv_initial.
  - vm_compute. discriminate.
  - reflexivity.
  - intros sid item _ Hitem. vm_compute in Hitem. discriminate.
  - assert (H : ∀ t, replies_count 0 (map url (healthy w0))
                       (pairing t both_idle logged_out)).
    { intros t u Hu. vm_compute in Hu.
      destruct Hu as [<-|[<-|[]]]; eexists; vm_compute; repeat split. }
    repeat constructor; apply H.
  - reflexivity.
Defined.

Lemma selectOptimalServer_prefers_healthy_witness :
  ∃ s w' m,
    selectOptimalServer default_CONFIG (pairing 1 both_idle logged_out) w0
    = (Ok s, w')
    ∧ status s = HEALTHY
    ∧ fst (getServerSessionCount default_CONFIG
             (pairing 1 both_idle logged_out) (id s) w0) = Ok m
    ∧ (Z.of_nat m < 25)%Z.
Proof.
  apply (selectOptimalServer_prefers_healthy default_CONFIG
           (pairing 1 both_idle logged_out) w0 NoDup_w0).
  - apply registry_inv_initial.
  - exists (deref w0 (specimen "server-1" url1 0 [])), 0.
    vm_compute. repeat split; auto.
Defined.

(** ** Server ids stay pairwise distinct *)

Lemma serverId_inj i j : serverId i = serverId j → i = j.
Proof.
  unfold serverId. intros H.
  apply (inj (String.append "server-")) in H.
  apply (inj pretty) in H. lia.
Qed.

Lemma map_id_initializeServers urls t k :
  map id
    (imap (λ index u,
             {| id := serverId (k + index); url := u; status := HEALTHY;
                sessionCount := 0; lastChecked := None; responseTime := 0;
                isActive := true; sessions := [];
                metadata := {| createdAt := t; healthChecks := 0;
                               failures := 0; deletedSessions := 0 |};
                error := None; sessionsList := None |}) urls)
  = map serverId (seq k (length urls)).
Proof.
  revert k. induction urls as [|u r IH]; intros k; simpl; [done|].
  rewrite Nat.add_0_r. f_equal. rewrite <- (IH (S k)).
  f_equal. apply imap_ext. intros i x _. simpl. by rewrite Nat.add_succ_r.
Qed.

Lemma NoDup_initial cfg t : NoDup (map id (servers (initial cfg t))).
Proof.
  simpl. unfold initializeServers.
  rewrite (map_id_initializeServers _ t 0).
  apply (NoDup_fmap_2_strong serverId); [|apply NoDup_seq].
  intros i j _ _. apply serverId_inj.
Qed.

Lemma map_id_resetServer serverId w :
  map id (servers (resetServer serverId w)) = map id (servers w).
Proof.
  unfold resetServer. destruct (getServer w serverId) as [server|] eqn:Hs; [|done].
  simpl. apply map_id_store_server. simpl. by apply getServer_Some in Hs as [? _].
Qed.

Lemma map_id_deleteSessionFromServer net serverId sessionId w :
  map id (servers (snd (deleteSessionFromServer net serverId sessionId w)))
  = map id (servers w).
Proof.
  unfold deleteSessionFromServer.
  destruct (getServer w serverId) as [server|] eqn:Hs; [|done].
  apply getServer_Some in Hs as [Hid _].
  destruct (axios _ _) as [response|error]; simpl.
  - by apply map_id_store_server.
  - destruct (responded_404 error); [|done]. by apply map_id_store_server.
Qed.

Lemma map_id_searchServers net sessionId l :
  map id (snd (searchServers net sessionId l)) = map id l.
Proof.
  induction l as [|s r IH]; simpl; [done|].
  destruct (includes sessionId (sessions s)); [done|].
  destruct (axios _ _) as [response|error].
  - destruct (existsb _ _); [done|].
    destruct (searchServers net sessionId r) as [res rest']. simpl in *.
    by rewrite IH.
  - destruct (searchServers net sessionId r) as [res rest']. simpl in *.
    by rewrite IH.
Qed.

Lemma map_id_findSessionServer net sessionId w :
  map id (servers (snd (findSessionServer net sessionId w))) = map id (servers w).
Proof.
  unfold findSessionServer. destruct (hinted w sessionId); [done|].
  pose proof (map_id_searchServers net sessionId (getAllServers w)) as H.
  by destruct (searchServers net sessionId (getAllServers w)) as [[f|] l].
Qed.

Lemma map_id_checkServerHealth cfg net server w :
  map id (servers (checkServerHealth cfg net server w)) = map id (servers w).
Proof.
  unfold checkServerHealth. destruct (axios _ _) as [response|error].
  - destruct (resp_status response =? 200); apply map_id_updateServerStatus.
  - apply map_id_updateServerStatus.
Qed.

Lemma map_id_performHealthChecks cfg net w :
  map id (servers (performHealthChecks cfg net w)) = map id (servers w).
Proof.
  unfold performHealthChecks. generalize (getAllServers w). intros l.
  revert w. induction l as [|s r IH]; simpl; [done|].
  intros w. by rewrite IH, map_id_checkServerHealth.
Qed.

Lemma map_id_countSessions cfg net l w :
  map id (servers (snd (countSessions cfg net l w))) = map id (servers w).
Proof.
  revert w. induction l as [|s r IH]; intros w; simpl; [done|].
  destruct (getServerSessionCount_footprint cfg net (id s) w)
    as (_ & _ & _ & Hids & _).
  destruct (getServerSessionCount cfg net (id s) w) as [res w1].
  specialize (IH w1).
  destruct (countSessions cfg net r w1) as [cs w2]. simpl in *. congruence.
Qed.

Lemma map_id_selectOptimalServer cfg net w :
  map id (servers (snd (selectOptimalServer cfg net w))) = map id (servers w).
Proof.
  unfold selectOptimalServer.
  destruct (length (getActiveServers w) =? 0).
  - repeat (match goal with |- context [if ?b then _ else _] => destruct b end);
      done.
  - pose proof (map_id_countSessions cfg net (getActiveServers w) w) as H.
    destruct (countSessions cfg net (getActiveServers w) w) as [counted w1].
    simpl in H.
    repeat (match goal with
            | |- context [if ?b then _ else _] => destruct b
            | |- context [match ?l !! ?i with _ => _ end] => destruct (l !! i)
            end); done.
Qed.

Lemma map_id_forwardRequest cfg env req server retries w :
  map id (servers (final (forwardRequest cfg env req server retries w)))
  = map id (servers w).
Proof.
  funelim (forwardRequest cfg env req server retries w); simpl.
  - done.
  - destruct (marks_unhealthy _); [|done]. apply map_id_updateServerStatus.
  - rewrite H.
    change w2 with (snd (Ok (E := JsError json) newServer, w2)). rewrite <- Heq.
    rewrite map_id_selectOptimalServer.
    destruct (marks_unhealthy _); [|done]. apply map_id_updateServerStatus.
  - change w2 with (snd (Throw (A := Server) selectionError, w2)). rewrite <- Heq.
    rewrite map_id_selectOptimalServer.
    destruct (marks_unhealthy _); [|done]. apply map_id_updateServerStatus.
Qed.

Lemma map_id_handlePair cfg first env last req w :
  map id (servers (snd (ApiController.handlePair cfg first env last req w)))
  = map id (servers w).
Proof.
  unfold ApiController.handlePair.
  pose proof (map_id_selectOptimalServer cfg first w) as Hsel.
  destruct (selectOptimalServer cfg first w) as [[selectedServer|e] w1];
    simpl in Hsel; [|done].
  pose proof (map_id_forwardRequest cfg env req selectedServer 0 w1) as Hfwd.
  rewrite Hsel in Hfwd.
  destruct (outcome _) as [backendResponse|forwardError]; [|done].
  destruct (negb _); [done|].
  destruct (truthy_opt (field _ "error")); [done|].
  destruct (truthy_opt (field _ "ok")); [|done].
  destruct (getServerSessionCount_footprint cfg last (id selectedServer)
              (final (forwardRequest cfg env req selectedServer 0 w1)))
    as (_ & _ & _ & Hids & _).
  destruct (getServerSessionCount cfg last (id selectedServer) _)
    as [[currentCount|updateError] w']; simpl in *; [|congruence].
  destruct (ApiController.pairedSession _); simpl; congruence.
Qed.

Lemma map_id_step cfg w w' :
  step cfg w w' → map id (servers w') = map id (servers w).
Proof.
  destruct 1.
  - apply map_id_updateServerStatus.
  - apply map_id_resetServer.
  - by destruct (getServerSessionCount_footprint cfg net serverId0 w)
      as (_ & _ & _ & ? & _).
  - apply map_id_deleteSessionFromServer.
  - apply map_id_findSessionServer.
  - apply map_id_checkServerHealth.
  - apply map_id_performHealthChecks.
  - apply map_id_selectOptimalServer.
  - apply map_id_forwardRequest.
  - apply map_id_handlePair.
  - apply map_id_resetServer.
Qed.

(** Every reachable state is a registry in the sense of the selection
    theorems: its server ids are pairwise distinct. *)
Lemma reachable_distinct_ids cfg w :
  reachable cfg w → NoDup (map id (servers w)).
Proof.
  induction 1 as [t|w w' _ IH Hstep].
  - apply NoDup_initial.
  - by rewrite (map_id_step cfg w w').
Qed.

(** * Further properties of the source *)

(** ** utils/cache.js *)

Lemma cache_get_lookup key t (store : gmap string CacheItem) :
  fst (cache_get key t store)
  = match store !! key with
    | Some item => if (expiry item <? t)%Z then None else Some (value item)
    | None => None
    end.
Proof.
  unfold cache_get. destruct (store !! key) as [item|]; [|done].
  by destruct (expiry item <? t)%Z.
Qed.

(** X1. A value that was [set] is what [get] returns up to and including
    the instant [t + ttl] of its expiry, and the read leaves the store as
    it is; a read after that instant returns nothing and deletes the
    entry, so that no later read finds it either; entries under other
    keys are read as before the [set]. *)
Theorem cache_set_then_get :
  ∀ (store : gmap string CacheItem) (key : string) (v : nat) (ttl t t' : Z),
    ((t' ≤ t + ttl)%Z →
     cache_get key t' (cache_set key v ttl t store)
     = (Some v, cache_set key v ttl t store))
    ∧ ((t + ttl < t')%Z →
       fst (cache_get key t' (cache_set key v ttl t store)) = None
       ∧ snd (cache_get key t' (cache_set key v ttl t store)) !! key = None
       ∧ ∀ t'', fst (cache_get key t''
                       (snd (cache_get key t' (cache_set key v ttl t store))))
                = None)
    ∧ (∀ k, k ≠ key →
            fst (cache_get k t' (cache_set key v ttl t store))
            = fst (cache_get k t' store)).
Proof.
  intros store key v ttl t t'. split; [|split].
  - intros Hfresh. unfold cache_get, cache_set. rewrite lookup_insert_eq. simpl.
    destruct (t + ttl <? t')%Z eqn:E; [|done]. apply Z.ltb_lt in E. lia.
  - intros Hstale.
    assert (Hget : cache_get key t' (cache_set key v ttl t store)
                   = (None, delete key (cache_set key v ttl t store))).
    { unfold cache_get, cache_set. rewrite lookup_insert_eq. simpl.
      destruct (t + ttl <? t')%Z eqn:E; [done|]. apply Z.ltb_ge in E. lia. }
    rewrite Hget. simpl. split; [done|]. split; [apply lookup_delete_eq|].
    intros t''. rewrite cache_get_lookup. by rewrite lookup_delete_eq.
  - intros k Hne. rewrite !cache_get_lookup. unfold cache_set.
    by rewrite lookup_insert_ne.
Qed.

(** X2. [cleanup] keeps exactly the entries that have not expired; from
    then on no [get] can tell whether it ran; and running it twice is
    running it once. *)
Theorem cache_cleanup_is_unobservable :
  ∀ (store : gmap string CacheItem) (t : Z),
    (∀ k item,
       cache_cleanup t store !! k = Some item
       ↔ store !! k = Some item ∧ (t ≤ expiry item)%Z)
    ∧ (∀ k t', (t ≤ t')%Z →
               fst (cache_get k t' (cache_cleanup t store))
               = fst (cache_get k t' store))
    ∧ cache_cleanup t (cache_cleanup t store) = cache_cleanup t store.
Proof.
  intros store t.
  assert (Hlookup : ∀ k item,
            cache_cleanup t store !! k = Some item
            ↔ store !! k = Some item ∧ (t ≤ expiry item)%Z).
  { intros k item. unfold cache_cleanup. rewrite map_lookup_filter_Some.
    simpl. split; intros [? ?]; split; (done || lia). }
  split; [exact Hlookup|]. split.
  - intros k t' Hle. rewrite !cache_get_lookup.
    destruct (cache_cleanup t store !! k) as [item|] eqn:Hc.
    + apply Hlookup in Hc as [-> _]. done.
    + destruct (store !! k) as [item|] eqn:Hs; [|done].
      destruct (expiry item <? t')%Z eqn:E; [done|].
      apply Z.ltb_ge in E.
      assert (cache_cleanup t store !! k = Some item) by (apply Hlookup; split; [done|lia]).
      congruence.
  - apply map_eq. intros k. apply option_eq. intros item.
    unfold cache_cleanup at 1. rewrite map_lookup_filter_Some. simpl.
    split; [by intros [? _]|]. intros H. split; [done|].
    apply Hlookup in H as [_ ?]. lia.
Qed.

(** ** services/loadBalancer.js: how a selection ends *)

Lemma filter_length_all {A : Type} (f : A → bool) (l : list A) :
  length (List.filter f l) = length l ↔ ∀ x, In x l → f x = true.
Proof.
  induction l as [|x r IH]; simpl; [split; [by intros _ ? [] | done]|].
  pose proof (filter_length_le f r) as Hle.
  destruct (f x) eqn:E; simpl.
  - split.
    + intros H y [<-|Hy]; [done|]. apply IH; [lia | done].
    + intros H. f_equal. apply IH. auto.
  - split; [lia|]. intros H. specialize (H x (or_introl eq_refl)). congruence.
Qed.

Lemma all_status_filter st w :
  (length (List.filter (λ s, bool_decide (status s = st)) (getAllServers w))
   =? length (getAllServers w)) && (0 <? length (getAllServers w)) = true
  ↔ all_status st w.
Proof.
  unfold all_status, getAllServers.
  rewrite andb_true_iff, Nat.eqb_eq, Nat.ltb_lt, filter_length_all.
  split; intros [H1 H2].
  - split; [by destruct (servers w); [simpl in H2; lia|]|].
    intros s Hs. specialize (H1 s Hs). by apply bool_decide_eq_true in H1.
  - split; [|destruct (servers w); [done | simpl; lia]].
    intros s Hs. apply bool_decide_eq_true. by apply H2.
Qed.

Lemma roundRobinIndex_countSessions cfg net l w :
  roundRobinIndex (snd (countSessions cfg net l w)) = roundRobinIndex w.
Proof.
  revert w. induction l as [|s r IH]; intros w; simpl; [done|].
  destruct (getServerSessionCount_footprint cfg net (id s) w) as (Hrr & _).
  destruct (getServerSessionCount cfg net (id s) w) as [res w1].
  specialize (IH w1).
  destruct (countSessions cfg net r w1) as [cs w2]. simpl in *. congruence.
Qed.

Lemma least_nonempty (available : list (Server * Count)) :
  available ≠ [] →
  List.filter (λ p, count_eqb (snd p) (Math_min (map snd available))) available
  ≠ [].
Proof.
  intros Hne.
  assert (Hmin : In (Math_min (map snd available)) (map snd available)).
  { apply Math_min_attained. intros H. by apply map_eq_nil in H. }
  apply in_map_iff in Hmin as (p & Hp & Hin).
  assert (In p (List.filter
                  (λ p, count_eqb (snd p) (Math_min (map snd available)))
                  available)).
  { apply filter_In. split; [done|]. rewrite Hp. apply count_eqb_refl. }
  intros H'. by rewrite H' in *.
Qed.

Lemma Math_min_le (cs : list Count) c : In c cs → count_le (Math_min cs) c.
Proof.
  induction cs as [|a r IH]; [done|]. unfold Math_min. simpl.
  fold (Math_min r).
  assert (Hlow : ∀ x y, count_le (count_min x y) x ∧ count_le (count_min x y) y).
  { intros [x|] [y|]; simpl; try done; lia. }
  assert (Htrans : ∀ x y z, count_le x y → count_le y z → count_le x z).
  { intros [x|] [y|] [z|]; simpl; try done; lia. }
  intros [<-|Hin].
  - apply Hlow.
  - eapply Htrans; [apply Hlow | by apply IH].
Qed.

(** X3. In a registry, a selection that fails leaves the cursor where it
    was and throws one of three errors, never another.  With no active
    server the state is untouched and the error tells why: [ALL_FULL]
    when every server is FULL, else [ALL_UNAVAILABLE] when every server is
    UNHEALTHY, else [NO_ACTIVE_SERVERS] (an empty registry included).
    With active servers the error is [ALL_FULL], and then no active
    server had a count below the limit, a count that could not be
    obtained included. *)
Theorem selectOptimalServer_failure :
  ∀ (cfg : Config) (net : Net) (w w' : World) (e : JsError json),
    NoDup (map id (servers w)) →
    selectOptimalServer cfg net w = (Throw e, w') →
    roundRobinIndex w' = roundRobinIndex w
    ∧ (getActiveServers w = [] →
       w' = w
       ∧ ((all_status FULL w ∧ e = Error "ALL_FULL")
          ∨ (¬ all_status FULL w ∧ all_status UNHEALTHY w
             ∧ e = Error "ALL_UNAVAILABLE")
          ∨ (¬ all_status FULL w ∧ ¬ all_status UNHEALTHY w
             ∧ e = Error "NO_ACTIVE_SERVERS")))
    ∧ (getActiveServers w ≠ [] →
       e = Error "ALL_FULL"
       ∧ ∀ a, In a (getActiveServers w) →
              count_ltb (counted cfg net w a) (MAX_SESSIONS_PER_SERVER cfg)
              = false).
Proof.
  intros cfg net w w' e Hnd. unfold selectOptimalServer.
  destruct (length (getActiveServers w) =? 0) eqn:Hlen.
  - apply Nat.eqb_eq, length_zero_iff_nil in Hlen.
    pose proof (all_status_filter FULL w) as Hfull.
    pose proof (all_status_filter UNHEALTHY w) as Hun.
    match goal with |- context [if ?b then _ else _] =>
      destruct b eqn:Efull end.
    { intros [= <- <-]. split; [done|]. split; [|done].
      intros _. split; [done|]. left. split; [by apply Hfull | done]. }
    match goal with |- context [if ?b then _ else _] =>
      destruct b eqn:Eun end.
    { intros [= <- <-]. split; [done|]. split; [|done].
      intros _. split; [done|]. right. left.
      split; [|split; [by apply Hun | done]].
      intros H. apply Hfull in H. congruence. }
    intros [= <- <-]. split; [done|]. split; [|done].
    intros _. split; [done|]. right. right.
    split; [|split; [|done]].
    + intros H. apply Hfull in H. congruence.
    + intros H. apply Hun in H. congruence.
  - assert (Hne : getActiveServers w ≠ []).
    { intros H. rewrite H in Hlen. done. }
    pose proof (countSessions_counts cfg net (getActiveServers w) w
                  (NoDup_map_id_filter _ _ Hnd)) as Hcounts.
    pose proof (roundRobinIndex_countSessions cfg net (getActiveServers w) w)
      as Hrr.
    destruct (countSessions cfg net (getActiveServers w) w) as [sws w1].
    simpl in Hcounts, Hrr. subst sws.
    set (counts := map _ (getActiveServers w)).
    set (available := List.filter _ counts).
    destruct (length available =? 0) eqn:Havail.
    + intros [= <- <-]. split; [done|]. split; [done|].
      intros _. split; [done|]. intros a Ha.
      apply Nat.eqb_eq, length_zero_iff_nil in Havail.
      destruct (count_ltb (counted cfg net w a) (MAX_SESSIONS_PER_SERVER cfg))
        eqn:E; [|done].
      assert (In (a, counted cfg net w a) available).
      { apply filter_In. split; [|done]. apply in_map_iff. eauto. }
      rewrite Havail in *. done.
    + assert (Hsome : available ≠ []).
      { intros H. rewrite H in Havail. done. }
      pose proof (least_nonempty available Hsome) as Hleast.
      set (least := List.filter _ available) in *.
      destruct (1 <? length least) eqn:Hmany.
      * destruct (lookup_lt_is_Some_2 least
                    ((roundRobinIndex w1 + 1) `mod` length least)) as [p Hp].
        { apply Nat.mod_upper_bound. destruct least; [done | simpl; lia]. }
        rewrite Hp. discriminate.
      * destruct least as [|p rest]; [done|]. simpl. discriminate.
Qed.

Lemma selectOptimalServer_failure_witness :
  ∃ e w',
    selectOptimalServer default_CONFIG (half_down 5 (crowd 25)) w0
    = (Throw e, w')
    ∧ roundRobinIndex w' = roundRobinIndex w0
    ∧ e = Error "ALL_FULL".
Proof.
  destruct (selectOptimalServer default_CONFIG (half_down 5 (crowd 25)) w0)
    as [[s|e] w'] eqn:Hsel; [by vm_compute in Hsel|].
  destruct (selectOptimalServer_failure default_CONFIG (half_down 5 (crowd 25))
              w0 w' e NoDup_w0 Hsel) as (Hrr & _ & Hactive).
  exists e, w'. split; [done|]. split; [exact Hrr|].
  apply Hactive. vm_compute. discriminate.
Defined.

Lemma filter_map_pairs {A B : Type} (g : B → bool) (f : A → B) (l : list A) :
  List.filter (λ p, g (snd p)) (map (λ a, (a, f a)) l)
  = map (λ a, (a, f a)) (List.filter (λ a, g (f a)) l).
Proof.
  induction l as [|a r IH]; simpl; [done|].
  destruct (g (f a)); simpl; by rewrite IH.
Qed.

Lemma filter_twice {A : Type} (g h : A → bool) (l : list A) :
  (∀ x, g x = true → h x = true) →
  List.filter g (List.filter h l) = List.filter g l.
Proof.
  intros Himp. induction l as [|a r IH]; simpl; [done|].
  destruct (h a) eqn:Eh; simpl.
  - destruct (g a); by rewrite IH.
  - destruct (g a) eqn:Eg; [|done]. apply Himp in Eg. congruence.
Qed.

(** X4. In a registry, a selection that succeeds is a least-connections
    choice with a round-robin tie-break: there is a count [n] below the
    limit that no active server undercuts; among the active servers
    counted at exactly [n], taken in registry order, the returned one is
    the first when it is alone and the one at position
    [(cursor + 1) mod k] when [k > 1] are tied; and the cursor moves, to
    that position, only on a tie. *)
Theorem selectOptimalServer_least_connections :
  ∀ (cfg : Config) (net : Net) (w w' : World) (s : Server),
    NoDup (map id (servers w)) →
    selectOptimalServer cfg net w = (Ok s, w') →
    ∃ n tied,
      tied = List.filter (λ a, count_eqb (counted cfg net w a) (Finite n))
               (getActiveServers w)
      ∧ (Z.of_nat n < MAX_SESSIONS_PER_SERVER cfg)%Z
      ∧ (∀ a, In a (getActiveServers w) →
              count_le (Finite n) (counted cfg net w a))
      ∧ (id <$> tied !! (if 1 <? length tied
                         then (roundRobinIndex w + 1) `mod` length tied
                         else 0)) = Some (id s)
      ∧ roundRobinIndex w'
        = (if 1 <? length tied
           then (roundRobinIndex w + 1) `mod` length tied
           else roundRobinIndex w).
Proof.
  intros cfg net w w' s Hnd. unfold selectOptimalServer.
  destruct (length (getActiveServers w) =? 0).
  { repeat (match goal with |- context [if ?b then _ else _] => destruct b end);
      discriminate. }
  pose proof (countSessions_counts cfg net (getActiveServers w) w
                (NoDup_map_id_filter _ _ Hnd)) as Hcounts.
  pose proof (roundRobinIndex_countSessions cfg net (getActiveServers w) w)
    as Hrr.
  destruct (countSessions cfg net (getActiveServers w) w) as [sws w1].
  simpl in Hcounts, Hrr. subst sws.
  rewrite (filter_map_pairs
             (λ c, count_ltb c (MAX_SESSIONS_PER_SERVER cfg))
             (counted cfg net w)).
  set (below := List.filter _ (getActiveServers w)).
  set (available := map _ below).
  destruct (length available =? 0) eqn:Havail; [discriminate|].
  assert (Hsome : available ≠ []).
  { intros H. rewrite H in Havail. done. }
  (* the minimum *)
  assert (Hmin : ∃ n, Math_min (map snd available) = Finite n
                      ∧ (Z.of_nat n < MAX_SESSIONS_PER_SERVER cfg)%Z).
  { assert (Hin : In (Math_min (map snd available)) (map snd available)).
    { apply Math_min_attained. intros H. by apply map_eq_nil in H. }
    apply in_map_iff in Hin as (p & Hp & Hin).
    apply in_map_iff in Hin as (a & <- & Ha).
    apply filter_In in Ha as [_ Hlt]. simpl in Hp. rewrite Hp in Hlt.
    destruct (Math_min (map snd available)) as [n|]; [|done].
    exists n. split; [done|]. by apply Z.ltb_lt. }
  destruct Hmin as (n & Hmin & Hn).
  assert (Hlow : ∀ a, In a (getActiveServers w) →
                      count_le (Finite n) (counted cfg net w a)).
  { intros a Ha.
    destruct (count_ltb (counted cfg net w a) (MAX_SESSIONS_PER_SERVER cfg))
      eqn:Hlt.
    - rewrite <- Hmin. apply Math_min_le.
      apply in_map_iff. exists (a, counted cfg net w a). split; [done|].
      apply in_map_iff. exists a. split; [done|]. by apply filter_In.
    - destruct (counted cfg net w a) as [m|]; [|done]. simpl in *.
      apply Z.ltb_ge in Hlt. lia. }
  rewrite Hmin.
  unfold available.
  rewrite (filter_map_pairs (λ c, count_eqb c (Finite n)) (counted cfg net w)).
  unfold below. rewrite filter_twice.
  2: { intros a Ha. apply count_eqb_eq in Ha. rewrite Ha. simpl.
       by apply Z.ltb_lt. }
  set (tied := List.filter _ (getActiveServers w)).
  rewrite length_map.
  change (map ?f ?l) with (f <$> l). rewrite !list_lookup_fmap.
  rewrite Hrr.
  intros Hsel. exists n, tied. split; [done|]. split; [done|]. split; [done|].
  destruct (1 <? length tied).
  - destruct (tied !! _) as [a|]; [|discriminate].
    simpl in Hsel. injection Hsel as <- <-.
    split; [|done]. simpl. by rewrite id_deref.
  - destruct (tied !! 0) as [a|]; [|discriminate].
    simpl in Hsel. injection Hsel as <- <-.
    split; [|done]. simpl. by rewrite id_deref.
Qed.

Lemma selectOptimalServer_least_connections_witness :
  ∃ s w' n tied,
    selectOptimalServer default_CONFIG
      (pairing 1 [(url1 +:+ "/sessions", crowd 3); (url2 +:+ "/sessions", crowd 2)]
         logged_out) w0 = (Ok s, w')
    ∧ tied = List.filter
               (λ a, count_eqb
                       (counted default_CONFIG
                          (pairing 1 [(url1 +:+ "/sessions", crowd 3);
                                      (url2 +:+ "/sessions", crowd 2)]
                             logged_out) w0 a) (Finite n))
               (getActiveServers w0)
    ∧ (id <$> tied !! (if 1 <? length tied
                       then (roundRobinIndex w0 + 1) `mod` length tied
                       else 0)) = Some (id s)
    ∧ roundRobinIndex w' = 0.
Proof.
  destruct (selectOptimalServer default_CONFIG
              (pairing 1 [(url1 +:+ "/sessions", crowd 3);
                          (url2 +:+ "/sessions", crowd 2)] logged_out) w0)
    as [[s|e] w'] eqn:Hsel; [|by vm_compute in Hsel].
  destruct (selectOptimalServer_least_connections default_CONFIG _ w0 w' s
              NoDup_w0 Hsel) as (n & tied & Htied & _ & _ & Hpick & Hrr).
  exists s, w', n, tied. split; [done|]. split; [exact Htied|].
  split; [exact Hpick|].
  vm_compute in Hsel. injection Hsel as <- <-. reflexivity.
Defined.

(** ** The session index and the cache in reachable states *)

Lemma settles_refl w : settles w w.
Proof. repeat split; auto. Qed.

Lemma settles_trans w1 w2 w3 : settles w1 w2 → settles w2 w3 → settles w1 w3.
Proof.
  intros (Hids1 & Hidx1 & Hst1) (Hids2 & Hidx2 & Hst2).
  split; [congruence|]. split.
  - intros k b H. destruct (Hidx2 k b H) as [H'|H'].
    + by apply Hidx1.
    + right. by rewrite <- Hids1.
  - intros k. destruct (Hst2 k) as [->|?]; [apply Hst1 | by right].
Qed.

Lemma settles_updateServerStatus serverId st data t w :
  settles w (updateServerStatus serverId st data t w).
Proof.
  split; [apply map_id_updateServerStatus|]. split.
  - intros k b. rewrite sessionMap_updateServerStatus. auto.
  - intros k. destruct (store_updateServerStatus w serverId st data t k)
      as [?|[_ ?]]; auto.
Qed.

Lemma settles_resetServer serverId w : settles w (resetServer serverId w).
Proof.
  split; [apply map_id_resetServer|].
  unfold resetServer. destruct (getServer w serverId); repeat split; auto.
Qed.

Lemma index_sessions_lookup serverId l (m : gmap string string) k b :
  index_sessions serverId l m !! k = Some b → m !! k = Some b ∨ b = serverId.
Proof.
  unfold index_sessions. revert m.
  induction l as [|s r IH]; intros m; simpl; [auto|].
  intros H. apply IH in H as [H|H]; [|by right].
  destruct (js_or _ _) as [sid|]; [|by left].
  destruct (String.eqb sid ""); [by left|].
  destruct (decide (sid = k)) as [->|Hne].
  - rewrite lookup_insert_eq in H. right. congruence.
  - rewrite lookup_insert_ne in H by done. by left.
Qed.

Lemma known_id w serverId server :
  getServer w serverId = Some server → In serverId (map id (servers w)).
Proof.
  intros H. apply getServer_Some in H as [<- Hin]. by apply in_map.
Qed.

Lemma settles_getServerSessionCount cfg net serverId w :
  settles w (snd (getServerSessionCount cfg net serverId w)).
Proof.
  destruct (getServerSessionCount_footprint cfg net serverId w)
    as (_ & Hstore & _ & Hids & _).
  split; [exact Hids|]. split.
  2: { intros k. destruct (Hstore k) as [?|[_ ?]]; auto. }
  clear Hstore Hids. unfold getServerSessionCount.
  destruct (cache_get _ _ _) as [[n|] store1]; [simpl; auto|].
  cbv zeta. rewrite getServer_with_store.
  destruct (getServer w serverId) as [server|] eqn:Hs; [|simpl; auto].
  destruct (axios _ _) as [response|error]; cbn [fst snd].
  - intros k b. rewrite sessionMap_updateServerStatus. simpl.
    intros H. apply index_sessions_lookup in H as [H| ->]; [by left|].
    right. by apply (known_id w _ server).
  - destruct (refused_or_timed_out _); [|simpl; auto].
    intros k b. rewrite sessionMap_updateServerStatus. simpl. auto.
Qed.

Lemma settles_deleteSessionFromServer net serverId sessionId w :
  settles w (snd (deleteSessionFromServer net serverId sessionId w)).
Proof.
  split; [apply map_id_deleteSessionFromServer|].
  unfold deleteSessionFromServer.
  destruct (getServer w serverId) as [server|]; [|repeat split; auto].
  destruct (axios _ _) as [response|error]; simpl.
  - split.
    + intros k b H. apply lookup_delete_Some in H as [_ H]. auto.
    + intros k. unfold cache_delete.
      destruct (decide (k = cacheKey serverId)) as [->|Hne].
      * right. apply lookup_delete_eq.
      * left. by apply lookup_delete_ne.
  - destruct (responded_404 error); simpl; [|split; auto].
    split; [|auto].
    intros k b H. apply lookup_delete_Some in H as [_ H]. auto.
Qed.

Lemma settles_findSessionServer net sessionId w :
  settles w (snd (findSessionServer net sessionId w)).
Proof.
  split; [apply map_id_findSessionServer|].
  unfold findSessionServer.
  destruct (hinted w sessionId); [split; auto|].
  pose proof (searchServers_order net sessionId (getAllServers w)) as H.
  unfold getAllServers in *.
  destruct (searchServers net sessionId (servers w)) as [[f|] l]; simpl;
    [|split; auto].
  split; [|auto].
  intros k b Hk.
  destruct (decide (sessionId = k)) as [<-|Hne].
  2: { rewrite lookup_insert_ne in Hk by done. auto. }
  rewrite lookup_insert_eq in Hk. injection Hk as <-. right.
  destruct H as (pre & server & post & -> & _ & _ & Hrest).
  assert (Hid : id (found_server f) = id server).
  { destruct (in_memory sessionId server).
    - by destruct Hrest as [-> _].
    - destruct Hrest as (_ & -> & _). unfold refreshed.
      by destruct (axios _ _). }
  rewrite Hid, map_app. apply in_or_app. right. by left.
Qed.

Lemma settles_checkServerHealth cfg net server w :
  settles w (checkServerHealth cfg net server w).
Proof.
  unfold checkServerHealth. destruct (axios _ _) as [response|error].
  - destruct (resp_status response =? 200); apply settles_updateServerStatus.
  - apply settles_updateServerStatus.
Qed.

Lemma settles_performHealthChecks cfg net w :
  settles w (performHealthChecks cfg net w).
Proof.
  unfold performHealthChecks. generalize (getAllServers w). intros l.
  revert w. induction l as [|s r IH]; simpl; [apply settles_refl|].
  intros w. eapply settles_trans; [apply settles_checkServerHealth | apply IH].
Qed.

Lemma settles_countSessions cfg net l w :
  settles w (snd (countSessions cfg net l w)).
Proof.
  revert w. induction l as [|s r IH]; intros w; simpl; [apply settles_refl|].
  pose proof (settles_getServerSessionCount cfg net (id s) w) as H1.
  destruct (getServerSessionCount cfg net (id s) w) as [res w1].
  specialize (IH w1).
  destruct (countSessions cfg net r w1) as [cs w2]. simpl in *.
  by eapply settles_trans.
Qed.

Lemma settles_selectOptimalServer cfg net w :
  settles w (snd (selectOptimalServer cfg net w)).
Proof.
  unfold selectOptimalServer.
  destruct (length (getActiveServers w) =? 0).
  - repeat (match goal with |- context [if ?b then _ else _] => destruct b end);
      apply settles_refl.
  - pose proof (settles_countSessions cfg net (getActiveServers w) w) as H.
    destruct (countSessions cfg net (getActiveServers w) w) as [counted w1].
    simpl in H.
    repeat (match goal with
            | |- context [if ?b then _ else _] => destruct b
            | |- context [match ?l !! ?i with _ => _ end] => destruct (l !! i)
            end); exact H.
Qed.

Lemma settles_forwardRequest cfg env req server retries w :
  settles w (final (forwardRequest cfg env req server retries w)).
Proof.
  funelim (forwardRequest cfg env req server retries w); simpl.
  - apply settles_refl.
  - destruct (marks_unhealthy _);
      [apply settles_updateServerStatus | apply settles_refl].
  - eapply settles_trans; [|exact H].
    change w2 with (snd (Ok (E := JsError json) newServer, w2)). rewrite <- Heq.
    eapply settles_trans; [|apply settles_selectOptimalServer].
    destruct (marks_unhealthy _);
      [apply settles_updateServerStatus | apply settles_refl].
  - change w2 with (snd (Throw (A := Server) selectionError, w2)). rewrite <- Heq.
    eapply settles_trans; [|apply settles_selectOptimalServer].
    destruct (marks_unhealthy _);
      [apply settles_updateServerStatus | apply settles_refl].
Qed.

Lemma map_fst_countSessions cfg net l w :
  map fst (fst (countSessions cfg net l w)) = l.
Proof.
  revert w. induction l as [|s r IH]; intros w; simpl; [done|].
  destruct (getServerSessionCount cfg net (id s) w) as [res w1].
  specialize (IH w1).
  destruct (countSessions cfg net r w1) as [cs w2]. simpl in *. by rewrite IH.
Qed.

(** A selected server is one of the active servers of the state before
    the call. *)
Lemma selectOptimalServer_Ok_active cfg net w s w' :
  selectOptimalServer cfg net w = (Ok s, w') →
  ∃ a, In a (getActiveServers w) ∧ s = deref w' a.
Proof.
  unfold selectOptimalServer.
  destruct (length (getActiveServers w) =? 0).
  { repeat (match goal with |- context [if ?b then _ else _] => destruct b end);
      discriminate. }
  pose proof (map_fst_countSessions cfg net (getActiveServers w) w) as Hfst.
  destruct (countSessions cfg net (getActiveServers w) w) as [sws w1].
  simpl in Hfst.
  set (available := List.filter _ sws).
  destruct (length available =? 0); [discriminate|].
  set (least := List.filter _ available).
  assert (Hleast : ∀ p, In p least → In (fst p) (getActiveServers w)).
  { intros p Hp. apply filter_In in Hp as [Hp _].
    apply filter_In in Hp as [Hp _]. rewrite <- Hfst. by apply in_map. }
  destruct (1 <? length least).
  - destruct (least !! _) as [p|] eqn:Hp; [|discriminate].
    intros [= <- <-]. exists (fst p). split; [|done].
    by apply list_elem_of_lookup_2, list_elem_of_In, Hleast in Hp.
  - destruct (least !! 0) as [p|] eqn:Hp; [|discriminate].
    intros [= <- <-]. exists (fst p). split; [|done].
    by apply list_elem_of_lookup_2, list_elem_of_In, Hleast in Hp.
Qed.

Lemma settles_handlePair cfg first env last req w :
  settles w (snd (ApiController.handlePair cfg first env last req w)).
Proof.
  unfold ApiController.handlePair.
  pose proof (settles_selectOptimalServer cfg first w) as Hsel.
  destruct (selectOptimalServer cfg first w) as [[selectedServer|e] w1] eqn:Es;
    simpl in Hsel; [|done].
  pose proof (settles_forwardRequest cfg env req selectedServer 0 w1) as Hfwd.
  pose proof (settles_trans _ _ _ Hsel Hfwd) as H2.
  destruct (outcome _) as [backendResponse|forwardError]; [|done].
  destruct (negb _); [done|].
  destruct (truthy_opt (field _ "error")); [done|].
  destruct (truthy_opt (field _ "ok")); [|done].
  pose proof (settles_getServerSessionCount cfg last (id selectedServer)
                (final (forwardRequest cfg env req selectedServer 0 w1)))
    as Hcount.
  pose proof (settles_trans _ _ _ H2 Hcount) as H3.
  destruct (getServerSessionCount cfg last (id selectedServer) _)
    as [[currentCount|updateError] w3]; simpl in *; [|done].
  destruct (ApiController.pairedSession _) as [sessionId|]; [|done].
  destruct H3 as (Hids & Hidx & Hst). split; [done|]. split; [|done].
  intros k b Hk. simpl in Hk.
  destruct (decide (sessionId = k)) as [->|Hne].
  2: { rewrite lookup_insert_ne in Hk by done. auto. }
  rewrite lookup_insert_eq in Hk. injection Hk as <-. right.
  apply selectOptimalServer_Ok_active in Es as (a & Ha & ->).
  rewrite id_deref. apply in_map. by apply filter_In in Ha as [? _].
Qed.

Lemma settles_step cfg w w' : step cfg w w' → settles w w'.
Proof.
  destruct 1.
  - apply settles_updateServerStatus.
  - apply settles_resetServer.
  - apply settles_getServerSessionCount.
  - apply settles_deleteSessionFromServer.
  - apply settles_findSessionServer.
  - apply settles_checkServerHealth.
  - apply settles_performHealthChecks.
  - apply settles_selectOptimalServer.
  - apply settles_forwardRequest.
  - apply settles_handlePair.
  - apply settles_resetServer.
Qed.

Lemma index_known_settles w w' : settles w w' → index_known w → index_known w'.
Proof.
  intros (Hids & Hidx & _) Hknown k b Hk. rewrite Hids.
  destruct (Hidx k b Hk) as [H|H]; [by apply (Hknown k) | done].
Qed.

Lemma In_id_getServer w b : In b (map id (servers w)) → is_Some (getServer w b).
Proof.
  intros H. apply in_map_iff in H as (s & <- & Hs).
  unfold getServer. destruct (List.find _ _) as [x|] eqn:E; [eauto|].
  eapply find_none in E; [|exact Hs]. by apply has_id_false in E.
Qed.

(** X5. The session index only ever points at servers of the registry: it
    is so at start-up, every operation of the gateway keeps it so, and
    hence in every reachable state the server an index entry names can be
    fetched. *)
Theorem index_names_known_servers :
  ∀ cfg : Config,
    (∀ t, index_known (initial cfg t))
    ∧ (∀ w w', index_known w → step cfg w w' → index_known w')
    ∧ (∀ w, reachable cfg w →
            ∀ sessionId b, sessionMap w !! sessionId = Some b →
                           is_Some (getServer w b)).
Proof.
  intros cfg.
  assert (Hinit : ∀ t, index_known (initial cfg t)).
  { intros t k b H. simpl in H. by rewrite lookup_empty in H. }
  assert (Hstep : ∀ w w', index_known w → step cfg w w' → index_known w').
  { intros w w' Hk Hs. eapply index_known_settles; [|exact Hk].
    by apply (settles_step cfg). }
  split; [exact Hinit|]. split; [exact Hstep|].
  intros w Hreach.
  assert (Hk : index_known w).
  { induction Hreach as [t|w w' _ IH Hs]; [apply Hinit | by apply (Hstep w)]. }
  intros sessionId b Hb. apply In_id_getServer. by apply (Hk sessionId).
Qed.

(** X6. The session-count cache never holds an entry between operations:
    [getServerSessionCount] stores the count and the [updateServerStatus]
    it then calls deletes it.  So in every reachable state the cache is
    empty, and the count of a known server is always obtained by probing
    the backend: the number of sessions it lists, or the probe's error. *)
Theorem cache_is_always_empty :
  ∀ (cfg : Config) (w : World),
    reachable cfg w →
    store w = ∅
    ∧ ∀ net serverId server,
        getServer w serverId = Some server →
        fst (getServerSessionCount cfg net serverId w)
        = match axios status_2xx (get_sessions net (url server +:+ "/sessions")) with
          | Ok response => Ok (length (default [] (resp_data response)))
          | Throw error => Throw error
          end.
Proof.
  intros cfg w Hreach.
  assert (Hempty : store w = ∅).
  { induction Hreach as [t|w w' _ IH Hs]; [done|].
    destruct (settles_step cfg w w' Hs) as (_ & _ & Hst).
    apply map_eq. intros k. rewrite lookup_empty.
    destruct (Hst k) as [->|?]; [by rewrite IH, lookup_empty | done]. }
  split; [exact Hempty|].
  intros net serverId server Hs.
  unfold getServerSessionCount, cache_get. rewrite Hempty, lookup_empty.
  cbv zeta. rewrite getServer_with_store, Hs.
  by destruct (axios _ _).
Qed.

Lemma cache_is_always_empty_witness :
  store (snd (getServerSessionCount default_CONFIG
                (pairing 1 both_idle logged_out) "server-1" w0)) = ∅.
Proof.
  apply (cache_is_always_empty default_CONFIG).
  apply (reachable_step default_CONFIG w0); [apply (reachable_initial _ 0)|].
  apply step_getServerSessionCount.
Defined.

(** ** Identity and counters of the servers *)

Lemma grows_refl s : grows s s.
Proof. repeat split; lia. Qed.

Lemma grows_trans a b c : grows a b → grows b c → grows a c.
Proof.
  intros (?&?&?&?&?&?) (?&?&?&?&?&?). repeat split; (congruence || lia).
Qed.

Lemma advances_refl w : advances w w.
Proof.
  unfold advances. induction (servers w); constructor; [apply grows_refl | done].
Qed.

Lemma Forall2_grows_refl l : Forall2 grows l l.
Proof. induction l; constructor; [apply grows_refl | done]. Qed.

Lemma Forall2_grows_trans l1 l2 l3 :
  Forall2 grows l1 l2 → Forall2 grows l2 l3 → Forall2 grows l1 l3.
Proof.
  intros H. revert l3. induction H as [|a b r1 r2 Hab _ IH]; intros l3 H23.
  - by inversion H23.
  - inversion H23; subst. constructor; [by eapply grows_trans | by apply IH].
Qed.

Lemma advances_trans w1 w2 w3 : advances w1 w2 → advances w2 w3 → advances w1 w3.
Proof. apply Forall2_grows_trans. Qed.

Lemma Forall2_grows_store_server serverId s' l :
  (∀ s0, List.find (has_id serverId) l = Some s0 → grows s0 s') →
  Forall2 grows l (store_server serverId s' l).
Proof.
  induction l as [|s r IH]; simpl; [constructor|].
  destruct (has_id serverId s); intros H.
  - constructor; [by apply H | apply Forall2_grows_refl].
  - constructor; [apply grows_refl | by apply IH].
Qed.

Lemma advances_written x w serverId s' :
  servers x = store_server serverId s' (servers w) →
  (∀ s0, getServer w serverId = Some s0 → grows s0 s') →
  advances w x.
Proof.
  intros Hx Hg. unfold advances. rewrite Hx.
  by apply Forall2_grows_store_server.
Qed.

Lemma advances_same_servers w x : servers x = servers w → advances w x.
Proof. intros H. unfold advances. rewrite H. apply Forall2_grows_refl. Qed.

Lemma advances_updateServerStatus serverId st data t w :
  p_metadata data = None →
  advances w (updateServerStatus serverId st data t w).
Proof.
  intros Hmd. unfold updateServerStatus.
  destruct (getServer w serverId) as [server|] eqn:Hs; [|apply advances_refl].
  eapply advances_written; [reflexivity|].
  intros s0 Hs0. assert (s0 = server) by congruence. subst s0.
  unfold grows. simpl. rewrite Hmd. simpl.
  repeat split; try lia. destruct st; lia.
Qed.

Lemma advances_resetServer serverId w : advances w (resetServer serverId w).
Proof.
  unfold resetServer.
  destruct (getServer w serverId) as [server|] eqn:Hs; [|apply advances_refl].
  eapply advances_written; [reflexivity|].
  intros s0 Hs0. assert (s0 = server) by congruence. subst s0.
  unfold grows. simpl. repeat split; lia.
Qed.

Lemma advances_getServerSessionCount cfg net serverId w :
  advances w (snd (getServerSessionCount cfg net serverId w)).
Proof.
  unfold getServerSessionCount.
  destruct (cache_get _ _ _) as [[n|] store1]; [by apply advances_same_servers|].
  cbv zeta. rewrite getServer_with_store.
  destruct (getServer w serverId) as [server|] eqn:Hs;
    [|by apply advances_same_servers].
  destruct (axios _ _) as [response|error]; cbn [fst snd].
  - eapply advances_trans; [|by apply advances_updateServerStatus].
    eapply advances_written; [reflexivity|].
    intros s0 Hs0. assert (s0 = server) by congruence. subst s0.
    unfold grows. simpl. repeat split; lia.
  - destruct (refused_or_timed_out _); [|by apply advances_same_servers].
    eapply advances_trans; [|by apply advances_updateServerStatus].
    by apply advances_same_servers.
Qed.

Lemma advances_deleteSessionFromServer net serverId sessionId w :
  advances w (snd (deleteSessionFromServer net serverId sessionId w)).
Proof.
  unfold deleteSessionFromServer.
  destruct (getServer w serverId) as [server|] eqn:Hs; [|apply advances_refl].
  destruct (axios _ _) as [response|error]; simpl.
  - eapply advances_written; [reflexivity|].
    intros s0 Hs0. assert (s0 = server) by congruence. subst s0.
    unfold grows. simpl. repeat split; lia.
  - destruct (responded_404 error); [|apply advances_refl].
    eapply advances_written; [reflexivity|].
    intros s0 Hs0. assert (s0 = server) by congruence. subst s0.
    unfold grows. simpl. repeat split; lia.
Qed.

Lemma grows_with_sessions l s : grows s (with_sessions l s).
Proof. unfold grows. simpl. repeat split; lia. Qed.

Lemma Forall2_grows_searchServers net sessionId l :
  Forall2 grows l (snd (searchServers net sessionId l)).
Proof.
  induction l as [|s r IH]; simpl; [constructor|].
  destruct (includes sessionId (sessions s)); simpl;
    [apply Forall2_grows_refl|].
  destruct (axios _ _) as [response|error].
  - destruct (existsb _ _); simpl.
    + constructor; [apply grows_with_sessions | apply Forall2_grows_refl].
    + destruct (searchServers net sessionId r) as [res rest']. simpl in *.
      constructor; [apply grows_with_sessions | done].
  - destruct (searchServers net sessionId r) as [res rest']. simpl in *.
    constructor; [apply grows_refl | done].
Qed.

Lemma advances_findSessionServer net sessionId w :
  advances w (snd (findSessionServer net sessionId w)).
Proof.
  unfold findSessionServer. destruct (hinted w sessionId); [apply advances_refl|].
  pose proof (Forall2_grows_searchServers net sessionId (getAllServers w)) as H.
  by destruct (searchServers net sessionId (getAllServers w)) as [[f|] l].
Qed.

Lemma advances_checkServerHealth cfg net server w :
  advances w (checkServerHealth cfg net server w).
Proof.
  unfold checkServerHealth. destruct (axios _ _) as [response|error].
  - destruct (resp_status response =? 200); by apply advances_updateServerStatus.
  - by apply advances_updateServerStatus.
Qed.

Lemma advances_performHealthChecks cfg net w :
  advances w (performHealthChecks cfg net w).
Proof.
  unfold performHealthChecks. generalize (getAllServers w). intros l.
  revert w. induction l as [|s r IH]; simpl; [apply advances_refl|].
  intros w. eapply advances_trans; [apply advances_checkServerHealth | apply IH].
Qed.

Lemma advances_countSessions cfg net l w :
  advances w (snd (countSessions cfg net l w)).
Proof.
  revert w. induction l as [|s r IH]; intros w; simpl; [apply advances_refl|].
  pose proof (advances_getServerSessionCount cfg net (id s) w) as H1.
  destruct (getServerSessionCount cfg net (id s) w) as [res w1].
  specialize (IH w1).
  destruct (countSessions cfg net r w1) as [cs w2]. simpl in *.
  by eapply advances_trans.
Qed.

Lemma advances_selectOptimalServer cfg net w :
  advances w (snd (selectOptimalServer cfg net w)).
Proof.
  unfold selectOptimalServer.
  destruct (length (getActiveServers w) =? 0).
  - repeat (match goal with |- context [if ?b then _ else _] => destruct b end);
      apply advances_refl.
  - pose proof (advances_countSessions cfg net (getActiveServers w) w) as H.
    destruct (countSessions cfg net (getActiveServers w) w) as [counted w1].
    simpl in H.
    repeat (match goal with
            | |- context [if ?b then _ else _] => destruct b
            | |- context [match ?l !! ?i with _ => _ end] => destruct (l !! i)
            end); exact H.
Qed.

Lemma advances_forwardRequest cfg env req server retries w :
  advances w (final (forwardRequest cfg env req server retries w)).
Proof.
  funelim (forwardRequest cfg env req server retries w); simpl.
  - apply advances_refl.
  - destruct (marks_unhealthy _);
      [by apply advances_updateServerStatus | apply advances_refl].
  - eapply advances_trans; [|exact H].
    change w2 with (snd (Ok (E := JsError json) newServer, w2)). rewrite <- Heq.
    eapply advances_trans; [|apply advances_selectOptimalServer].
    destruct (marks_unhealthy _);
      [by apply advances_updateServerStatus | apply advances_refl].
  - change w2 with (snd (Throw (A := Server) selectionError, w2)). rewrite <- Heq.
    eapply advances_trans; [|apply advances_selectOptimalServer].
    destruct (marks_unhealthy _);
      [by apply advances_updateServerStatus | apply advances_refl].
Qed.

Lemma advances_handlePair cfg first env last req w :
  advances w (snd (ApiController.handlePair cfg first env last req w)).
Proof.
  unfold ApiController.handlePair.
  pose proof (advances_selectOptimalServer cfg first w) as Hsel.
  destruct (selectOptimalServer cfg first w) as [[selectedServer|e] w1];
    simpl in Hsel; [|done].
  pose proof (advances_forwardRequest cfg env req selectedServer 0 w1) as Hfwd.
  pose proof (advances_trans _ _ _ Hsel Hfwd) as H2.
  destruct (outcome _) as [backendResponse|forwardError]; [|done].
  destruct (negb _); [done|].
  destruct (truthy_opt (field _ "error")); [done|].
  destruct (truthy_opt (field _ "ok")); [|done].
  pose proof (advances_getServerSessionCount cfg last (id selectedServer)
                (final (forwardRequest cfg env req selectedServer 0 w1)))
    as Hcount.
  pose proof (advances_trans _ _ _ H2 Hcount) as H3.
  destruct (getServerSessionCount cfg last (id selectedServer) _)
    as [[currentCount|updateError] w3]; simpl in *; [|done].
  by destruct (ApiController.pairedSession _).
Qed.

Lemma advances_deleteSession first last sessionId w :
  advances w (snd (ApiController.deleteSession first last sessionId w)).
Proof.
  unfold ApiController.deleteSession.
  pose proof (advances_findSessionServer first sessionId w) as Hfind.
  destruct (findSessionServer first sessionId w) as [[sessionInfo|] w1];
    simpl in Hfind; [|done].
  pose proof (advances_deleteSessionFromServer last
                (id (found_server sessionInfo)) sessionId w1) as Hdel.
  pose proof (advances_trans _ _ _ Hfind Hdel) as H2.
  destruct (deleteSessionFromServer last _ sessionId w1)
    as [[deleteResult|error] w2]; simpl in *; [done|].
  destruct (err_response error); [done|].
  by destruct (refused_or_timed_out _).
Qed.

Lemma advances_findSession net sessionId w :
  advances w (snd (ApiController.findSession net sessionId w)).
Proof.
  unfold ApiController.findSession.
  pose proof (advances_findSessionServer net sessionId w) as Hfind.
  by destruct (findSessionServer net sessionId w) as [[sessionInfo|] w1].
Qed.

Lemma advances_forceHealthCheck cfg net serverId w :
  advances w (snd (ApiController.forceHealthCheck cfg net serverId w)).
Proof.
  unfold ApiController.forceHealthCheck, checkServer.
  destruct (getServer w serverId) as [server|]; [|apply advances_refl].
  pose proof (advances_checkServerHealth cfg net server w) as H.
  by destruct (getServer (checkServerHealth cfg net server w) serverId).
Qed.

Lemma advances_operation cfg w w' : operation cfg w w' → advances w w'.
Proof.
  destruct 1.
  - by apply advances_updateServerStatus.
  - apply advances_resetServer.
  - apply advances_getServerSessionCount.
  - apply advances_deleteSessionFromServer.
  - apply advances_findSessionServer.
  - apply advances_checkServerHealth.
  - apply advances_performHealthChecks.
  - apply advances_selectOptimalServer.
  - apply advances_forwardRequest.
  - apply advances_handlePair.
  - apply advances_deleteSession.
  - apply advances_findSession.
  - apply advances_forceHealthCheck.
Qed.

(** X7. Across any sequence of operations of the gateway the registry
    keeps its servers, as many and in the same order, each with its id,
    its URL and its creation time, and none of the counters
    [healthChecks], [failures] and [deletedSessions] ever goes down. *)
Theorem counters_never_decrease :
  ∀ (cfg : Config) (w w' : World),
    performed cfg w w' → Forall2 grows (servers w) (servers w').
Proof.
  intros cfg w w'. induction 1 as [w|w w1 w2 _ IH Hop].
  - apply Forall2_grows_refl.
  - eapply Forall2_grows_trans; [exact IH|].
    by apply (advances_operation cfg).
Qed.

Lemma counters_never_decrease_witness :
  Forall2 grows (servers w0)
    (servers (checkServerHealth default_CONFIG (half_down 9 [])
                (specimen "server-1" url1 0 []) down1)).
Proof.
  apply (counters_never_decrease default_CONFIG).
  eapply performed_more; [eapply performed_more; [apply performed_none|]|].
  - apply (op_updateServerStatus default_CONFIG "server-1" UNHEALTHY no_patch 1 w0).
    reflexivity.
  - apply op_checkServerHealth.
Defined.

(** ** services/serverManager.js: the index, counted per server *)

Lemma reachable_index_known cfg w : reachable cfg w → index_known w.
Proof.
  induction 1 as [t|w w' _ IH Hs].
  - intros k b H. simpl in H. by rewrite lookup_empty in H.
  - eapply index_known_settles; [|exact IH]. by apply (settles_step cfg).
Qed.

Lemma sum_list_zeros {A : Type} (l : list A) :
  sum_list (map (λ _, 0) l) = 0.
Proof. induction l; simpl; [done|]. by rewrite IHl. Qed.

Lemma sum_list_plus {A : Type} (f g : A → nat) (l : list A) :
  sum_list (map (λ x, f x + g x) l) = sum_list (map f l) + sum_list (map g l).
Proof. induction l; simpl; [done|]. rewrite IHl. lia. Qed.

(** Among pairwise distinct ids, exactly one is the given one. *)
Lemma one_owner (b : string) (ids : list string) :
  NoDup ids → In b ids →
  sum_list (map (λ i, if bool_decide (b = i) then 1 else 0) ids) = 1.
Proof.
  induction ids as [|i r IH]; simpl; [done|].
  intros Hnd Hin. apply NoDup_cons in Hnd as [Hnotin Hnd].
  destruct (bool_decide_reflect (b = i)) as [<-|Hne].
  - assert (H : sum_list (map (λ i, if bool_decide (b = i) then 1 else 0) r) = 0);
      [|by rewrite H].
    transitivity (sum_list (map (λ _, 0) r)); [|apply sum_list_zeros].
    f_equal. apply map_ext_in.
    intros j Hj. case_bool_decide as Hbj; [|done].
    exfalso. apply Hnotin. rewrite Hbj. by apply list_elem_of_In.
  - destruct Hin as [?|Hin]; [congruence|]. by rewrite IH.
Qed.

Lemma owners_partition (ids : list string) (L : list (string * string)) :
  NoDup ids →
  (∀ kv, In kv L → In kv.2 ids) →
  sum_list (map (λ i, length (List.filter (λ kv, bool_decide (kv.2 = i)) L)) ids)
  = length L.
Proof.
  intros Hnd. induction L as [|kv L IH]; intros Hin.
  - simpl. apply sum_list_zeros.
  - transitivity
      (sum_list
         (map (λ i, (if bool_decide (kv.2 = i) then 1 else 0)
                    + length (List.filter (λ kv, bool_decide (kv.2 = i)) L))
            ids)).
    + f_equal. apply map_ext. intros i. simpl.
      by destruct (bool_decide (kv.2 = i)).
    + rewrite sum_list_plus, IH by (intros ? ?; apply Hin; by right).
      rewrite (one_owner kv.2 ids Hnd) by (apply Hin; by left). done.
Qed.

(** X8. In every reachable state the figures of [getSessionMapInfo] add
    up: the per-server numbers of mapped sessions sum to
    [totalMappedSessions], so every entry of the index is counted under
    exactly one server, and there is one figure per server. *)
Theorem getSessionMapInfo_adds_up :
  ∀ (cfg : Config) (w : World),
    reachable cfg w →
    sum_list (map snd (sessionsPerServer (getSessionMapInfo w)))
    = totalMappedSessions (getSessionMapInfo w)
    ∧ map fst (sessionsPerServer (getSessionMapInfo w)) = map id (servers w)
    ∧ serverCount (getSessionMapInfo w)
      = length (sessionsPerServer (getSessionMapInfo w)).
Proof.
  intros cfg w Hreach. unfold getSessionMapInfo. simpl.
  split; [|split].
  - rewrite map_map. simpl.
    rewrite <- length_map_to_list.
    rewrite <- (owners_partition (map id (servers w)) (map_to_list (sessionMap w))).
    + by rewrite map_map.
    + by apply (reachable_distinct_ids cfg).
    + intros [k b] Hkv. simpl.
      apply (reachable_index_known cfg w Hreach k).
      by apply elem_of_map_to_list, list_elem_of_In.
  - by rewrite map_map.
  - by rewrite length_map.
Qed.

Lemma getSessionMapInfo_adds_up_witness :
  sum_list
    (map snd
       (sessionsPerServer
          (getSessionMapInfo
             (snd (getServerSessionCount default_CONFIG
                     (half_down 3 (crowd 4)) "server-2" w0)))))
  = totalMappedSessions
      (getSessionMapInfo
         (snd (getServerSessionCount default_CONFIG
                 (half_down 3 (crowd 4)) "server-2" w0))).
Proof.
  refine (proj1 (getSessionMapInfo_adds_up default_CONFIG _ _)).
  apply (reachable_step default_CONFIG w0); [apply (reachable_initial _ 0)|].
  apply step_getServerSessionCount.
Defined.

(** ** services/serverManager.js: counting the sessions of a backend *)

Lemma index_sessions_keeps serverId l (m : gmap string string) k :
  m !! k = Some serverId → index_sessions serverId l m !! k = Some serverId.
Proof.
  unfold index_sessions. revert m.
  induction l as [|s r IH]; intros m Hm; simpl; [done|].
  apply IH. destruct (js_or _ _) as [sid|]; [|done].
  destruct (String.eqb sid ""); [done|].
  destruct (decide (sid = k)) as [->|Hne].
  - apply lookup_insert_eq.
  - by rewrite lookup_insert_ne.
Qed.

Lemma index_sessions_hit serverId l (m : gmap string string) k :
  In (Some k) (session_ids l) → k ≠ "" →
  index_sessions serverId l m !! k = Some serverId.
Proof.
  intros Hin Hk. revert m.
  induction l as [|s r IH]; intros m; [done|].
  destruct Hin as [Hhead|Hin].
  - unfold index_sessions. simpl. rewrite Hhead.
    apply String.eqb_neq in Hk. rewrite Hk.
    apply index_sessions_keeps, lookup_insert_eq.
  - unfold index_sessions. simpl. by apply IH.
Qed.

Lemma index_sessions_miss serverId l (m : gmap string string) k :
  ¬ In (Some k) (session_ids l) ∨ k = "" →
  index_sessions serverId l m !! k = m !! k.
Proof.
  intros Hout. revert m.
  induction l as [|s r IH]; intros m; [done|].
  unfold index_sessions. simpl.
  assert (Hrest : ¬ In (Some k) (session_ids r) ∨ k = "").
  { destruct Hout as [Hout|?]; [left|by right].
    intros H. apply Hout. by right. }
  etransitivity; [by apply IH|].
  destruct (js_or _ _) as [sid|] eqn:Hsid; [|done].
  destruct (String.eqb sid "") eqn:Hempty; [done|].
  apply lookup_insert_ne. intros ->.
  destruct Hout as [Hout| ->].
  - apply Hout. by left.
  - by rewrite String.eqb_refl in Hempty.
Qed.

(** X9. When no fresh count is cached, the server is known and its
    [/sessions] probe answers 2xx, [getServerSessionCount] returns the
    number of sessions listed and leaves the server with that count, the
    listed identifiers, the probe's duration and a new check stamp; its
    status is kept, [isActive] is reset to agree with it, and a server
    that was UNHEALTHY is charged one more failure although the probe
    succeeded.  Every listed session with a truthy identifier is indexed
    under the server, the other index entries stay, no count remains
    cached for the server, and the other servers are as they were. *)
Theorem getServerSessionCount_refreshes :
  ∀ (cfg : Config) (net : Net) (serverId : string) (w : World)
    (server : Server) (response : Response SessionsBody),
    fst (cache_get (cacheKey serverId) (now net) (store w)) = None →
    getServer w serverId = Some server →
    axios status_2xx (get_sessions net (url server +:+ "/sessions"))
    = Ok response →
    ∃ w' server',
      getServerSessionCount cfg net serverId w
      = (Ok (length (default [] (resp_data response))), w')
      ∧ getServer w' serverId = Some server'
      ∧ sessionCount server' = length (default [] (resp_data response))
      ∧ sessions server' = session_ids (default [] (resp_data response))
      ∧ responseTime server' = default 0 (resp_duration response)
      ∧ lastChecked server' = Some (now net)
      ∧ status server' = status server
      ∧ isActive server' = bool_decide (status server = HEALTHY)
      ∧ healthChecks (metadata server') = S (healthChecks (metadata server))
      ∧ failures (metadata server')
        = (if bool_decide (status server = UNHEALTHY)
           then S (failures (metadata server))
           else failures (metadata server))
      ∧ (∀ k, In (Some k) (session_ids (default [] (resp_data response))) →
              k ≠ "" → sessionMap w' !! k = Some serverId)
      ∧ (∀ k, ¬ In (Some k) (session_ids (default [] (resp_data response)))
              ∨ k = "" →
              sessionMap w' !! k = sessionMap w !! k)
      ∧ store w' !! cacheKey serverId = None
      ∧ (∀ other, other ≠ serverId → getServer w' other = getServer w other).
Proof.
  intros cfg net serverId w server response Hmiss Hs Hprobe.
  destruct (getServer_Some _ _ _ Hs) as [Hid _].
  unfold getServerSessionCount.
  destruct (cache_get _ _ _) as [cached store1]. simpl in Hmiss. subst cached.
  cbv zeta. rewrite getServer_with_store, Hs, Hprobe.
  set (l := default [] (resp_data response)).
  set (data := {| p_status := None |}).
  match goal with |- context [updateServerStatus _ _ _ _ ?x] => set (w4 := x) end.
  assert (Hbefore : getServer w4 serverId = Some (with_sessions (session_ids l) server))
    by (by apply (getServer_written w4 w serverId server)).
  eexists _, _. split; [reflexivity|].
  split; [by apply getServer_updateServerStatus|]. simpl.
  repeat split; try done.
  - intros k Hin Hk. rewrite sessionMap_updateServerStatus. simpl.
    by apply index_sessions_hit.
  - intros k Hout. rewrite sessionMap_updateServerStatus. simpl.
    by apply index_sessions_miss.
  - rewrite (store_updateServerStatus_known w4 serverId _ data _ _ Hbefore).
    apply lookup_delete_eq.
  - intros other Hne. rewrite getServer_updateServerStatus_ne by done.
    unfold getServer. simpl servers. by apply find_store_server_ne.
Qed.

Lemma getServerSessionCount_refreshes_witness :
  ∃ w' server',
    getServerSessionCount default_CONFIG (half_down 3 (crowd 4)) "server-2" down1
    = (Ok 4, w')
    ∧ getServer w' "server-2" = Some server'
    ∧ sessionCount server' = 4.
Proof.
  destruct (getServerSessionCount_refreshes default_CONFIG
              (half_down 3 (crowd 4)) "server-2" down1
              (fresh "server-2" url2)
              {| resp_status := 200; resp_data := Some (crowd 4);
                 resp_duration := None |})
    as (w' & server' & H1 & H2 & H3 & _); [reflexivity..|].
  by exists w', server'.
Defined.

(** X10. When no fresh count is cached, the server is known and its
    probe fails, [getServerSessionCount] throws the probe's error and
    leaves the index alone.  If the error code is ECONNREFUSED or
    ETIMEDOUT the server ends UNHEALTHY and inactive, charged one failure
    and one check, with the error's message, its count and its sessions
    kept; for any other error (an HTTP error status, ECONNABORTED, ...)
    the registry is not touched at all. *)
Theorem getServerSessionCount_probe_fails :
  ∀ (cfg : Config) (net : Net) (serverId : string) (w : World)
    (server : Server) (e : JsError SessionsBody),
    fst (cache_get (cacheKey serverId) (now net) (store w)) = None →
    getServer w serverId = Some server →
    axios status_2xx (get_sessions net (url server +:+ "/sessions"))
    = Throw e →
    ∃ w',
      getServerSessionCount cfg net serverId w = (Throw e, w')
      ∧ sessionMap w' = sessionMap w
      ∧ roundRobinIndex w' = roundRobinIndex w
      ∧ if refused_or_timed_out (err_code e)
        then ∃ server',
               getServer w' serverId = Some server'
               ∧ status server' = UNHEALTHY
               ∧ isActive server' = false
               ∧ error server' = Some (err_message e)
               ∧ failures (metadata server') = S (failures (metadata server))
               ∧ healthChecks (metadata server')
                 = S (healthChecks (metadata server))
               ∧ sessionCount server' = sessionCount server
               ∧ sessions server' = sessions server
        else servers w' = servers w.
Proof.
  intros cfg net serverId w server e Hmiss Hs Hprobe.
  unfold getServerSessionCount.
  destruct (cache_get _ _ _) as [cached store1]. simpl in Hmiss. subst cached.
  cbv zeta. rewrite getServer_with_store, Hs, Hprobe.
  eexists. split; [reflexivity|].
  destruct (refused_or_timed_out (err_code e)).
  - split; [by rewrite sessionMap_updateServerStatus|].
    split; [by rewrite roundRobinIndex_updateServerStatus|].
    eexists. split.
    + apply getServer_updateServerStatus. by rewrite getServer_with_store.
    + by simpl.
  - done.
Qed.

Lemma getServerSessionCount_probe_fails_witness :
  ∃ w',
    getServerSessionCount default_CONFIG (half_down 3 []) "server-1" w0
    = (Throw {| err_message := "connect ECONNREFUSED";
                err_code := Some "ECONNREFUSED"; err_response := None |}, w')
    ∧ sessionMap w' = sessionMap w0.
Proof.
  destruct (getServerSessionCount_probe_fails default_CONFIG
              (half_down 3 []) "server-1" w0
              (fresh "server-1" url1)
              {| err_message := "connect ECONNREFUSED";
                 err_code := Some "ECONNREFUSED"; err_response := None |})
    as (w' & H1 & H2 & _); [reflexivity..|].
  by exists w'.
Defined.

(** ** services/serverManager.js: looking a session up twice *)

Lemma searchServers_found net sessionId l f l' :
  searchServers net sessionId l = (Some f, l') → In (found_server f) l'.
Proof.
  revert l'. induction l as [|s r IH]; intros l'; simpl; [done|].
  destruct (includes sessionId (sessions s)).
  { intros [= <- <-]. by left. }
  destruct (searchServers net sessionId r) as [res rest'].
  destruct (axios _ _) as [response|e].
  - destruct (existsb _ _).
    + intros [= <- <-]. by left.
    + intros [= -> <-]. right. by apply IH.
  - intros [= -> <-]. right. by apply IH.
Qed.

Lemma reachable_ids_nonempty cfg w :
  reachable cfg w → Forall (λ i, i ≠ "") (map id (servers w)).
Proof.
  induction 1 as [t|w w' _ IH Hstep].
  - simpl. unfold initializeServers. rewrite (map_id_initializeServers _ t 0).
    apply Forall_forall. intros i Hi. apply list_elem_of_fmap in Hi as (k & -> & _).
    done.
  - by rewrite (map_id_step cfg w w').
Qed.

Lemma findSessionServer_found cfg net sessionId w w1 f :
  reachable cfg w →
  findSessionServer net sessionId w = (Some f, w1) →
  hinted w1 sessionId = Some (found_server f)
  ∧ sessionMap w1 !! sessionId = Some (id (found_server f))
  ∧ getServer w1 (id (found_server f)) = Some (found_server f).
Proof.
  intros Hreach Hfind. unfold findSessionServer in Hfind.
  destruct (hinted w sessionId) as [server|] eqn:Hh.
  - injection Hfind as <- <-. simpl. split; [done|].
    unfold hinted in Hh.
    destruct (sessionMap w !! sessionId) as [c|] eqn:Hc; [|done].
    destruct (String.eqb c ""); [done|].
    destruct (getServer_Some _ _ _ Hh) as [-> _]. done.
  - destruct (searchServers net sessionId (getAllServers w)) as [[f'|] l] eqn:Hsearch;
      [|done].
    injection Hfind as <- <-.
    pose proof (searchServers_found _ _ _ _ _ Hsearch) as Hin.
    pose proof (map_id_searchServers net sessionId (getAllServers w)) as Hids.
    rewrite Hsearch in Hids. simpl in Hids.
    assert (Hnd : NoDup (map id l))
      by (rewrite Hids; by apply (reachable_distinct_ids cfg)).
    assert (Hget : List.find (has_id (id (found_server f'))) l
                   = Some (found_server f')) by (by apply find_NoDup).
    assert (Hne : id (found_server f') ≠ "").
    { pose proof (reachable_ids_nonempty cfg w Hreach) as Hall.
      rewrite Forall_forall in Hall. apply Hall.
      unfold getAllServers in Hids. rewrite <- Hids.
      by apply list_elem_of_In, in_map. }
    unfold hinted, getServer. simpl. rewrite lookup_insert_eq.
    apply String.eqb_neq in Hne. by rewrite Hne.
Qed.

Lemma findSessionServer_not_found cfg net sessionId w w1 :
  reachable cfg w →
  findSessionServer net sessionId w = (None, w1) →
  sessionMap w1 !! sessionId = None.
Proof.
  intros Hreach Hfind. unfold findSessionServer in Hfind.
  destruct (hinted w sessionId) as [server|] eqn:Hh; [done|].
  assert (Hnone : sessionMap w !! sessionId = None).
  { unfold hinted in Hh.
    destruct (sessionMap w !! sessionId) as [c|] eqn:Hc; [|done].
    pose proof (reachable_index_known cfg w Hreach sessionId c Hc) as Hin.
    pose proof (reachable_ids_nonempty cfg w Hreach) as Hall.
    rewrite Forall_forall in Hall.
    pose proof (Hall c (proj2 (list_elem_of_In _ _) Hin)) as Hne.
    apply String.eqb_neq in Hne. rewrite Hne in Hh.
    destruct (In_id_getServer w c Hin) as [s Hs]. congruence. }
  destruct (searchServers net sessionId (getAllServers w)) as [[f|] l]; [done|].
  by injection Hfind as <-.
Qed.

(** X11. In a reachable state, a lookup that finds the session leaves the
    index pointing at the server it returned, and that server can be
    fetched by its id; so the next lookup of the same session, whatever
    the backends then answer, returns that same server with
    [cached: true] and changes nothing. *)
Theorem findSessionServer_twice :
  ∀ (cfg : Config) (net : Net) (sessionId : string) (w w1 : World) (f : Found),
    reachable cfg w →
    findSessionServer net sessionId w = (Some f, w1) →
    sessionMap w1 !! sessionId = Some (id (found_server f))
    ∧ getServer w1 (id (found_server f)) = Some (found_server f)
    ∧ ∀ net',
        findSessionServer net' sessionId w1
        = (Some {| found_server := found_server f; cached := true;
                   sessionDetails := None |}, w1).
Proof.
  intros cfg net sessionId w w1 f Hreach Hfind.
  destruct (findSessionServer_found cfg net sessionId w w1 f Hreach Hfind)
    as (Hh & Hidx & Hget).
  split; [done|]. split; [done|].
  intros net'. unfold findSessionServer. by rewrite Hh.
Qed.

Lemma findSessionServer_twice_witness :
  ∃ w1 f,
    findSessionServer one_session "sess-abc-01" w0 = (Some f, w1)
    ∧ ∀ net',
        findSessionServer net' "sess-abc-01" w1
        = (Some {| found_server := found_server f; cached := true;
                   sessionDetails := None |}, w1).
Proof.
  eexists _, _. split; [vm_compute; reflexivity|].
  refine (proj2 (proj2 (findSessionServer_twice default_CONFIG one_session
                          "sess-abc-01" w0 _ _ _ _))).
  - apply (reachable_initial _ 0).
  - vm_compute. reflexivity.
Defined.

(** ** services/healthMonitor.js: what a check concludes *)

Lemma checkServerHealth_checked cfg net server w :
  getServer w (id server) = Some server →
  ∃ s', getServer (checkServerHealth cfg net server w) (id server) = Some s'
        ∧ checked cfg net server s'.
Proof.
  intros Hs. unfold checkServerHealth, checked, verdict.
  destruct (axios _ _) as [response|e].
  - destruct (resp_status response =? 200).
    + erewrite getServer_updateServerStatus by exact Hs.
      eexists. split; [reflexivity|]. simpl.
      destruct (MAX_SESSIONS_PER_SERVER cfg <=? _)%Z; by repeat split.
    + erewrite getServer_updateServerStatus by exact Hs.
      eexists. split; [reflexivity|]. by simpl.
  - erewrite getServer_updateServerStatus by exact Hs.
    eexists. split; [reflexivity|]. by simpl.
Qed.

Lemma checkServerHealth_frame cfg net server w :
  sessionMap (checkServerHealth cfg net server w) = sessionMap w
  ∧ roundRobinIndex (checkServerHealth cfg net server w) = roundRobinIndex w
  ∧ ∀ other, other ≠ id server →
             getServer (checkServerHealth cfg net server w) other
             = getServer w other.
Proof.
  unfold checkServerHealth.
  destruct (axios _ _) as [response|e]; [destruct (resp_status response =? 200)|].
  all: split; [apply sessionMap_updateServerStatus|].
  all: split; [apply roundRobinIndex_updateServerStatus|].
  all: intros other Hne; by apply getServer_updateServerStatus_ne.
Qed.

Lemma sweep_checked cfg net l w :
  NoDup (map id l) →
  (∀ s, In s l → getServer w (id s) = Some s) →
  let w' := fold_left (λ acc server, checkServerHealth cfg net server acc) l w in
  sessionMap w' = sessionMap w
  ∧ roundRobinIndex w' = roundRobinIndex w
  ∧ (∀ other, ¬ In other (map id l) → getServer w' other = getServer w other)
  ∧ ∀ s, In s l → ∃ s', getServer w' (id s) = Some s' ∧ checked cfg net s s'.
Proof.
  revert w. induction l as [|s r IH]; intros w Hnd Hcur; simpl.
  { by repeat split. }
  apply NoDup_cons in Hnd as [Hnotin Hnd].
  destruct (checkServerHealth_frame cfg net s w) as (Hmap1 & Hrr1 & Hother1).
  destruct (checkServerHealth_checked cfg net s w) as (s1 & Hs1 & Hchk1);
    [apply Hcur; by left|].
  assert (Hdiff : ∀ x, In x r → id x ≠ id s).
  { intros x Hx Heq. apply Hnotin. rewrite <- Heq.
    by apply list_elem_of_In, in_map. }
  destruct (IH (checkServerHealth cfg net s w) Hnd) as (Hmap2 & Hrr2 & Hother2 & Hall2).
  { intros x Hx. rewrite Hother1 by (by apply Hdiff). apply Hcur. by right. }
  split; [congruence|]. split; [congruence|]. split.
  { intros other Hout. rewrite Hother2 by (intros ?; apply Hout; by right).
    apply Hother1. intros ->. apply Hout. by left. }
  intros x [<-|Hx].
  - exists s1. split; [|done]. rewrite Hother2; [done|].
    intros Hin. by apply Hnotin, list_elem_of_In.
  - by apply Hall2.
Qed.

Lemma In_getServer w s' :
  In s' (servers w) → ∃ s, getServer w (id s') = Some s ∧ id s = id s'.
Proof.
  intros Hin. destruct (In_id_getServer w (id s')) as [s Hs]; [by apply in_map|].
  exists s. split; [done|]. by apply getServer_Some in Hs as [? _].
Qed.

(** X12. One sweep of the health monitor over a registry (ids pairwise
    distinct) leaves every server with the verdict of its own probe: FULL
    or HEALTHY by the number of sessions listed when [/sessions] answers
    200, UNHEALTHY for any other answer or none; with [isActive] in
    agreement, a new check stamp, one more health check and, when
    UNHEALTHY, one more failure.  The in-memory session sets, the index
    and the cursor are not touched, and whatever the registry was before,
    it satisfies the isActive invariant afterwards. *)
Theorem performHealthChecks_verdicts :
  ∀ (cfg : Config) (net : Net) (w : World),
    NoDup (map id (servers w)) →
    sessionMap (performHealthChecks cfg net w) = sessionMap w
    ∧ roundRobinIndex (performHealthChecks cfg net w) = roundRobinIndex w
    ∧ (∀ s, In s (servers w) →
            ∃ s', getServer (performHealthChecks cfg net w) (id s) = Some s'
                  ∧ checked cfg net s s')
    ∧ registry_inv (performHealthChecks cfg net w).
Proof.
  intros cfg net w Hnd.
  destruct (sweep_checked cfg net (getAllServers w) w Hnd) as (Hmap & Hrr & _ & Hall).
  { intros s Hs. by apply find_NoDup. }
  fold (performHealthChecks cfg net w) in Hmap, Hrr, Hall.
  split; [done|]. split; [done|]. split; [done|].
  apply Forall_forall. intros s' Hs'. apply list_elem_of_In in Hs'.
  assert (Hnd' : NoDup (map id (servers (performHealthChecks cfg net w))))
    by (by rewrite map_id_performHealthChecks).
  pose proof (find_NoDup _ _ Hnd' Hs') as Hget.
  assert (Hid : In (id s') (map id (servers w))).
  { rewrite <- (map_id_performHealthChecks cfg net w). by apply in_map. }
  apply in_map_iff in Hid as (s & Hid & Hs).
  destruct (Hall s Hs) as (s'' & Hs'' & Hchk).
  unfold getServer in Hs''. rewrite Hid, Hget in Hs''. injection Hs'' as <-.
  destruct Hchk as (Hst & Hact & _).
  unfold consistent. by rewrite Hact, Hst.
Qed.

Lemma performHealthChecks_verdicts_witness :
  registry_inv (performHealthChecks default_CONFIG (half_down 9 (crowd 25)) busy).
Proof.
  refine (proj2 (proj2 (proj2 (performHealthChecks_verdicts default_CONFIG
                                 (half_down 9 (crowd 25)) busy _)))).
  apply (bool_decide_unpack _). vm_compute. exact I.
Defined.

(** X13. The forced health check answers 404 with "Server <id> not found"
    and changes nothing when the id is unknown; for a known server it
    answers 200 and reports, under [server], the verdict the check has
    just stored for it together with the stored count and check stamp. *)
Theorem forceHealthCheck_reports_verdict :
  ∀ (cfg : Config) (net : Net) (serverId : string) (w : World),
    (getServer w serverId = None →
     ApiController.forceHealthCheck cfg net serverId w
     = ({| sent_status := 404;
           sent_body :=
             createResponse false
               (Some (JStr ("Server " +:+ serverId +:+ " not found")))
               (now net) |}, w))
    ∧ (∀ server,
         getServer w serverId = Some server →
         ∃ s',
           getServer (snd (ApiController.forceHealthCheck cfg net serverId w))
             serverId = Some s'
           ∧ checked cfg net server s'
           ∧ sent_status (fst (ApiController.forceHealthCheck cfg net serverId w))
             = 200
           ∧ field (sent_body
                      (fst (ApiController.forceHealthCheck cfg net serverId w)))
               "server"
             = Some (JObj [("id", JStr serverId);
                           ("status",
                            JStr (status_string (verdict cfg net server)));
                           ("sessionCount", json_nat (sessionCount s'));
                           ("lastChecked", JNum (now net))])).
Proof.
  intros cfg net serverId w. split.
  - intros Hnone. unfold ApiController.forceHealthCheck, checkServer.
    by rewrite Hnone.
  - intros server Hs. destruct (getServer_Some _ _ _ Hs) as [Hid _].
    unfold ApiController.forceHealthCheck, checkServer. rewrite Hs.
    rewrite <- Hid in Hs |- *.
    destruct (checkServerHealth_checked cfg net server w Hs)
      as (s' & Hs' & Hchk).
    rewrite Hs'. simpl. exists s'. split; [done|]. split; [done|].
    split; [done|].
    destruct Hchk as (-> & _ & -> & _ & _ & _ & _ & -> & _). done.
Qed.

(** ** services/loadBalancer.js: which attempt decides *)

Lemma forwardRequest_probe cfg env req server retries w :
  ∀ i u,
    attempts (forwardRequest cfg env req server retries w) !! i = Some u →
    (S i < length (attempts (forwardRequest cfg env req server retries w)) →
     ∃ e, axios status_any (forward (env (2 * (retries + i))) (method req) u)
          = Throw e)
    ∧ (S i = length (attempts (forwardRequest cfg env req server retries w)) →
       outcome (forwardRequest cfg env req server retries w)
       = axios status_any (forward (env (2 * (retries + i))) (method req) u)).
Proof.
  funelim (forwardRequest cfg env req server retries w);
    cbn [attempts outcome length].
  1, 2, 4: intros [|i] u Hi; [|done]; injection Hi as <-;
    rewrite Nat.add_0_r; (split; [lia|]); intros _;
    match goal with H : axios _ _ = _ |- _ => by rewrite H end.
  intros [|i] u Hi.
  - injection Hi as <-. rewrite Nat.add_0_r. split.
    + intros _. match goal with H : axios _ _ = _ |- _ => rewrite H end. eauto.
    + intros Hlen.
      pose proof (attempts_bound cfg env req newServer (retries + 1) w2) as [? _].
      lia.
  - change ((_ :: ?l) !! S i) with (l !! i) in Hi.
    replace (retries + S i) with (retries + 1 + i) by lia.
    destruct (H i u Hi) as [Hfail Hlast].
    split; intros Hlen; [apply Hfail | apply Hlast]; lia.
Qed.

Lemma forwardRequest_first cfg env req server retries w :
  attempts (forwardRequest cfg env req server retries w) !! 0
  = Some (targetUrl server req).
Proof. by funelim (forwardRequest cfg env req server retries w). Qed.

Lemma axios_Ok_accepted {B : Type} (v : nat → bool) (reply : Reply B) r :
  axios v reply = Ok r → reply = Answered r ∧ v (resp_status r) = true.
Proof.
  destruct reply as [r'|c m]; simpl; [|done].
  destruct (v (resp_status r')) eqn:E; [|done]. by intros [= <-].
Qed.

(** X14. A call of [forwardRequest] is decided by its last attempt: the
    first attempt goes to the server given, every attempt but the last
    was rejected by axios, and what the call returns or throws is what
    axios returned or threw for the last one, the attempt with [retries]
    counting the earlier ones.  So a returned response has a status from
    200 to 599, whatever it is, and a thrown error is always the
    upstream error of the last attempt, never the error of a failed
    re-selection. *)
Theorem forwardRequest_last_attempt :
  ∀ (cfg : Config) (env : nat → Net) (req : Request) (server : Server)
    (retries : nat) (w : World),
    attempts (forwardRequest cfg env req server retries w) !! 0
    = Some (targetUrl server req)
    ∧ (∀ i u,
         attempts (forwardRequest cfg env req server retries w) !! i = Some u →
         (S i < length (attempts (forwardRequest cfg env req server retries w)) →
          ∃ e, axios status_any
                 (forward (env (2 * (retries + i))) (method req) u)
               = Throw e)
         ∧ (S i = length (attempts (forwardRequest cfg env req server retries w)) →
            outcome (forwardRequest cfg env req server retries w)
            = axios status_any
                (forward (env (2 * (retries + i))) (method req) u)))
    ∧ (∀ r, outcome (forwardRequest cfg env req server retries w) = Ok r →
            200 ≤ resp_status r < 600).
Proof.
  intros cfg env req server retries w.
  split; [apply forwardRequest_first|].
  split; [apply forwardRequest_probe|].
  intros r Hr.
  pose proof (attempts_bound cfg env req server retries w) as [Hlen _].
  destruct (lookup_lt_is_Some_2
              (attempts (forwardRequest cfg env req server retries w))
              (length (attempts (forwardRequest cfg env req server retries w)) - 1))
    as [u Hu]; [lia|].
  destruct (forwardRequest_probe cfg env req server retries w _ u Hu) as [_ Hlast].
  rewrite Hlast in Hr by lia.
  apply axios_Ok_accepted in Hr as [_ Hr]. unfold status_any in Hr.
  apply andb_true_iff in Hr as [H1 H2].
  apply Nat.leb_le in H1. apply Nat.ltb_lt in H2. lia.
Qed.

(** ** Statuses on the request path *)

Lemma fades_refl s : fades s s.
Proof. split; auto. Qed.

Lemma fades_trans a b c : fades a b → fades b c → fades a c.
Proof.
  intros [Hid1 H1] [Hid2 H2]. split; [congruence|].
  destruct H2 as [H2|H2]; [|by right]. rewrite H2. exact H1.
Qed.

Lemma Forall2_fades_refl l : Forall2 fades l l.
Proof. induction l; constructor; [apply fades_refl | done]. Qed.

Lemma Forall2_fades_trans l1 l2 l3 :
  Forall2 fades l1 l2 → Forall2 fades l2 l3 → Forall2 fades l1 l3.
Proof.
  intros H. revert l3. induction H as [|a b r1 r2 Hab _ IH]; intros l3 H23.
  - by inversion H23.
  - inversion H23; subst. constructor; [by eapply fades_trans | by apply IH].
Qed.

Lemma Forall2_fades_store_server serverId s' l :
  (∀ s0, List.find (has_id serverId) l = Some s0 → fades s0 s') →
  Forall2 fades l (store_server serverId s' l).
Proof.
  induction l as [|s r IH]; simpl; [constructor|].
  destruct (has_id serverId s); intros H.
  - constructor; [by apply H | apply Forall2_fades_refl].
  - constructor; [apply fades_refl | by apply IH].
Qed.

Lemma fades_updateServerStatus serverId st data t w :
  p_status data = None →
  (st = UNHEALTHY ∨ ∃ server, getServer w serverId = Some server ∧ st = status server) →
  Forall2 fades (servers w) (servers (updateServerStatus serverId st data t w)).
Proof.
  intros Hdata Hst. unfold updateServerStatus.
  destruct (getServer w serverId) as [server|] eqn:Hs; [|apply Forall2_fades_refl].
  simpl servers. apply Forall2_fades_store_server.
  intros s0 Hs0. unfold getServer in Hs. assert (s0 = server) by congruence.
  subst s0. split; [done|]. simpl. rewrite Hdata. simpl.
  destruct Hst as [->|(server' & [= <-] & ->)]; auto.
Qed.

Lemma fades_getServerSessionCount cfg net serverId w :
  Forall2 fades (servers w) (servers (snd (getServerSessionCount cfg net serverId w))).
Proof.
  unfold getServerSessionCount.
  destruct (cache_get _ _ _) as [[n|] store1]; [apply Forall2_fades_refl|].
  cbv zeta. rewrite getServer_with_store.
  destruct (getServer w serverId) as [server|] eqn:Hs; [|apply Forall2_fades_refl].
  destruct (getServer_Some _ _ _ Hs) as [Hid _].
  destruct (axios _ _) as [response|e]; cbn [fst snd].
  - match goal with |- context [updateServerStatus _ _ _ _ ?x] => set (w4 := x) end.
    apply (Forall2_fades_trans _ (servers w4)).
    + simpl. apply Forall2_fades_store_server.
      intros s0 Hs0. unfold getServer in Hs. assert (s0 = server) by congruence.
      subst s0. split; auto.
    + apply fades_updateServerStatus; [done|]. right.
      exists (with_sessions (session_ids (default [] (resp_data response))) server).
      split; [|done]. by apply (getServer_written w4 w serverId server).
  - destruct (refused_or_timed_out _); [|apply Forall2_fades_refl].
    apply (fades_updateServerStatus _ _ _ _ (with_store store1 w)); auto.
Qed.

Lemma fades_countSessions cfg net l w :
  Forall2 fades (servers w) (servers (snd (countSessions cfg net l w))).
Proof.
  revert w. induction l as [|s r IH]; intros w; simpl; [apply Forall2_fades_refl|].
  pose proof (fades_getServerSessionCount cfg net (id s) w) as H1.
  destruct (getServerSessionCount cfg net (id s) w) as [res w1].
  specialize (IH w1).
  destruct (countSessions cfg net r w1) as [cs w2]. simpl in *.
  by eapply Forall2_fades_trans.
Qed.

Lemma fades_selectOptimalServer cfg net w :
  Forall2 fades (servers w) (servers (snd (selectOptimalServer cfg net w))).
Proof.
  unfold selectOptimalServer.
  destruct (length (getActiveServers w) =? 0).
  - repeat (match goal with |- context [if ?b then _ else _] => destruct b end);
      apply Forall2_fades_refl.
  - pose proof (fades_countSessions cfg net (getActiveServers w) w) as H.
    destruct (countSessions cfg net (getActiveServers w) w) as [counted w1].
    simpl in H.
    repeat (match goal with
            | |- context [if ?b then _ else _] => destruct b
            | |- context [match ?l !! ?i with _ => _ end] => destruct (l !! i)
            end); exact H.
Qed.

Lemma fades_forwardRequest cfg env req server retries w :
  Forall2 fades (servers w)
    (servers (final (forwardRequest cfg env req server retries w))).
Proof.
  funelim (forwardRequest cfg env req server retries w); simpl.
  - apply Forall2_fades_refl.
  - destruct (marks_unhealthy _);
      [apply fades_updateServerStatus; auto | apply Forall2_fades_refl].
  - eapply Forall2_fades_trans; [|exact H].
    change w2 with (snd (Ok (E := JsError json) newServer, w2)). rewrite <- Heq.
    eapply Forall2_fades_trans; [|apply fades_selectOptimalServer].
    destruct (marks_unhealthy _);
      [apply fades_updateServerStatus; auto | apply Forall2_fades_refl].
  - change w2 with (snd (Throw (A := Server) selectionError, w2)). rewrite <- Heq.
    eapply Forall2_fades_trans; [|apply fades_selectOptimalServer].
    destruct (marks_unhealthy _);
      [apply fades_updateServerStatus; auto | apply Forall2_fades_refl].
Qed.

Lemma fades_handlePair cfg first env last req w :
  Forall2 fades (servers w)
    (servers (snd (ApiController.handlePair cfg first env last req w))).
Proof.
  unfold ApiController.handlePair.
  pose proof (fades_selectOptimalServer cfg first w) as Hsel.
  destruct (selectOptimalServer cfg first w) as [[selectedServer|e] w1];
    simpl in Hsel; [|done].
  pose proof (fades_forwardRequest cfg env req selectedServer 0 w1) as Hfwd.
  pose proof (Forall2_fades_trans _ _ _ Hsel Hfwd) as H2.
  destruct (outcome _) as [backendResponse|forwardError]; [|done].
  destruct (negb _); [done|].
  destruct (truthy_opt (field _ "error")); [done|].
  destruct (truthy_opt (field _ "ok")); [|done].
  pose proof (fades_getServerSessionCount cfg last (id selectedServer)
                (final (forwardRequest cfg env req selectedServer 0 w1)))
    as Hcount.
  pose proof (Forall2_fades_trans _ _ _ H2 Hcount) as H3.
  destruct (getServerSessionCount cfg last (id selectedServer) _)
    as [[currentCount|updateError] w3]; simpl in *; [|done].
  by destruct (ApiController.pairedSession _).
Qed.

Lemma fades_deleteSessionFromServer net serverId sessionId w :
  Forall2 fades (servers w)
    (servers (snd (deleteSessionFromServer net serverId sessionId w))).
Proof.
  unfold deleteSessionFromServer.
  destruct (getServer w serverId) as [server|] eqn:Hs; [|apply Forall2_fades_refl].
  unfold getServer in Hs.
  destruct (axios _ _) as [response|e]; simpl.
  - apply Forall2_fades_store_server.
    intros s0 Hs0. assert (s0 = server) by congruence. subst s0. split; auto.
  - destruct (responded_404 e); [|apply Forall2_fades_refl].
    apply Forall2_fades_store_server.
    intros s0 Hs0. assert (s0 = server) by congruence. subst s0. split; auto.
Qed.

Lemma fades_searchServers net sessionId l :
  Forall2 fades l (snd (searchServers net sessionId l)).
Proof.
  induction l as [|s r IH]; simpl; [constructor|].
  destruct (includes sessionId (sessions s)); simpl;
    [apply Forall2_fades_refl|].
  destruct (axios _ _) as [response|e].
  - destruct (existsb _ _); simpl.
    + constructor; [by split; auto | apply Forall2_fades_refl].
    + destruct (searchServers net sessionId r) as [res rest']. simpl in *.
      constructor; [by split; auto | done].
  - destruct (searchServers net sessionId r) as [res rest']. simpl in *.
    constructor; [apply fades_refl | done].
Qed.

Lemma fades_findSessionServer net sessionId w :
  Forall2 fades (servers w) (servers (snd (findSessionServer net sessionId w))).
Proof.
  unfold findSessionServer.
  destruct (hinted w sessionId); [apply Forall2_fades_refl|].
  pose proof (fades_searchServers net sessionId (getAllServers w)) as H.
  by destruct (searchServers net sessionId (getAllServers w)) as [[f|] l].
Qed.

(** X15. Serving a request never revives a backend.  Across [handlePair]
    (selection, forwarding with its retries and re-selections, count
    refresh), [deleteSession] and [findSession] the registry keeps its
    servers in order and each server keeps its status or becomes
    UNHEALTHY; so a server that is FULL or UNHEALTHY is never HEALTHY
    after a request: only a health check or a reset brings it back. *)
Theorem requests_never_revive :
  ∀ (cfg : Config) (first : Net) (env : nat → Net) (last : Net)
    (req : Request) (sessionId : string) (w : World),
    Forall2 fades (servers w)
      (servers (snd (ApiController.handlePair cfg first env last req w)))
    ∧ Forall2 fades (servers w)
        (servers (snd (ApiController.deleteSession first last sessionId w)))
    ∧ Forall2 fades (servers w)
        (servers (snd (ApiController.findSession first sessionId w)))
    ∧ ∀ s s', fades s s' → status s ≠ HEALTHY → status s' ≠ HEALTHY.
Proof.
  intros cfg first env last req sessionId w.
  split; [apply fades_handlePair|]. split; [|split].
  - unfold ApiController.deleteSession.
    pose proof (fades_findSessionServer first sessionId w) as Hfind.
    destruct (findSessionServer first sessionId w) as [[sessionInfo|] w1];
      simpl in Hfind; [|done].
    pose proof (fades_deleteSessionFromServer last
                  (id (found_server sessionInfo)) sessionId w1) as Hdel.
    pose proof (Forall2_fades_trans _ _ _ Hfind Hdel) as H2.
    destruct (deleteSessionFromServer last _ sessionId w1)
      as [[deleteResult|e] w2]; simpl in *; [done|].
    destruct (err_response e); [done|].
    by destruct (refused_or_timed_out _).
  - unfold ApiController.findSession.
    pose proof (fades_findSessionServer first sessionId w) as Hfind.
    by destruct (findSessionServer first sessionId w) as [[sessionInfo|] w1].
  - intros s s' [_ [H|H]] Hs; congruence.
Qed.

(** ** controllers/apiController.js: what the pair handler answers *)

Lemma createResponse_error e t :
  truthy e = true →
  field (createResponse false (Some e) t) "ok" = Some (JBool false)
  ∧ field (createResponse false (Some e) t) "error" = Some e.
Proof. intros H. unfold createResponse. rewrite H. by split. Qed.

Lemma forwardRequest_returns_accepted cfg env req server retries w r :
  outcome (forwardRequest cfg env req server retries w) = Ok r →
  200 ≤ resp_status r < 600.
Proof.
  intros Hr.
  pose proof (attempts_bound cfg env req server retries w) as [Hlen _].
  destruct (lookup_lt_is_Some_2
              (attempts (forwardRequest cfg env req server retries w))
              (length (attempts (forwardRequest cfg env req server retries w)) - 1))
    as [u Hu]; [lia|].
  destruct (forwardRequest_probe cfg env req server retries w _ u Hu) as [_ Hlast].
  rewrite Hlast in Hr by lia.
  apply axios_Ok_accepted in Hr as [_ Hr]. unfold status_any in Hr.
  apply andb_true_iff in Hr as [H1 H2].
  apply Nat.leb_le in H1. apply Nat.ltb_lt in H2. lia.
Qed.

Lemma forwardRequest_returns_reply cfg env req server retries w r :
  outcome (forwardRequest cfg env req server retries w) = Ok r →
  ∃ i u,
    attempts (forwardRequest cfg env req server retries w) !! i = Some u
    ∧ S i = length (attempts (forwardRequest cfg env req server retries w))
    ∧ forward (env (2 * (retries + i))) (method req) u = Answered r.
Proof.
  intros Hr.
  pose proof (attempts_bound cfg env req server retries w) as [Hlen _].
  destruct (lookup_lt_is_Some_2
              (attempts (forwardRequest cfg env req server retries w))
              (length (attempts (forwardRequest cfg env req server retries w)) - 1))
    as [u Hu]; [lia|].
  destruct (forwardRequest_probe cfg env req server retries w _ u Hu) as [_ Hlast].
  rewrite Hlast in Hr by lia.
  apply axios_Ok_accepted in Hr as [Hr _].
  eexists _, u. split; [exact Hu|]. split; [lia | exact Hr].
Qed.

(** X16. Every answer of [handlePair] is of one of two kinds.  Either it
    passes a backend's reply through: the selection returned a server,
    the forwarding from it returned the response that the network gave
    to its last attempt, and the answer has the status and the body of
    that response; the status is then between 200 and 599, the body is
    truthy and has no truthy [error] member.  Or it is an error reply of
    the gateway: its status is 400 or more and its body has [ok: false]
    and a truthy [error] member. *)
Theorem handlePair_reply_kinds :
  ∀ (cfg : Config) (first : Net) (env : nat → Net) (last : Net)
    (req : Request) (w : World),
    (∃ (selectedServer : Server) (w1 : World) (r : Response json)
       (i : nat) (u : string),
       selectOptimalServer cfg first w = (Ok selectedServer, w1)
       ∧ outcome (forwardRequest cfg env req selectedServer 0 w1) = Ok r
       ∧ attempts (forwardRequest cfg env req selectedServer 0 w1) !! i = Some u
       ∧ S i = length (attempts (forwardRequest cfg env req selectedServer 0 w1))
       ∧ forward (env (2 * i)) (method req) u = Answered r
       ∧ fst (ApiController.handlePair cfg first env last req w)
         = {| sent_status := resp_status r; sent_body := resp_data r |}
       ∧ 200 ≤ resp_status r < 600
       ∧ truthy (resp_data r) = true
       ∧ truthy_opt (field (resp_data r) "error") = false)
    ∨ (400 ≤ sent_status (fst (ApiController.handlePair cfg first env last req w))
       ∧ field (sent_body (fst (ApiController.handlePair cfg first env last req w)))
           "ok" = Some (JBool false)
       ∧ ∃ e,
           field (sent_body
                    (fst (ApiController.handlePair cfg first env last req w)))
             "error" = Some e
           ∧ truthy e = true).
Proof.
  intros cfg first env last req w. unfold ApiController.handlePair.
  destruct (selectOptimalServer cfg first w) as [[selectedServer|e] w1].
  - pose proof (forwardRequest_returns_accepted cfg env req selectedServer 0 w1)
      as Hacc.
    pose proof (forwardRequest_returns_reply cfg env req selectedServer 0 w1)
      as Hrep.
    assert (Hpass :
      ∀ r, outcome (forwardRequest cfg env req selectedServer 0 w1) = Ok r →
           truthy (resp_data r) = true →
           truthy_opt (field (resp_data r) "error") = false →
           ∃ (selectedServer' : Server) (w1' : World) (r' : Response json)
             (i : nat) (u : string),
             (Ok (E := JsError json) selectedServer, w1) = (Ok selectedServer', w1')
             ∧ outcome (forwardRequest cfg env req selectedServer' 0 w1') = Ok r'
             ∧ attempts (forwardRequest cfg env req selectedServer' 0 w1') !! i
               = Some u
             ∧ S i = length (attempts (forwardRequest cfg env req selectedServer' 0 w1'))
             ∧ forward (env (2 * i)) (method req) u = Answered r'
             ∧ {| sent_status := resp_status r; sent_body := resp_data r |}
               = {| sent_status := resp_status r'; sent_body := resp_data r' |}
             ∧ 200 ≤ resp_status r' < 600
             ∧ truthy (resp_data r') = true
             ∧ truthy_opt (field (resp_data r') "error") = false).
    { intros r Hr Hdata Herr.
      destruct (Hrep r Hr) as (i & u & Hu & Hlast & Hfwd).
      exists selectedServer, w1, r, i, u.
      repeat split; try done; by apply Hacc. }
    destruct (outcome _) as [backendResponse|forwardError].
    + destruct (truthy (resp_data backendResponse)) eqn:Hdata; cbn [negb].
      * destruct (field (resp_data backendResponse) "error") as [err|] eqn:Herr;
          cbn [truthy_opt].
        -- destruct (truthy err) eqn:Htruthy.
           ++ right. cbn [fst sent_status sent_body].
              split; [destruct (Nat.leb_spec 400 (resp_status backendResponse)); lia|].
              destruct (createResponse_error err (now last) Htruthy) as [Hok He].
              split; [exact Hok|]. by exists err.
           ++ left. cbn [fst]. apply Hpass; [done | done|].
              by rewrite Herr.
        -- left. cbn [fst]. apply Hpass; [done | done|]. by rewrite Herr.
      * right. cbn [fst sent_status sent_body]. split; [lia|].
        split; [done|]. eexists. by split.
    + right. cbn [fst sent_status sent_body]. split; [lia|].
      split; [done|]. eexists. by split.
  - right. cbn [fst sent_status sent_body]. split; [lia|].
    split; [done|].
    repeat (match goal with |- context [if String.eqb ?a ?b then _ else _] =>
              destruct (String.eqb a b) end);
      eexists; by split.
Qed.

(** X17. When no server is active, [handlePair] answers 503 at once,
    whatever the request and the network, and changes nothing; the
    message tells why: all servers full (with the limit), else all
    unavailable, else none active. *)
Theorem handlePair_without_active_server :
  ∀ (cfg : Config) (first : Net) (env : nat → Net) (last : Net)
    (req : Request) (w : World),
    getActiveServers w = [] →
    ∃ msg,
      ApiController.handlePair cfg first env last req w
      = ({| sent_status := 503;
            sent_body := createResponse false (Some (JStr msg)) (now first) |}, w)
      ∧ (all_status FULL w →
         msg = "All API servers are full ("
               +:+ pretty (MAX_SESSIONS_PER_SERVER cfg) +:+ "/"
               +:+ pretty (MAX_SESSIONS_PER_SERVER cfg) +:+ ")")
      ∧ (¬ all_status FULL w → all_status UNHEALTHY w →
         msg = "All backend servers are unavailable")
      ∧ (¬ all_status FULL w → ¬ all_status UNHEALTHY w →
         msg = "No active backend servers available").
Proof.
  intros cfg first env last req w Hact.
  unfold ApiController.handlePair, selectOptimalServer. rewrite Hact.
  cbn [length Nat.eqb].
  pose proof (all_status_filter FULL w) as Hfull.
  pose proof (all_status_filter UNHEALTHY w) as Hdown.
  set (allFull :=
         (length (List.filter (λ s, bool_decide (status s = FULL))
                    (getAllServers w)) =? length (getAllServers w))
         && (0 <? length (getAllServers w))) in *.
  set (allDown :=
         (length (List.filter (λ s, bool_decide (status s = UNHEALTHY))
                    (getAllServers w)) =? length (getAllServers w))
         && (0 <? length (getAllServers w))) in *.
  destruct allFull.
  - eexists. split; [reflexivity|].
    split; [done|]. split; intros Hnot; exfalso; by apply Hnot, Hfull.
  - assert (Hnf : ¬ all_status FULL w) by (intros H; by apply Hfull in H).
    destruct allDown.
    + eexists. split; [reflexivity|].
      split; [done|]. split; [done|]. intros _ Hnot. exfalso. by apply Hnot, Hdown.
    + assert (Hnd : ¬ all_status UNHEALTHY w) by (intros H; by apply Hdown in H).
      eexists. split; [reflexivity|]. by repeat split.
Qed.

Lemma handlePair_without_active_server_witness :
  ∃ msg,
    ApiController.handlePair default_CONFIG (flaky 0) flaky (flaky 9)
      pair_request all_down
    = ({| sent_status := 503;
          sent_body := createResponse false (Some (JStr msg)) 0 |}, all_down).
Proof.
  destruct (handlePair_without_active_server default_CONFIG (flaky 0) flaky
              (flaky 9) pair_request all_down) as (msg & H & _);
    [vm_compute; reflexivity|].
  by exists msg.
Defined.

(** ** controllers/apiController.js: deleting a session *)

Lemma axios_Throw_refused {B : Type} (v : nat → bool) (reply : Reply B) e r :
  axios v reply = Throw e → err_response e = Some r → v (resp_status r) = false.
Proof.
  destruct reply as [r'|c m]; simpl.
  - destruct (v (resp_status r')) eqn:E; [done|].
    intros [= <-]. simpl. by intros [= <-].
  - by intros [= <-].
Qed.

(** X18. In a reachable state, [deleteSession] answers 200 exactly when
    the lookup finds the session and the logout on the server found is
    accepted (2xx); that server then no longer remembers the session and
    has one more deleted session.  And whenever the answer is 200 or 404
    (the session was not found, or the backend said so), the index holds
    no entry for the session afterwards. *)
Theorem deleteSession_settles_index :
  ∀ (cfg : Config) (first last : Net) (sessionId : string) (w : World),
    reachable cfg w →
    (sent_status (fst (ApiController.deleteSession first last sessionId w)) = 200
     ↔ ∃ f r,
         fst (findSessionServer first sessionId w) = Some f
         ∧ axios status_2xx
             (post_logout last (url (found_server f) +:+ "/logout/" +:+ sessionId))
           = Ok r)
    ∧ (sent_status (fst (ApiController.deleteSession first last sessionId w)) = 200 →
       ∃ f s',
         fst (findSessionServer first sessionId w) = Some f
         ∧ getServer (snd (ApiController.deleteSession first last sessionId w))
             (id (found_server f)) = Some s'
         ∧ includes sessionId (sessions s') = false
         ∧ deletedSessions (metadata s')
           = S (deletedSessions (metadata (found_server f))))
    ∧ (sent_status (fst (ApiController.deleteSession first last sessionId w)) = 200
       ∨ sent_status (fst (ApiController.deleteSession first last sessionId w)) = 404 →
       sessionMap (snd (ApiController.deleteSession first last sessionId w))
         !! sessionId = None).
Proof.
  intros cfg first last sessionId w Hreach.
  unfold ApiController.deleteSession.
  destruct (findSessionServer first sessionId w) as [[f|] w1] eqn:Hfind.
  - destruct (findSessionServer_found cfg first sessionId w w1 f Hreach Hfind)
      as (_ & _ & Hget).
    unfold deleteSessionFromServer. rewrite Hget.
    destruct (axios status_2xx _) as [r|e] eqn:Hax; cbn [fst snd sent_status].
    + split; [split; [eauto | done]|]. split.
      * intros _. eexists f, _. split; [done|]. split.
        -- eapply getServer_written; [reflexivity | exact Hget | done].
        -- simpl. split; [apply includes_remove_session | done].
      * intros _. simpl. apply lookup_delete_eq.
    + destruct (err_response e) as [r|] eqn:Her; cbn [fst snd sent_status].
      * pose proof (axios_Throw_refused _ _ _ _ Hax Her) as Href.
        assert (Hnot : resp_status r ≠ 200) by (intros H; by rewrite H in Href).
        split; [split; [intros H; by apply Hnot in H
                       | intros (f0 & r0 & [= <-] & Hok); congruence]|].
        split; [intros H; by apply Hnot in H|].
        intros [H|H404]; [by apply Hnot in H|]. unfold responded_404. rewrite Her, H404.
        simpl. apply lookup_delete_eq.
      * destruct (refused_or_timed_out _); cbn [fst snd sent_status].
        all: split; [split; [done | intros (f0 & r0 & [= <-] & Hok); congruence]|].
        all: split; [done|]; by intros [?|?].
  - cbn [fst snd sent_status].
    split; [split; [done | by intros (? & ? & ? & ?)]|].
    split; [done|]. intros _.
    by apply (findSessionServer_not_found cfg first sessionId w).
Qed.

Lemma deleteSession_settles_index_witness :
  sessionMap (snd (ApiController.deleteSession one_session one_session
                     "sess-abc-01" w0)) !! "sess-abc-01" = None.
Proof.
  refine (proj2 (proj2 (deleteSession_settles_index default_CONFIG one_session
                          one_session "sess-abc-01" w0 _)) _).
  - apply (reachable_initial _ 0).
  - left. vm_compute. reflexivity.
Defined.

(** ** middleware/validator.js and the path sent upstream *)

Lemma digits_no_slash s : all_chars is_digit s = true → no_slash s = true.
Proof.
  induction s as [|c r IH]; simpl; [done|].
  intros H. apply andb_true_iff in H as [Hc Hr]. rewrite IH by done.
  destruct (Ascii.eqb_spec c "/"%char) as [->|]; [|done].
  by vm_compute in Hc.
Qed.

Lemma no_slash_app a b : no_slash (a +:+ b) = no_slash a && no_slash b.
Proof.
  induction a as [|c r IH]; simpl; [done|]. rewrite IH. by rewrite andb_assoc.
Qed.

Lemma append_assoc (a b c : string) : (a +:+ b) +:+ c = a +:+ (b +:+ c).
Proof.
  induction a as [|x r IH]; [done|].
  change (String x ((r +:+ b) +:+ c) = String x (r +:+ (b +:+ c))).
  by f_equal.
Qed.

Lemma append_nonempty a b : a ≠ "" → String.eqb (a +:+ b) "" = false.
Proof. by destruct a. Qed.

Lemma after_prefix_app p s : after_prefix p (p +:+ s) = Some s.
Proof.
  induction p as [|c r IH]; [done|].
  change (after_prefix (String c r) (String c (r +:+ s)) = Some s).
  simpl. by rewrite Ascii.eqb_refl.
Qed.

(** X19. A number that [validatePairRequest] lets through is made of 6 to
    15 digits, so the path [/pair/<number>] matches the pattern of
    [forwardRequest] and the request goes upstream to
    [<url>/pair/<number>/], with the trailing slash.  The pattern is
    tried on the whole [originalUrl]: when a query string without a slash
    follows the number, the slash is appended after the query string. *)
Theorem validated_number_path :
  ∀ (number : string) (t : Z) (server : Server) (m : string),
    validatePairRequest number t = None →
    6 ≤ String.length number ≤ 15
    ∧ all_chars is_digit number = true
    ∧ targetUrl server {| method := m; originalUrl := "/pair/" +:+ number |}
      = url server +:+ "/pair/" +:+ number +:+ "/"
    ∧ ∀ q, no_slash q = true →
           targetUrl server
             {| method := m; originalUrl := "/pair/" +:+ number +:+ "?" +:+ q |}
           = url server +:+ "/pair/" +:+ number +:+ "?" +:+ q +:+ "/".
Proof.
  intros number t server m Hvalid. unfold validatePairRequest in Hvalid.
  destruct (String.eqb number "") eqn:Hempty; [done|].
  destruct (validatePhoneNumber number) eqn:Hphone; [|done].
  unfold validatePhoneNumber in Hphone.
  apply andb_true_iff in Hphone as [Hlen Hdigits].
  apply andb_true_iff in Hlen as [Hlo Hhi].
  apply Nat.leb_le in Hlo. apply Nat.leb_le in Hhi.
  split; [lia|]. split; [done|].
  pose proof (digits_no_slash number Hdigits) as Hns.
  apply String.eqb_neq in Hempty.
  split.
  - unfold targetUrl, matches_pair. cbn [originalUrl].
    rewrite after_prefix_app, Hns.
    apply String.eqb_neq in Hempty. rewrite Hempty. cbn [negb andb].
    by rewrite !append_assoc.
  - intros q Hq. unfold targetUrl, matches_pair. cbn [originalUrl].
    rewrite after_prefix_app, (append_nonempty number _ Hempty).
    rewrite !no_slash_app, Hns, Hq. cbn [negb andb no_slash Ascii.eqb Bool.eqb].
    by rewrite !append_assoc.
Qed.

Lemma validated_number_path_witness :
  targetUrl (fresh "server-1" url1) pair_request
  = url1 +:+ "/pair/33612345678/".
Proof.
  exact (proj1 (proj2 (proj2 (validated_number_path "33612345678" 0
                                (fresh "server-1" url1) "GET" eq_refl)))).
Defined.

(** ** services/loadBalancer.js: a backend that refuses the request *)

Lemma forwardRequest_after_failure cfg env req server retries w :
  match axios status_any
          (forward (env (2 * retries)) (method req) (targetUrl server req)) with
  | Ok _ => True
  | Throw e =>
      let w1 :=
        if marks_unhealthy (err_code e)
        then updateServerStatus (id server) UNHEALTHY
               {| p_status := None; p_sessionCount := None;
                  p_lastChecked := None; p_responseTime := None;
                  p_isActive := None; p_sessions := None;
                  p_metadata := None;
                  p_error := Some (err_message e);
                  p_sessionsList := None |}
               (now (env (2 * retries))) w
        else w in
      Forall2 fades (servers w1)
        (servers (final (forwardRequest cfg env req server retries w)))
      ∧ Forall2 grows (servers w1)
          (servers (final (forwardRequest cfg env req server retries w)))
  end.
Proof.
  funelim (forwardRequest cfg env req server retries w);
    match goal with H : axios _ _ = _ |- _ => rewrite H end;
    cbn [final]; try done.
  - split; [apply Forall2_fades_refl | apply Forall2_grows_refl].
  - match goal with |- context [Forall2 fades (servers ?x)] => set (w1 := x) in * end.
    assert (Hw2 : w2 = snd (selectOptimalServer cfg (env (2 * retries + 1)) w1))
      by (by rewrite Heq).
    split.
    + eapply Forall2_fades_trans; [|apply fades_forwardRequest].
      rewrite Hw2. apply fades_selectOptimalServer.
    + eapply Forall2_grows_trans; [|apply advances_forwardRequest].
      rewrite Hw2. apply advances_selectOptimalServer.
  - match goal with |- context [Forall2 fades (servers ?x)] => set (w1 := x) in * end.
    assert (Hw2 : w2 = snd (selectOptimalServer cfg (env (2 * retries + 1)) w1))
      by (by rewrite Heq).
    rewrite Hw2.
    split; [apply fades_selectOptimalServer | apply advances_selectOptimalServer].
Qed.

Lemma Forall2_find (R : Server → Server → Prop) l l' k s :
  (∀ a b, R a b → id b = id a) →
  Forall2 R l l' →
  List.find (has_id k) l = Some s →
  ∃ s', List.find (has_id k) l' = Some s' ∧ R s s'.
Proof.
  intros Hid H. induction H as [|a b r r' Hab _ IH]; simpl; [done|].
  unfold has_id at 1 3. rewrite (Hid a b Hab).
  destruct (String.eqb (id a) k).
  - intros [= <-]. eauto.
  - exact IH.
Qed.

(** X20. A known backend whose attempt fails with ECONNREFUSED, ETIMEDOUT
    or ECONNABORTED is out of rotation when [forwardRequest] ends,
    however the retries go: it is UNHEALTHY, hence not active, and has
    been charged at least one more failure. *)
Theorem forwardRequest_marks_refusing_server :
  ∀ (cfg : Config) (env : nat → Net) (req : Request) (server s0 : Server)
    (retries : nat) (w : World) (e : JsError json),
    getServer w (id server) = Some s0 →
    axios status_any
      (forward (env (2 * retries)) (method req) (targetUrl server req))
    = Throw e →
    marks_unhealthy (err_code e) = true →
    ∃ s',
      getServer (final (forwardRequest cfg env req server retries w)) (id server)
      = Some s'
      ∧ status s' = UNHEALTHY
      ∧ is_active s' = false
      ∧ failures (metadata s0) < failures (metadata s').
Proof.
  intros cfg env req server s0 retries w e Hs Hax Hmark.
  pose proof (forwardRequest_after_failure cfg env req server retries w) as H.
  rewrite Hax, Hmark in H. cbv zeta in H. destruct H as [Hfades Hgrows].
  pose proof (getServer_updateServerStatus w (id server) UNHEALTHY
                {| p_status := None; p_sessionCount := None;
                   p_lastChecked := None; p_responseTime := None;
                   p_isActive := None; p_sessions := None;
                   p_metadata := None;
                   p_error := Some (err_message e);
                   p_sessionsList := None |}
                (now (env (2 * retries))) s0 Hs) as Hs1.
  unfold getServer in Hs1 |- *.
  destruct (Forall2_find fades _ _ _ _ (λ a b H, proj1 H) Hfades Hs1)
    as (s' & Hs' & _ & Hst).
  destruct (Forall2_find grows _ _ _ _ (λ a b H, proj1 H) Hgrows Hs1)
    as (s'' & Hs'' & _ & _ & _ & _ & Hfail & _).
  assert (s'' = s') by congruence. subst s''.
  exists s'. split; [done|]. simpl in Hst, Hfail.
  assert (Hun : status s' = UNHEALTHY) by (by destruct Hst).
  split; [done|]. split; [|lia].
  unfold is_active. by rewrite Hun.
Qed.

Lemma forwardRequest_marks_refusing_server_witness :
  ∃ s',
    getServer
      (final (forwardRequest default_CONFIG (λ k, half_down (Z.of_nat k) [])
                pair_request (fresh "server-1" url1) 0 w0)) "server-1"
    = Some s'
    ∧ status s' = UNHEALTHY.
Proof.
  destruct (forwardRequest_marks_refusing_server default_CONFIG
              (λ k, half_down (Z.of_nat k) []) pair_request
              (fresh "server-1" url1) (fresh "server-1" url1) 0 w0
              {| err_message := "connect ECONNREFUSED";
                 err_code := Some "ECONNREFUSED"; err_response := None |})
    as (s' & H1 & H2 & _); [reflexivity..|].
  by exists s'.
Defined.

(** ** controllers/apiController.js: a pairing that succeeds *)

Lemma sessionMap_getServerSessionCount_Throw cfg net serverId w e w' :
  getServerSessionCount cfg net serverId w = (Throw e, w') →
  sessionMap w' = sessionMap w.
Proof.
  unfold getServerSessionCount.
  destruct (cache_get _ _ _) as [[n|] store1]; [done|].
  cbv zeta. rewrite getServer_with_store.
  destruct (getServer w serverId) as [server|]; [|by intros [= _ <-]].
  destruct (axios _ _) as [response|e']; [done|].
  intros [= _ <-].
  destruct (refused_or_timed_out _); [|done].
  by rewrite sessionMap_updateServerStatus.
Qed.

(** X21. In a reachable state, let [handlePair] select a server, the
    backend answer with a truthy [ok], no truthy [error] and a session
    identifier (its [sessionId], else its [cleanNumber], a non-empty
    string).  If the count refresh that follows succeeds, the session is
    indexed under the selected server, and a later lookup of it returns
    that server from the index, [cached: true], without probing and
    without changing anything.  If the refresh fails, the index is left
    as the refresh found it: the pairing is not recorded. *)
Theorem handlePair_indexes_session :
  ∀ (cfg : Config) (first : Net) (env : nat → Net) (last : Net)
    (req : Request) (w w1 : World) (selectedServer : Server)
    (backendResponse : Response json) (sessionId : string),
    reachable cfg w →
    selectOptimalServer cfg first w = (Ok selectedServer, w1) →
    outcome (forwardRequest cfg env req selectedServer 0 w1) = Ok backendResponse →
    truthy_opt (field (resp_data backendResponse) "error") = false →
    truthy_opt (field (resp_data backendResponse) "ok") = true →
    ApiController.pairedSession (resp_data backendResponse) = Some sessionId →
    (is_Ok (fst (getServerSessionCount cfg last (id selectedServer)
                   (final (forwardRequest cfg env req selectedServer 0 w1)))) →
     sessionMap (snd (ApiController.handlePair cfg first env last req w))
       !! sessionId = Some (id selectedServer)
     ∧ ∀ net', ∃ s',
         findSessionServer net' sessionId
           (snd (ApiController.handlePair cfg first env last req w))
         = (Some {| found_server := s'; cached := true; sessionDetails := None |},
            snd (ApiController.handlePair cfg first env last req w))
         ∧ id s' = id selectedServer)
    ∧ (¬ is_Ok (fst (getServerSessionCount cfg last (id selectedServer)
                       (final (forwardRequest cfg env req selectedServer 0 w1)))) →
       sessionMap (snd (ApiController.handlePair cfg first env last req w))
       = sessionMap (final (forwardRequest cfg env req selectedServer 0 w1))).
Proof.
  intros cfg first env last req w w1 selectedServer backendResponse sessionId
    Hreach Hsel Hout Herr Hok Hpaired.
  assert (Hdata : truthy (resp_data backendResponse) = true).
  { destruct (resp_data backendResponse); try done. }
  assert (Hids : ∀ w3,
            map id (servers w3)
            = map id (servers (final (forwardRequest cfg env req selectedServer 0 w1))) →
            map id (servers w3) = map id (servers w)).
  { intros w3 ->. rewrite map_id_forwardRequest.
    pose proof (map_id_selectOptimalServer cfg first w) as H.
    by rewrite Hsel in H. }
  assert (Hknown : In (id selectedServer) (map id (servers w))).
  { destruct (selectOptimalServer_Ok_active cfg first w selectedServer w1 Hsel)
      as (a & Ha & ->).
    rewrite id_deref. apply in_map. by apply filter_In in Ha as [? _]. }
  assert (Hne : String.eqb (id selectedServer) "" = false).
  { apply String.eqb_neq.
    pose proof (reachable_ids_nonempty cfg w Hreach) as Hall.
    rewrite Forall_forall in Hall. by apply Hall, list_elem_of_In. }
  unfold ApiController.handlePair. rewrite Hsel. cbv zeta.
  rewrite Hout, Hdata, Herr, Hok. cbn [negb].
  destruct (getServerSessionCount_footprint cfg last (id selectedServer)
              (final (forwardRequest cfg env req selectedServer 0 w1)))
    as (_ & _ & _ & Hids3 & _).
  pose proof (sessionMap_getServerSessionCount_Throw cfg last (id selectedServer)
                (final (forwardRequest cfg env req selectedServer 0 w1))) as Hthrow.
  destruct (getServerSessionCount cfg last (id selectedServer) _)
    as [[currentCount|updateError] w3]; cbn [fst snd is_Ok] in *.
  - rewrite Hpaired. split; [|done]. intros _.
    split; [apply lookup_insert_eq|].
    intros net'. unfold findSessionServer, hinted. simpl sessionMap.
    rewrite lookup_insert_eq, Hne.
    destruct (In_id_getServer w3 (id selectedServer)) as [s' Hs'];
      [by rewrite (Hids w3 Hids3)|].
    change (getServer (with_sessionMap _ w3)) with (getServer w3).
    rewrite Hs'. exists s'. split; [done|].
    by apply getServer_Some in Hs' as [? _].
  - split; [done|]. intros _. by eapply Hthrow.
Qed.

Lemma handlePair_indexes_session_witness :
  sessionMap
    (snd (ApiController.handlePair default_CONFIG
            (pairing 1 both_idle (Answered paired))
            (λ _, pairing 2 both_idle (Answered paired))
            (pairing 3 both_idle (Answered paired)) pair_request w0))
    !! "sess-new-0001" = Some "server-2".
Proof.
  destruct (selectOptimalServer default_CONFIG
              (pairing 1 both_idle (Answered paired)) w0)
    as [[selectedServer|e] w1] eqn:Hsel; [| by vm_compute in Hsel].
  assert (Hid : id selectedServer = "server-2")
    by (vm_compute in Hsel; by injection Hsel as <- <-).
  rewrite <- Hid.
  refine (proj1 (proj1 (handlePair_indexes_session default_CONFIG _ _ _
                          pair_request w0 w1 selectedServer paired
                          "sess-new-0001" (reachable_initial _ 0) Hsel _ _ _ _) _)).
  - vm_compute in Hsel. injection Hsel as <- <-. vm_compute. reflexivity.
  - reflexivity.
  - reflexivity.
  - reflexivity.
  - vm_compute in Hsel. injection Hsel as <- <-. vm_compute. exact I.
Defined.

(** ** services/serverManager.js: the registry at start-up and after a reset *)

Lemma initializeServers_lookup urls t i u :
  urls !! i = Some u →
  initializeServers urls t !! i
  = Some {| id := serverId i; url := u; status := HEALTHY; sessionCount := 0;
            lastChecked := None; responseTime := 0; isActive := true;
            sessions := [];
            metadata := {| createdAt := t; healthChecks := 0; failures := 0;
                           deletedSessions := 0 |};
            error := None; sessionsList := None |}.
Proof.
  intros Hu. unfold initializeServers. rewrite list_lookup_imap, Hu. done.
Qed.

(** X22. At start-up the registry holds one server per configured URL, in
    order; the server made from the [i]-th URL (counting from 0) is the
    one fetched by the id [server-<i+1>], it has that URL, is HEALTHY and
    active with no session and no check yet, and every server is
    active. *)
Theorem initial_registry :
  ∀ (cfg : Config) (t : Z) (i : nat) (u : string),
    BACKEND_SERVERS cfg !! i = Some u →
    (∃ s,
       getServer (initial cfg t) (serverId i) = Some s
       ∧ servers (initial cfg t) !! i = Some s
       ∧ url s = u
       ∧ status s = HEALTHY
       ∧ sessionCount s = 0
       ∧ sessions s = []
       ∧ lastChecked s = None
       ∧ metadata s = {| createdAt := t; healthChecks := 0; failures := 0;
                         deletedSessions := 0 |})
    ∧ map url (servers (initial cfg t)) = BACKEND_SERVERS cfg
    ∧ getActiveServers (initial cfg t) = servers (initial cfg t).
Proof.
  intros cfg t i u Hu. split; [|split].
  - pose proof (initializeServers_lookup _ t _ _ Hu) as Hi.
    eexists. split; [|split; [exact Hi | by repeat split]].
    match goal with |- _ = Some ?x => set (s := x) in * end.
    change (serverId i) with (id s). unfold getServer.
    apply (find_NoDup _ _ (NoDup_initial cfg t)).
    apply list_elem_of_In. by eapply list_elem_of_lookup_2.
  - apply list_eq. intros j. simpl. unfold initializeServers.
    rewrite list_lookup_fmap, list_lookup_imap.
    by destruct (BACKEND_SERVERS cfg !! j).
  - unfold getActiveServers, getAllServers. apply filter_all.
    intros s Hs. apply list_elem_of_In, list_elem_of_lookup_1 in Hs as [j Hj].
    simpl in Hj. unfold initializeServers in Hj.
    rewrite list_lookup_imap in Hj.
    destruct (BACKEND_SERVERS cfg !! j); [|done]. by injection Hj as <-.
Qed.

Lemma initial_registry_witness :
  ∃ s, getServer w0 "server-2" = Some s ∧ url s = url2.
Proof.
  destruct (proj1 (initial_registry default_CONFIG 0 1 url2 eq_refl))
    as (s & H1 & _ & H2 & _).
  by exists s.
Defined.

(** X23. Resetting a known server puts it back among the active servers
    whatever its state was, and touches nothing else: its counters (the
    failures included), its last error, its count and its sessions stay,
    the cached count is not invalidated, and the other servers, the
    index and the cursor are as before. *)
Theorem resetServer_back_in_rotation :
  ∀ (w : World) (serverId : string) (s : Server),
    getServer w serverId = Some s →
    ∃ s',
      getServer (resetServer serverId w) serverId = Some s'
      ∧ In s' (getActiveServers (resetServer serverId w))
      ∧ status s' = HEALTHY
      ∧ metadata s' = metadata s
      ∧ error s' = error s
      ∧ sessionCount s' = sessionCount s
      ∧ sessions s' = sessions s
      ∧ store (resetServer serverId w) = store w
      ∧ sessionMap (resetServer serverId w) = sessionMap w
      ∧ roundRobinIndex (resetServer serverId w) = roundRobinIndex w
      ∧ ∀ other, other ≠ serverId →
                 getServer (resetServer serverId w) other = getServer w other.
Proof.
  intros w serverId s Hs. destruct (getServer_Some _ _ _ Hs) as [Hid _].
  unfold resetServer. rewrite Hs.
  eexists. split.
  { eapply getServer_written; [reflexivity | exact Hs | done]. }
  split.
  { apply filter_In. split; [|done].
    eapply (getServer_Some _ serverId).
    eapply getServer_written; [reflexivity | exact Hs | done]. }
  repeat split; try done.
  intros other Hne. unfold getServer. simpl servers.
  by apply find_store_server_ne.
Qed.

Lemma resetServer_back_in_rotation_witness :
  ∃ s',
    getServer (resetServer "server-1" down1) "server-1" = Some s'
    ∧ In s' (getActiveServers (resetServer "server-1" down1))
    ∧ failures (metadata s') = 1.
Proof.
  destruct (getServer down1 "server-1") as [s|] eqn:Hs; [|by vm_compute in Hs].
  destruct (resetServer_back_in_rotation down1 "server-1" s Hs)
    as (s' & H1 & H2 & _ & H3 & _).
  exists s'. split; [done|]. split; [done|]. rewrite H3.
  vm_compute in Hs. by injection Hs as <-.
Defined.
